(** * Swrd: session-scoped context distillation

    A shallow embedding of the store ([db.ts]), the grouper
    ([entry-tracker.ts]), the rule-based annotator ([self-annotate.ts]), the
    LLM annotator ([annotate.ts]), the retriever ([retrieve.ts]) and the Stop
    hook ([hooks/on-stop.ts]), followed by the properties of the
    specification that were checked against them.

    Modelling conventions.
    - A JavaScript string is the list of its UTF-16 code units, so that
      [.length] is the length of the list.
    - A SQLite table is the list of its rows in rowid order; key and
      uniqueness constraints are checked where the statement that can violate
      them is executed, and a violation is a thrown exception.
    - A function that writes to the database is a computation in a state and
      exception monad over the database value: statements are not wrapped
      in a transaction in the source, so the effects that precede an
      exception persist.
    - [Date.now()] is an explicit argument [now]. *)

From Stdlib Require Import List ZArith NArith QArith String Ascii Lia Bool.
From Stdlib Require Import DecimalString Permutation.
From Stdlib Require DecimalPos.
From Stdlib Require Import Sorted.
Import ListNotations.

Local Open Scope Z_scope.

(* ================================================================== *)
(** ** JavaScript strings and arrays *)

Module Js.

Definition jsstring := list N.

(** An ASCII literal of the source. *)
Definition lit (s : string) : jsstring :=
  map N_of_ascii (list_ascii_of_string s).

(** The double quote character as a string. *)
Definition dquote : jsstring := [34%N].

(** [s.length] *)
Definition len (s : jsstring) : Z := Z.of_nat (List.length s).

Fixpoint str_eqb (a b : jsstring) : bool :=
  match a, b with
  | [], [] => true
  | x :: a', y :: b' => N.eqb x y && str_eqb a' b'
  | _, _ => false
  end.

(** Truthiness of a string: only the empty string is falsy. *)
Definition truthy (s : jsstring) : bool :=
  match s with [] => false | _ => true end.

(** Truthiness of [string | null | undefined]. *)
Definition truthy_opt (o : option jsstring) : bool :=
  match o with Some s => truthy s | None => false end.

(** [a ?? b] on a nullable string. *)
Definition nullish (o : option jsstring) (d : jsstring) : jsstring :=
  match o with Some s => s | None => d end.

(** [arr.includes(x)] on an array of strings. *)
Definition includes (l : list jsstring) (x : jsstring) : bool :=
  existsb (str_eqb x) l.

(** [set.add(x)] on a [Set<string>], kept in insertion order. *)
Definition set_add (x : jsstring) (s : list jsstring) : list jsstring :=
  if includes s x then s else s ++ [x].

(** [arr.join(sep)] *)
Fixpoint join (sep : jsstring) (l : list jsstring) : jsstring :=
  match l with
  | [] => []
  | [x] => x
  | x :: r => x ++ sep ++ join sep r
  end.

(** [s.split(c)] for a one-character separator. *)
Fixpoint split_on (c : N) (s : jsstring) : list jsstring :=
  match s with
  | [] => [[]]
  | x :: r =>
      if N.eqb x c then [] :: split_on c r
      else match split_on c r with
           | h :: t => (x :: h) :: t
           | [] => [[x]]
           end
  end.

(** The class [\s] of JavaScript regular expressions. *)
Definition is_space (c : N) : bool :=
  let z := Z.of_N c in
  ((9 <=? z) && (z <=? 13)) || (z =? 32) || (z =? 160) || (z =? 5760)
  || ((8192 <=? z) && (z <=? 8202)) || (z =? 8232) || (z =? 8233)
  || (z =? 8239) || (z =? 8287) || (z =? 12288) || (z =? 65279).

Definition is_digit (c : N) : bool :=
  let z := Z.of_N c in (48 <=? z) && (z <=? 57).

Definition is_upper (c : N) : bool :=
  let z := Z.of_N c in (65 <=? z) && (z <=? 90).

Definition is_lower (c : N) : bool :=
  let z := Z.of_N c in (97 <=? z) && (z <=? 122).

(** The class [\w]: ASCII letters, digits and underscore. *)
Definition is_word (c : N) : bool :=
  is_upper c || is_lower c || is_digit c || N.eqb c 95.

(** [s.split(/\s+/)]: every maximal run of white space is one separator. *)
Fixpoint split_ws_from (in_run : bool) (s : jsstring) : list jsstring :=
  match s with
  | [] => [[]]
  | x :: r =>
      if is_space x then
        if in_run then split_ws_from true r else [] :: split_ws_from true r
      else match split_ws_from false r with
           | h :: t => (x :: h) :: t
           | [] => [[x]]
           end
  end.

Definition split_ws (s : jsstring) : list jsstring := split_ws_from false s.

(** [s.replace(/[^...]/g, r)] for a character class given as a predicate:
    every code unit outside the class is replaced by [r]. *)
Definition replace_outside (keep : N -> bool) (r : N) (s : jsstring) : jsstring :=
  map (fun c => if keep c then c else r) s.

(** [s.slice(0, max)] *)
Definition slice0 (max : nat) (s : jsstring) : jsstring := firstn max s.

(** [arr.slice(-k)] *)
Definition last_n {A} (k : nat) (l : list A) : list A :=
  skipn (List.length l - k) l.

(** [String(n)] and template interpolation of an integer. *)
Definition num_str (z : Z) : jsstring :=
  lit (NilZero.string_of_int (Z.to_int z)).

(** The same for a number that may be [NaN] ([None]). *)
Definition num_str_opt (z : option Z) : jsstring :=
  match z with Some n => num_str n | None => lit "NaN" end.

(** [truncate(s, max)], defined identically in [entry-tracker.ts] and
    [self-annotate.ts]. *)
Definition truncate (s : jsstring) (max : nat) : jsstring :=
  if len s >? Z.of_nat max then slice0 max s ++ lit "..." else s.

(** The lower-casing of the ASCII range, an instance of
    [String.prototype.toLowerCase] on ASCII input. *)
Definition ascii_toLowerCase (s : jsstring) : jsstring :=
  map (fun c => if is_upper c then (c + 32)%N else c) s.

(** [parseInt(s, 10)]; [None] is [NaN]. *)
Fixpoint skip_ws (s : jsstring) : jsstring :=
  match s with
  | c :: r => if is_space c then skip_ws r else s
  | [] => []
  end.

Fixpoint parse_digits (acc : Z) (s : jsstring) : Z :=
  match s with
  | c :: r => if is_digit c then parse_digits (10 * acc + (Z.of_N c - 48)) r else acc
  | [] => acc
  end.

Definition parse_unsigned (s : jsstring) : option Z :=
  match s with
  | c :: _ => if is_digit c then Some (parse_digits 0 s) else None
  | [] => None
  end.

Definition parseInt (s : jsstring) : option Z :=
  match skip_ws s with
  | 45%N :: r => option_map Z.opp (parse_unsigned r)
  | 43%N :: r => parse_unsigned r
  | r => parse_unsigned r
  end.

(** A JavaScript object with string-valued properties, in insertion order. *)
Definition jsobj := list (string * jsstring).

Fixpoint get_prop (o : jsobj) (k : string) : option jsstring :=
  match o with
  | [] => None
  | (k', v) :: r => if String.eqb k' k then Some v else get_prop r k
  end.

Fixpoint set_prop (o : jsobj) (k : string) (v : jsstring) : jsobj :=
  match o with
  | [] => [(k, v)]
  | (k', v') :: r =>
      if String.eqb k' k then (k', v) :: r else (k', v') :: set_prop r k v
  end.

(** Stable insertion sort, the model of [ORDER BY]. *)
Fixpoint insert_by {A} (le : A -> A -> bool) (x : A) (l : list A) : list A :=
  match l with
  | [] => [x]
  | y :: r => if le x y then x :: y :: r else y :: insert_by le x r
  end.

Definition sort_by {A} (le : A -> A -> bool) (l : list A) : list A :=
  fold_right (insert_by le) [] l.

(** The total length of the strings of an array. *)
Definition sum_len (l : list jsstring) : Z :=
  fold_right (fun s acc => len s + acc) 0 l.

Definition len_opt (o : option jsstring) : Z :=
  match o with Some s => len s | None => 0 end.

End Js.

Import Js.

(* ================================================================== *)
(** ** The store ([db.ts]) *)

Module Store.

(** The values written to [entries.entry_type]. *)
Inductive EntryType := file_change | research | command | web | summary.

Definition entry_type_str (t : EntryType) : jsstring :=
  match t with
  | file_change => lit "file_change"
  | research => lit "research"
  | command => lit "command"
  | web => lit "web"
  | summary => lit "summary"
  end.

Definition entry_type_eqb (a b : EntryType) : bool :=
  match a, b with
  | file_change, file_change | research, research | command, command
  | web, web | summary, summary => true
  | _, _ => false
  end.

(** The values written to [entries.annotation_status]. *)
Inductive AnnotationStatus := pending | annotating | annotated | failed.

Definition status_eqb (a b : AnnotationStatus) : bool :=
  match a, b with
  | pending, pending | annotating, annotating
  | annotated, annotated | failed, failed => true
  | _, _ => false
  end.

(** The text of a [TEXT] column is kept as the UTF-16 code units of the
    string that was bound.  SQLite stores UTF-8, in which an unpaired
    surrogate becomes U+FFFD: the rows of the model are those of the store
    for well-formed strings ([isWellFormed()]), and the properties that
    state the text a statement writes or reads back assume it. *)

(** A row of [entries].  [tool_calls] and [related_files] hold JSON text in
    the source; the model keeps the value that [JSON.stringify] was given and
    that [JSON.parse] returns. *)
Record EntryRow := mkEntry {
  id : Z;
  prompt_index : Z;
  file_path : option jsstring;
  entry_type : EntryType;
  tool_calls : list jsobj;
  description : option jsstring;
  tags : option jsstring;
  related_files : list jsstring;
  semantic_group : option jsstring;
  confidence : option Q;
  low_relevance : Z;
  annotation_status : AnnotationStatus;
  created_at : Z
}.

(** A row of the standalone FTS5 table [entries_fts]. *)
Record FtsRow := mkFts {
  rowid : Z;
  fts_file_path : jsstring;
  fts_description : jsstring;
  fts_tags : jsstring;
  fts_semantic_group : jsstring
}.

(** A row of [fts_map]. *)
Record FtsMapRow := mkMap { fts_rowid : Z; entry_id : Z }.

(** A row of [entry_links]. *)
Record LinkRow := mkLink {
  link_id : Z;
  source_id : Z;
  target_id : Z;
  link_type : jsstring;
  link_created_at : Z
}.

(** The database: the five tables of [createSchema] and the two
    [AUTOINCREMENT] counters of [sqlite_sequence]. *)
Record Db := mkDb {
  entries : list EntryRow;
  entries_seq : Z;
  entries_fts : list FtsRow;
  fts_map : list FtsMapRow;
  entry_links : list LinkRow;
  entry_links_seq : Z;
  session_state : list (jsstring * jsstring)
}.

(** The database after [createSchema]. *)
Definition empty_db : Db := mkDb [] 0 [] [] [] 0 [].

Definition with_entries (db : Db) (es : list EntryRow) (seq : Z) : Db :=
  mkDb es seq (entries_fts db) (fts_map db) (entry_links db)
       (entry_links_seq db) (session_state db).

Definition with_fts (db : Db) (f : list FtsRow) : Db :=
  mkDb (entries db) (entries_seq db) f (fts_map db) (entry_links db)
       (entry_links_seq db) (session_state db).

Definition with_fts_map (db : Db) (m : list FtsMapRow) : Db :=
  mkDb (entries db) (entries_seq db) (entries_fts db) m (entry_links db)
       (entry_links_seq db) (session_state db).

Definition with_links (db : Db) (l : list LinkRow) (seq : Z) : Db :=
  mkDb (entries db) (entries_seq db) (entries_fts db) (fts_map db) l
       seq (session_state db).

Definition with_state (db : Db) (s : list (jsstring * jsstring)) : Db :=
  mkDb (entries db) (entries_seq db) (entries_fts db) (fts_map db)
       (entry_links db) (entry_links_seq db) s.

(** *** Exceptions and the monad of database computations *)

Inductive exn :=
| SqliteConstraint   (* a key, uniqueness or NOT NULL constraint failed *)
| TypeError          (* a property was read on [null] *)
| SyntaxError        (* [JSON.parse] rejected its input *)
| LlmFailure.        (* [callLlm] rejected: network, authentication, key *)

Inductive result (A : Type) := Ok (a : A) | Throw (e : exn).
Arguments Ok {A} a.
Arguments Throw {A} e.

Definition M (A : Type) : Type := Db -> result A * Db.

Definition ret {A} (a : A) : M A := fun db => (Ok a, db).

Definition throw {A} (e : exn) : M A := fun db => (Throw e, db).

Definition bind {A B} (m : M A) (k : A -> M B) : M B :=
  fun db =>
    match m db with
    | (Ok a, db') => k a db'
    | (Throw e, db') => (Throw e, db')
    end.

(** [try { m } catch (e) { h e }] *)
Definition try_catch {A} (m : M A) (h : exn -> M A) : M A :=
  fun db =>
    match m db with
    | (Ok a, db') => (Ok a, db')
    | (Throw e, db') => h e db'
    end.

(** A read-only query. *)
Definition gets {A} (f : Db -> A) : M A := fun db => (Ok (f db), db).

(** A statement that cannot fail. *)
Definition modify (f : Db -> Db) : M unit := fun db => (Ok tt, f db).

Declare Scope db_scope.
Delimit Scope db_scope with db.
Notation "x <- m ;; k" := (bind m (fun x => k))
  (at level 61, m at next level, right associativity) : db_scope.
Notation "m ;; k" := (bind m (fun _ => k))
  (at level 61, right associativity) : db_scope.
Local Open Scope db_scope.

(** [for (const x of l) { s = body(s, x) }]: a loop over an array that
    updates local variables [s]. *)
Fixpoint foldM {A S} (l : list A) (s : S) (body : S -> A -> M S) : M S :=
  match l with
  | [] => ret s
  | x :: r => s' <- body s x ;; foldM r s' body
  end.

(** [for (const x of l) body(x)] *)
Definition forEach {A} (l : list A) (body : A -> M unit) : M unit :=
  foldM l tt (fun _ x => body x).

(** *** Row identifiers *)

Definition max_of (l : list Z) : Z := fold_right Z.max 0 l.

(** The rowid SQLite gives to a row inserted in a rowid table without
    [AUTOINCREMENT] (here the FTS5 content table): one more than the largest
    rowid in use. *)
Definition next_rowid (f : list FtsRow) : Z := max_of (map rowid f) + 1.

(** The id of an [AUTOINCREMENT] table: one more than the largest id ever
    used. *)
Definition next_auto (seq : Z) (ids : list Z) : Z := Z.max seq (max_of ids) + 1.

(** *** Statements *)

(** [INSERT INTO entries (...) VALUES (...)], returning [lastInsertRowid]. *)
Definition insert_entries (mk : Z -> EntryRow) : M Z :=
  fun db =>
    let i := next_auto (entries_seq db) (map id (entries db)) in
    (Ok i, with_entries db (entries db ++ [mk i]) i).

(** [INSERT INTO entries_fts(file_path, description, tags, semantic_group)],
    returning [lastInsertRowid]. *)
Definition insert_fts (fp d t g : jsstring) : M Z :=
  fun db =>
    let r := next_rowid (entries_fts db) in
    (Ok r, with_fts db (entries_fts db ++ [mkFts r fp d t g])).

(** [INSERT INTO fts_map (fts_rowid, entry_id)]: [fts_rowid] is the primary
    key and [entry_id] is [UNIQUE]. *)
Definition insert_fts_map (r e : Z) : M unit :=
  fun db =>
    if existsb (fun m => (fts_rowid m =? r) || (entry_id m =? e)) (fts_map db)
    then (Throw SqliteConstraint, db)
    else (Ok tt, with_fts_map db (fts_map db ++ [mkMap r e])).

(** [DELETE FROM entries_fts WHERE rowid = ?] *)
Definition delete_fts (r : Z) : M unit :=
  modify (fun db =>
    with_fts db (filter (fun f => negb (rowid f =? r)) (entries_fts db))).

(** [DELETE FROM fts_map WHERE entry_id = ?] *)
Definition delete_fts_map (e : Z) : M unit :=
  modify (fun db =>
    with_fts_map db (filter (fun m => negb (entry_id m =? e)) (fts_map db))).

(** [UPDATE entries SET ... WHERE <cond>] *)
Definition update_entries (cond : EntryRow -> bool) (set : EntryRow -> EntryRow)
  : M unit :=
  modify (fun db =>
    with_entries db
      (map (fun e => if cond e then set e else e) (entries db))
      (entries_seq db)).

Definition set_status (s : AnnotationStatus) (e : EntryRow) : EntryRow :=
  mkEntry (id e) (prompt_index e) (file_path e) (entry_type e) (tool_calls e)
          (description e) (tags e) (related_files e) (semantic_group e)
          (confidence e) (low_relevance e) s (created_at e).

(** The assignment list of the [UPDATE] of [annotateEntry]. *)
Definition set_annotation (d t g : jsstring) (rf : list jsstring) (c : Q)
    (lr : bool) (e : EntryRow) : EntryRow :=
  mkEntry (id e) (prompt_index e) (file_path e) (entry_type e) (tool_calls e)
          (Some d) (Some t) rf (Some g) (Some c) (if lr then 1 else 0)
          annotated (created_at e).

(** *** Session state *)

Definition getState (db : Db) (key : jsstring) : option jsstring :=
  option_map snd (find (fun kv => str_eqb (fst kv) key) (session_state db)).

(** [INSERT OR REPLACE INTO session_state] *)
Definition setState (key value : jsstring) : M unit :=
  modify (fun db =>
    with_state db
      (filter (fun kv => negb (str_eqb (fst kv) key)) (session_state db)
       ++ [(key, value)])).

(** [getPromptIndex]: [v ? parseInt(v, 10) : 0]; [None] is [NaN]. *)
Definition getPromptIndex (db : Db) : option Z :=
  match getState db (lit "prompt_index") with
  | Some v => if truthy v then parseInt v else Some 0
  | None => Some 0
  end.

Definition setPromptIndex (idx : Z) : M unit :=
  setState (lit "prompt_index") (num_str idx).

(** *** Entry CRUD *)

(** [insertEntry].  A [promptIndex] that is [NaN] is bound as [NULL] and
    violates [prompt_index INTEGER NOT NULL]. *)
Definition insertEntry (promptIndex : option Z) (filePath : option jsstring)
    (entryType : EntryType) (toolCalls : list jsobj) (now : Z) : M Z :=
  match promptIndex with
  | None => throw SqliteConstraint
  | Some p =>
      entryId <- insert_entries (fun i =>
        mkEntry i p filePath entryType toolCalls None None [] None None 0
                pending now) ;;
      ftsRowid <- insert_fts (nullish filePath []) [] [] [] ;;
      insert_fts_map ftsRowid entryId ;;
      ret entryId
  end.

(** [SELECT file_path FROM entries WHERE id = ?] followed by
    [entry?.file_path ?? '']. *)
Definition file_path_of (db : Db) (i : Z) : jsstring :=
  match find (fun e => id e =? i) (entries db) with
  | Some e => nullish (file_path e) []
  | None => []
  end.

(** [SELECT fts_rowid FROM fts_map WHERE entry_id = ?] *)
Definition mapping_of (db : Db) (i : Z) : option Z :=
  option_map fts_rowid (find (fun m => entry_id m =? i) (fts_map db)).

Definition annotateEntry (i : Z) (description tags semanticGroup : jsstring)
    (relatedFiles : list jsstring) (confidence : Q) (lowRelevance : bool)
    : M unit :=
  update_entries (fun e => id e =? i)
    (set_annotation description tags semanticGroup relatedFiles confidence
       lowRelevance) ;;
  entry_fp <- gets (fun db => file_path_of db i) ;;
  mapping <- gets (fun db => mapping_of db i) ;;
  match mapping with
  | Some r => delete_fts r ;; delete_fts_map i
  | None => ret tt
  end ;;
  newFtsRowid <- insert_fts entry_fp description tags semanticGroup ;;
  insert_fts_map newFtsRowid i.

Definition insertSummaryEntry (promptIndex : option Z)
    (summary_text tags : jsstring) (now : Z) : M Z :=
  match promptIndex with
  | None => throw SqliteConstraint
  | Some p =>
      entryId <- insert_entries (fun i =>
        mkEntry i p None summary [] (Some summary_text) (Some tags) []
                None None 0 annotated now) ;;
      ftsRowid <- insert_fts [] summary_text tags [] ;;
      insert_fts_map ftsRowid entryId ;;
      ret entryId
  end.

(** [INSERT OR IGNORE INTO entry_links]: a row that repeats
    [(source_id, target_id, link_type)] is skipped.  The id of the
    [AUTOINCREMENT] table is allocated before the [UNIQUE] constraint is
    checked, so the counter advances for a skipped row as well. *)
Definition insertLink (sourceId targetId : Z) (linkType : jsstring) (now : Z)
    : M unit :=
  modify (fun db =>
    let i := next_auto (entry_links_seq db) (map link_id (entry_links db)) in
    if existsb (fun l => (source_id l =? sourceId) && (target_id l =? targetId)
                         && str_eqb (link_type l) linkType) (entry_links db)
    then with_links db (entry_links db) i
    else
      with_links db
        (entry_links db ++ [mkLink i sourceId targetId linkType now]) i).

Definition is_pending_or_annotating (e : EntryRow) : bool :=
  status_eqb (annotation_status e) pending
  || status_eqb (annotation_status e) annotating.

Definition markFailed (promptIndex : Z) : M unit :=
  update_entries
    (fun e => (prompt_index e =? promptIndex) && is_pending_or_annotating e)
    (set_status failed).

(** [getPendingEntries]; no row has [prompt_index = NaN]. *)
Definition getPendingEntries (db : Db) (promptIndex : option Z) : list EntryRow :=
  match promptIndex with
  | Some p =>
      filter (fun e => (prompt_index e =? p) && is_pending_or_annotating e)
             (entries db)
  | None => []
  end.

Definition by_prompt_desc (a b : EntryRow) : bool :=
  prompt_index b <=? prompt_index a.

Definition getFailedEntries (db : Db) (limit : nat) : list EntryRow :=
  firstn limit
    (sort_by by_prompt_desc
       (filter (fun e => status_eqb (annotation_status e) failed) (entries db))).

Definition getHistoricalEntries (db : Db) (beforePrompt : Z) (limit : nat)
    : list EntryRow :=
  firstn limit
    (sort_by by_prompt_desc
       (filter (fun e => status_eqb (annotation_status e) annotated
                         && (prompt_index e <? beforePrompt)) (entries db))).

Definition markAnnotating (ids : list Z) : M unit :=
  match ids with
  | [] => ret tt
  | _ => update_entries (fun e => existsb (Z.eqb (id e)) ids)
                        (set_status annotating)
  end.

(** [sanitizeId]: [id.replace(/[^a-zA-Z0-9_-]/g, '_')].  The same expression
    names the buffer file in [on-tool.ts] and [on-stop.ts]. *)
Definition id_char_kept (c : N) : bool :=
  is_lower c || is_upper c || is_digit c || N.eqb c 95 || N.eqb c 45.



End Store.

(* ================================================================== *)
(** ** Constants ([config.ts]) *)

Module Config.

Definition TOKEN_BUDGET : Z := 4000.
Definition CHARS_PER_TOKEN : Z := 4.
Definition FTS_RESULT_LIMIT : nat := 50.
Definition GROUP_EXPANSION_LIMIT : nat := 3.
Definition FTS_MAX_TERMS : nat := 16.
Definition MAX_HISTORICAL_ENTRIES : nat := 30.

Definition IGNORED_TOOLS : list jsstring :=
  map lit ["EnterPlanMode"; "ExitPlanMode"; "AskUserQuestion";
           "TodoRead"; "TodoWrite"; "TaskCreate"; "TaskUpdate";
           "TaskList"; "TaskGet"]%string.

Definition FILE_TOOLS : list jsstring :=
  map lit ["Read"; "Write"; "Edit"; "Glob"; "Grep"; "NotebookEdit"]%string.

Definition WRITE_TOOLS : list jsstring :=
  map lit ["Write"; "Edit"; "NotebookEdit"]%string.

(** Which input field identifies the key for each tool. *)
Definition TOOL_KEY_FIELDS : list (jsstring * string) :=
  [ (lit "Read", "file_path"); (lit "Write", "file_path");
    (lit "Edit", "file_path"); (lit "NotebookEdit", "notebook_path");
    (lit "Glob", "pattern"); (lit "Grep", "pattern");
    (lit "Bash", "command"); (lit "WebSearch", "query");
    (lit "WebFetch", "url"); (lit "Task", "prompt") ]%string.

Definition key_field (tool : jsstring) : option string :=
  option_map snd (find (fun kv => str_eqb (fst kv) tool) TOOL_KEY_FIELDS).

Definition STOPWORDS : list jsstring :=
  map lit [
    "the"; "a"; "an"; "is"; "are"; "was"; "were"; "be"; "been";
    "being"; "have"; "has"; "had"; "do"; "does"; "did"; "will";
    "would"; "could"; "should"; "may"; "might"; "can"; "shall";
    "to"; "of"; "in"; "for"; "on"; "with"; "at"; "by"; "from";
    "this"; "that"; "these"; "those"; "it"; "its"; "and"; "or";
    "but"; "not"; "no"; "if"; "then"; "else"; "when"; "where";
    "how"; "what"; "which"; "who"; "whom"; "why"; "all"; "each";
    "any"; "some"; "such"; "than"; "too"; "very"; "just"; "about";
    "into"; "through"; "during"; "before"; "after"; "above"; "below";
    "between"; "out"; "off"; "over"; "under"; "again"; "further";
    "once"; "here"; "there"; "also"; "both"; "few"; "more"; "most";
    "other"; "only"; "own"; "same"; "so"; "up"; "down"; "now";
    "file"; "code"; "use"; "using"; "used"; "make"; "like";
    "need"; "want"; "get"; "set"; "add"; "new"; "please" ]%string.

End Config.

(* ================================================================== *)
(** ** The grouper ([entry-tracker.ts]) *)

Module EntryTracker.
Import Store Config.
Local Open Scope db_scope.

Record BufferedCall := mkCall {
  tool_name : jsstring;
  tool_input : jsobj;
  ts : Z
}.

Definition classifyTool (name : jsstring) : EntryType :=
  if str_eqb name (lit "Bash") then command
  else if str_eqb name (lit "WebSearch") || str_eqb name (lit "WebFetch") then web
  else if str_eqb name (lit "Task") then research
  else research.

Definition set_if_truthy (input : jsobj) (k : string) (max : option nat)
    (summary : jsobj) : jsobj :=
  match get_prop input k with
  | Some v =>
      if truthy v
      then set_prop summary k (match max with Some n => truncate v n | None => v end)
      else summary
  | None => summary
  end.

Definition summarizeCall (call : BufferedCall) : jsobj :=
  let summary := [("tool"%string, tool_name call)] in
  let summary :=
    match key_field (tool_name call) with
    | Some keyField =>
        match get_prop (tool_input call) keyField with
        | Some v => set_prop summary keyField (truncate v 300)
        | None => summary
        end
    | None => summary
    end in
  if str_eqb (tool_name call) (lit "Edit") then
    set_if_truthy (tool_input call) "new_string" (Some 200%nat)
      (set_if_truthy (tool_input call) "old_string" (Some 200%nat) summary)
  else if str_eqb (tool_name call) (lit "Grep") then
    set_if_truthy (tool_input call) "path" None
      (set_if_truthy (tool_input call) "glob" None summary)
  else if str_eqb (tool_name call) (lit "Bash") then
    set_if_truthy (tool_input call) "description" (Some 200%nat) summary
  else if str_eqb (tool_name call) (lit "Task") then
    set_if_truthy (tool_input call) "description" (Some 200%nat) summary
  else summary.

(** The key of a file tool call:
    [tool_input.file_path ?? tool_input.notebook_path ?? '_unknown']. *)
Definition file_key (call : BufferedCall) : jsstring :=
  match get_prop (tool_input call) "file_path" with
  | Some v => v
  | None =>
      match get_prop (tool_input call) "notebook_path" with
      | Some v => v
      | None => lit "_unknown"
      end
  end.

(** [fileGroups], a [Map<string, BufferedCall[]>] in insertion order:
    [group = get(fp) ?? []; group.push(call); set(fp, group)]. *)
Fixpoint group_push (groups : list (jsstring * list BufferedCall))
    (fp : jsstring) (call : BufferedCall) : list (jsstring * list BufferedCall) :=
  match groups with
  | [] => [(fp, [call])]
  | (k, g) :: r =>
      if str_eqb k fp then (k, g ++ [call]) :: r
      else (k, g) :: group_push r fp call
  end.

(** The first loop of [flushToEntries]. *)
Definition classify_step
    (st : list (jsstring * list BufferedCall) * list BufferedCall)
    (call : BufferedCall) :=
  let (fileGroups, standalone) := st in
  if includes IGNORED_TOOLS (tool_name call) then st
  else if includes FILE_TOOLS (tool_name call)
       then (group_push fileGroups (file_key call) call, standalone)
       else (fileGroups, standalone ++ [call]).

Definition classify_calls (calls : list BufferedCall) :=
  fold_left classify_step calls ([], []).

Definition flushToEntries (promptIndex : option Z) (calls : list BufferedCall)
    (now : Z) : M (list Z) :=
  let (fileGroups, standalone) := classify_calls calls in
  ids <- foldM fileGroups [] (fun ids kg =>
    let (filePath, group) := kg in
    let hasWrite := existsb (fun c => includes WRITE_TOOLS (tool_name c)) group in
    let entryType := if hasWrite then file_change else research in
    let summarized := map summarizeCall group in
    i <- insertEntry promptIndex (Some filePath) entryType summarized now ;;
    ret (ids ++ [i])) ;;
  foldM standalone ids (fun ids call =>
    let entryType := classifyTool (tool_name call) in
    let filePath :=
      match key_field (tool_name call) with
      | Some keyField =>
          Some (truncate (nullish (get_prop (tool_input call) keyField) []) 500)
      | None => None
      end in
    i <- insertEntry promptIndex filePath entryType [summarizeCall call] now ;;
    ret (ids ++ [i])).

End EntryTracker.

(* ================================================================== *)
(** ** The rule-based annotator ([self-annotate.ts]) *)

Module SelfAnnotate.
Import Store.
Local Open Scope db_scope.

Definition KEYWORD_STOPS : list jsstring :=
  map lit [
    "the"; "a"; "an"; "is"; "are"; "was"; "were"; "be"; "been";
    "to"; "of"; "in"; "for"; "on"; "with"; "at"; "by"; "from";
    "and"; "or"; "but"; "not"; "this"; "that"; "it"; "its";
    "run"; "running"; "use"; "using"; "all" ]%string.

(** [p.split('/').filter(Boolean)] *)
Definition path_parts (p : jsstring) : list jsstring :=
  filter truthy (split_on 47%N p).

Definition shortenPath (p : jsstring) : jsstring :=
  let parts := path_parts p in
  if (List.length parts <=? 3)%nat then p
  else lit ".../" ++ join (lit "/") (last_n 3 parts).

(** [c.tool === name] *)
Definition tool_is (name : string) (c : jsobj) : bool :=
  match get_prop c "tool" with
  | Some t => str_eqb t (lit name)
  | None => false
  end.

(** [calls.map(c => c.tool).includes(name)] *)
Definition tools_include (calls : list jsobj) (name : string) : bool :=
  existsb (tool_is name) calls.

(** [calls.find(c => c[k])?.[k]] *)
Definition find_prop (calls : list jsobj) (k : string) : option jsstring :=
  match find (fun c => truthy_opt (get_prop c k)) calls with
  | Some c => get_prop c k
  | None => None
  end.

(** [calls[0]?.[k]] *)
Definition first_prop (calls : list jsobj) (k : string) : option jsstring :=
  match calls with
  | c :: _ => get_prop c k
  | [] => None
  end.

(** [a || b] on strings. *)
Definition or_else (a b : jsstring) : jsstring := if truthy a then a else b.

(** [fp ? shortenPath(fp) : ''] *)
Definition short_path (entry : EntryRow) : jsstring :=
  match file_path entry with
  | Some p => if truthy p then shortenPath p else []
  | None => []
  end.

Definition buildDescription (entry : EntryRow) (calls : list jsobj) : jsstring :=
  let shortPath := short_path entry in
  match entry_type entry with
  | file_change =>
      if tools_include calls "Write" && negb (tools_include calls "Edit") then
        lit "Created " ++ shortPath
      else if tools_include calls "Edit" then
        let editCalls := filter (tool_is "Edit") calls in
        lit "Modified " ++ shortPath ++ lit " ("
          ++ num_str (Z.of_nat (List.length editCalls)) ++ lit " edit"
          ++ (if (1 <? List.length editCalls)%nat then lit "s" else []) ++ lit ")"
      else lit "Changed " ++ shortPath
  | research =>
      if tools_include calls "Glob" || tools_include calls "Grep" then
        match find_prop calls "pattern" with
        | Some pattern =>
            if truthy pattern
            then lit "Searched for " ++ dquote ++ truncate pattern 60 ++ dquote
            else lit "Explored " ++ or_else shortPath (lit "codebase")
        | None => lit "Explored " ++ or_else shortPath (lit "codebase")
        end
      else if tools_include calls "Read" then lit "Read " ++ shortPath
      else if tools_include calls "Task" then
        match find_prop calls "description" with
        | Some desc =>
            if truthy desc then lit "Subagent: " ++ truncate desc 80
            else lit "Ran subagent task"
        | None => lit "Ran subagent task"
        end
      else lit "Researched " ++ or_else shortPath (lit "codebase")
  | command =>
      if truthy_opt (first_prop calls "description") then
        lit "Ran: " ++ truncate (nullish (first_prop calls "description") []) 80
      else if truthy_opt (first_prop calls "command") then
        lit "Ran: " ++ truncate (nullish (first_prop calls "command") []) 80
      else lit "Ran shell command"
  | web =>
      if truthy_opt (first_prop calls "query") then
        lit "Web search: " ++ truncate (nullish (first_prop calls "query") []) 80
      else if truthy_opt (first_prop calls "url") then
        lit "Fetched: " ++ truncate (nullish (first_prop calls "url") []) 80
      else lit "Web activity"
  | summary =>
      entry_type_str (entry_type entry) ++ lit " on "
        ++ or_else shortPath (lit "unknown")
  end.

Definition buildGroup (entry : EntryRow) : jsstring :=
  if negb (truthy_opt (file_path entry)) then entry_type_str (entry_type entry)
  else
    let parts := path_parts (nullish (file_path entry) []) in
    if (2 <=? List.length parts)%nat then nth (List.length parts - 2) parts []
    else match parts with
         | p :: _ => p
         | [] => entry_type_str (entry_type entry)
         end.

Definition isLowRelevance (entry : EntryRow) (calls : list jsobj) : bool :=
  if entry_type_eqb (entry_type entry) research && (List.length calls =? 1)%nat then
    if tool_is "Glob" (nth 0 calls []) || tool_is "Grep" (nth 0 calls [])
    then false
    else false
  else false.

Section WithLowerCase.

(** [String.prototype.toLowerCase], the case mapping of the host. *)
Variable toLowerCase : jsstring -> jsstring.

Definition extractKeywords (text : jsstring) : list jsstring :=
  filter (fun w => (2 <? len w) && negb (includes KEYWORD_STOPS w))
    (split_ws
       (replace_outside (fun c => is_word c || is_space c || N.eqb c 45) 32%N
          (toLowerCase text))).

Definition buildTags (entry : EntryRow) (calls : list jsobj)
    (userPrompt : jsstring) : jsstring :=
  let tags : list jsstring := [] in
  let tags :=
    if truthy_opt (file_path entry) then
      let parts := path_parts (nullish (file_path entry) []) in
      let filename := last parts [] in
      let tags := if truthy filename then set_add filename tags else tags in
      let ext := last (split_on 46%N filename) [] in
      let tags :=
        if truthy filename && truthy ext && negb (str_eqb ext filename)
        then set_add ext tags else tags in
      if (2 <=? List.length parts)%nat
      then set_add (nth (List.length parts - 2) parts []) tags
      else tags
    else tags in
  let tags := set_add (entry_type_str (entry_type entry)) tags in
  let tags :=
    fold_left (fun tags call =>
      match get_prop call "tool" with
      | Some t => if truthy t then set_add (toLowerCase t) tags else tags
      | None => tags
      end) calls tags in
  let tags :=
    fold_left (fun tags call =>
      match get_prop call "description" with
      | Some d =>
          if truthy d
          then fold_left (fun tags k => set_add k tags) (extractKeywords d) tags
          else tags
      | None => tags
      end) calls tags in
  let tags :=
    fold_left (fun tags k => set_add k tags)
      (firstn 5 (extractKeywords userPrompt)) tags in
  join (lit ",") tags.

(** The text of the summary entry of a turn. *)
Definition summary_of (summaryParts : list jsstring) : jsstring :=
  match summaryParts with
  | [d] => d
  | _ =>
      num_str (Z.of_nat (List.length summaryParts)) ++ lit " activities: "
        ++ join (lit "; ") (firstn 3 summaryParts)
        ++ (if (3 <? List.length summaryParts)%nat then lit "..." else [])
  end.

Definition selfAnnotatePrompt (promptIndex : option Z) (now : Z) : M unit :=
  entries <- gets (fun db => getPendingEntries db promptIndex) ;;
  match entries with
  | [] => ret tt
  | _ =>
      userPrompt <- gets (fun db =>
        nullish (getState db (lit "prompt_" ++ num_str_opt promptIndex)) []) ;;
      summaryParts <- foldM entries [] (fun summaryParts entry =>
        let calls := tool_calls entry in
        let description := buildDescription entry calls in
        let tags := buildTags entry calls userPrompt in
        let group := buildGroup entry in
        annotateEntry (id entry) description tags group [] (3 # 10)
                      (isLowRelevance entry calls) ;;
        ret (summaryParts ++ [description])) ;;
      let summary := summary_of summaryParts in
      let allTags :=
        join (lit ",")
          (map (fun e => buildTags e (tool_calls e) userPrompt) entries) in
      let uniqueTags :=
        join (lit ",")
          (fold_left (fun s t => set_add t s)
             (filter truthy (split_on 44%N allTags)) []) in
      insertSummaryEntry promptIndex summary uniqueTags now ;;
      ret tt
  end.

End WithLowerCase.

End SelfAnnotate.

(* ================================================================== *)
(** ** The LLM annotator ([annotate.ts]) *)

Module Annotate.
Import Store.
Local Open Scope db_scope.

(** An element of [annotations] in the response. *)
Record Annotation := mkAnn {
  ann_entry_id : Z;
  ann_description : jsstring;
  ann_tags : jsstring;
  ann_related_files : option (list jsstring);
  ann_low_relevance : option bool;
  ann_confidence : option Q;
  ann_semantic_group : option jsstring
}.

(** An element of [links] in the response. *)
Record Link := mkLinkSpec {
  source_entry_id : Z;
  target_entry_id : Z;
  link_type_of : jsstring
}.

Record PromptSummary := mkSummary {
  summary_text : jsstring;
  summary_tags : jsstring
}.

(** [AnnotationResult], the value of [JSON.parse].  The cast of the source is
    unchecked: an element of an array can be [null], represented by [None],
    and reading a property of it raises [TypeError]. *)
Record AnnotationResult := mkResult {
  annotations : option (list (option Annotation));
  links : option (list (option Link));
  prompt_summary : option PromptSummary
}.

(** What the provider call and the parse of its text come to.  The request
    ([buildUserMessage] over the prompt, the entries and the historical
    entries) only feeds the provider and is not modelled. *)
Inductive LlmOutcome :=
| CallRejected                       (* [await callLlm(...)] throws *)
| ParseFailed                        (* [JSON.parse(jsonStr)] throws *)
| Parsed (r : AnnotationResult).

(** [annotatedIds.add(i)] on a [Set<number>]. *)
Definition id_add (i : Z) (s : list Z) : list Z :=
  if existsb (Z.eqb i) s then s else s ++ [i].

(** [ann.semantic_group ?? ''], [ann.related_files ?? []],
    [ann.confidence ?? 0.5] and [ann.low_relevance ?? false]. *)
Definition ann_group (a : Annotation) : jsstring :=
  nullish (ann_semantic_group a) [].

Definition ann_files (a : Annotation) : list jsstring :=
  match ann_related_files a with Some l => l | None => [] end.

Definition ann_conf (a : Annotation) : Q :=
  match ann_confidence a with Some c => c | None => 1 # 2 end.

Definition ann_low (a : Annotation) : bool :=
  match ann_low_relevance a with Some b => b | None => false end.

(** [for (const ann of result.annotations ?? [])] *)
Definition applyAnnotations (anns : list (option Annotation)) : M (list Z) :=
  foldM anns [] (fun annotatedIds ann =>
    match ann with
    | None => throw TypeError
    | Some a =>
        annotateEntry (ann_entry_id a) (ann_description a) (ann_tags a)
          (ann_group a) (ann_files a) (ann_conf a) (ann_low a) ;;
        ret (id_add (ann_entry_id a) annotatedIds)
    end).

(** [for (const link of result.links ?? [])] *)
Definition applyLinks (ls : list (option Link)) (now : Z) : M unit :=
  forEach ls (fun l =>
    match l with
    | None => throw TypeError
    | Some l =>
        insertLink (source_entry_id l) (target_entry_id l) (link_type_of l) now
    end).

(** [if (result.prompt_summary) insertSummaryEntry(...)] *)
Definition applySummary (promptIndex : Z) (ps : option PromptSummary) (now : Z)
    : M unit :=
  match ps with
  | Some s =>
      insertSummaryEntry (Some promptIndex) (summary_text s) (summary_tags s) now ;;
      ret tt
  | None => ret tt
  end.

(** The last loop of the [try] block. *)
Definition failUnannotated (allEntries : list EntryRow) (annotatedIds : list Z)
    : M unit :=
  forEach allEntries (fun entry =>
    if existsb (Z.eqb (id entry)) annotatedIds then ret tt
    else update_entries (fun e => id e =? id entry) (set_status failed)).

Definition opt_list {A} (o : option (list A)) : list A :=
  match o with Some l => l | None => [] end.

(** The application of a parsed response: the annotation loop, the link
    loop and the insertion of the prompt summary. *)
Definition apply_response (promptIndex : Z) (result : AnnotationResult)
    (now : Z) : M (list Z) :=
  annotatedIds <- applyAnnotations (opt_list (annotations result)) ;;
  applyLinks (opt_list (links result)) now ;;
  applySummary promptIndex (prompt_summary result) now ;;
  ret annotatedIds.

(** The body of the [try] block. *)
Definition annotate_try (promptIndex : Z) (outcome : LlmOutcome)
    (allEntries : list EntryRow) (now : Z) : M unit :=
  match outcome with
  | CallRejected => throw LlmFailure
  | ParseFailed => throw SyntaxError
  | Parsed result =>
      annotatedIds <- apply_response promptIndex result now ;;
      failUnannotated allEntries annotatedIds
  end.

(** The entries an [annotatePrompt] run works on: [[...pending, ...retries]]. *)
Definition input_set (db : Db) (promptIndex : Z) : list EntryRow :=
  getPendingEntries db (Some promptIndex) ++ getFailedEntries db 10.

Definition annotatePrompt (promptIndex : Z) (outcome : LlmOutcome) (now : Z)
    : M unit :=
  allEntries <- gets (fun db => input_set db promptIndex) ;;
  match allEntries with
  | [] => ret tt
  | _ =>
      markAnnotating (map id allEntries) ;;
      try_catch (annotate_try promptIndex outcome allEntries now)
                (fun _ => markFailed promptIndex)
  end.

(** What the [try] block of a run comes to: it is entered after
    [markAnnotating], when the input set is not empty. *)
Definition try_result (promptIndex : Z) (outcome : LlmOutcome) (now : Z)
    (db : Db) : result unit :=
  fst (annotate_try promptIndex outcome (input_set db promptIndex) now
         (snd (markAnnotating (map id (input_set db promptIndex)) db))).

(** The run raised an exception in the provider call, the parse or the
    application of the result. *)
Definition raised (promptIndex : Z) (outcome : LlmOutcome) (now : Z) (db : Db)
    : bool :=
  match input_set db promptIndex, try_result promptIndex outcome now db with
  | _ :: _, Throw _ => true
  | _, _ => false
  end.

(** The annotation loop and the link loop of a response, without the
    summary. *)
Definition apply_annotations_links (result : AnnotationResult) (now : Z)
    : M (list Z) :=
  annotatedIds <- applyAnnotations (opt_list (annotations result)) ;;
  applyLinks (opt_list (links result)) now ;;
  ret annotatedIds.

End Annotate.

(* ================================================================== *)
(** ** The retriever ([retrieve.ts]) *)

Module Retrieve.
Import Store Config.

Record FtsEntry := mkFtsEntry {
  fe_id : Z;
  fe_prompt_index : Z;
  fe_file_path : option jsstring;
  fe_entry_type : EntryType;
  fe_description : option jsstring;
  fe_semantic_group : option jsstring;
  fe_rank : Q
}.

(** The columns selected from an [entries] row. *)
Definition of_row (rank : Q) (e : EntryRow) : FtsEntry :=
  mkFtsEntry (id e) (prompt_index e) (file_path e) (entry_type e)
             (description e) (semantic_group e) rank.

(** The [WHERE] conditions on [entries] shared by both queries. *)
Definition retrievable (currentPrompt : Z) (e : EntryRow) : bool :=
  (low_relevance e =? 0)
  && status_eqb (annotation_status e) annotated
  && (prompt_index e <? currentPrompt).

Definition getPreviousSummary (db : Db) (promptIndex : Z) : option jsstring :=
  match find (fun e => (prompt_index e =? promptIndex - 1)
                       && entry_type_eqb (entry_type e) summary) (entries db) with
  | Some row => description row
  | None => None
  end.

(** The separator of [formatEntry] as it stands in the source text: the code
    units U+00E2, U+20AC, U+201D. *)
Definition dash : jsstring := [226%N; 8364%N; 8221%N].

Definition formatEntry (e : FtsEntry) : jsstring :=
  let loc :=
    match fe_file_path e with
    | Some p => p
    | None => entry_type_str (fe_entry_type e)
    end in
  let group :=
    match fe_semantic_group e with
    | Some g => if truthy g then lit " (" ++ g ++ lit ")" else []
    | None => []
    end in
  lit "[Prompt " ++ num_str (fe_prompt_index e) ++ lit "]: " ++ loc ++ group
    ++ lit " " ++ dash ++ lit " " ++ nullish (fe_description e) (lit "null").

Definition wrapContext (sections : list jsstring) : jsstring :=
  lit "<distilled_session_context>" ++ [10%N] ++ join [10%N; 10%N] sections
    ++ [10%N] ++ lit "</distilled_session_context>".

Definition expandGroups (db : Db) (groups : list jsstring) (excludeIds : list Z)
    (currentPrompt : Z) : list FtsEntry :=
  flat_map (fun group =>
    map (of_row 0)
      (firstn GROUP_EXPANSION_LIMIT
         (sort_by by_prompt_desc
            (filter (fun e =>
               match semantic_group e with
               | Some g => str_eqb g group
               | None => false
               end
               && retrievable currentPrompt e
               && negb (existsb (Z.eqb (id e)) excludeIds))
               (entries db)))))
    groups.

(** The local variables of the two selection loops. *)
Record Sel := mkSel {
  contextLines : list jsstring;
  usedChars : Z;
  selectedIds : list Z;
  seenGroups : list jsstring
}.

Definition id_add (i : Z) (s : list Z) : list Z :=
  if existsb (Z.eqb i) s then s else s ++ [i].

(** [for (const entry of results)] *)
Fixpoint select_results (charBudget : Z) (results : list FtsEntry) (st : Sel)
    : Sel :=
  match results with
  | [] => st
  | entry :: rest =>
      if negb (truthy_opt (fe_description entry)) then
        select_results charBudget rest st
      else
        let line := formatEntry entry in
        if usedChars st + len line >? charBudget then st
        else
          select_results charBudget rest
            (mkSel (contextLines st ++ [line]) (usedChars st + len line)
                   (id_add (fe_id entry) (selectedIds st))
                   (if truthy_opt (fe_semantic_group entry)
                    then set_add (nullish (fe_semantic_group entry) [])
                                 (seenGroups st)
                    else seenGroups st))
  end.

(** [for (const entry of groupEntries)] *)
Fixpoint select_expanded (charBudget : Z) (groupEntries : list FtsEntry)
    (st : Sel) : Sel :=
  match groupEntries with
  | [] => st
  | entry :: rest =>
      if negb (truthy_opt (fe_description entry)) then
        select_expanded charBudget rest st
      else
        let line := formatEntry entry in
        if usedChars st + len line >? charBudget then st
        else
          select_expanded charBudget rest
            (mkSel (contextLines st ++ [line]) (usedChars st + len line)
                   (id_add (fe_id entry) (selectedIds st)) (seenGroups st))
  end.

Definition last_activity (prevSummary : jsstring) : jsstring :=
  lit "<last_activity>" ++ [10%N] ++ prevSummary ++ [10%N]
    ++ lit "</last_activity>".

Definition relevant_context (contextLines : list jsstring) : jsstring :=
  lit "<relevant_context>" ++ [10%N] ++ join [10%N] contextLines ++ [10%N]
    ++ lit "</relevant_context>".

(** The end of [retrieveContext]: the sections that are present, wrapped. *)
Definition assemble (block : option jsstring) (lines : list jsstring)
    : option jsstring :=
  match block, lines with
  | None, [] => None
  | Some b, [] => Some (wrapContext [b])
  | None, _ => Some (wrapContext [relevant_context lines])
  | Some b, _ => Some (wrapContext [b; relevant_context lines])
  end.

(** The characters of the returned string that [usedChars] does not count:
    the outer tags and their two newlines (57), and, when there are [n > 0]
    lines, the tags of [<relevant_context>] with their two newlines (39), the
    [n - 1] newlines between lines and the two newlines between the sections
    when a [<last_activity>] block precedes. *)
Definition wrapper_overhead (has_block : bool) (nlines : nat) : Z :=
  57 + match nlines with
       | O => 0
       | S k => 39 + Z.of_nat k + (if has_block then 2 else 0)
       end.

Section WithFts.

Variable toLowerCase : jsstring -> jsstring.

(** [entries_fts MATCH query] on one document, and the [rank] (BM25) of a
    matching document in the index: both are computed by SQLite's FTS5. *)
Variable fts_match : jsstring -> FtsRow -> bool.
Variable fts_rank : list FtsRow -> jsstring -> FtsRow -> Q.

Definition query_tokens (prompt : jsstring) : list jsstring :=
  firstn FTS_MAX_TERMS
    (filter (fun t => (2 <? len t) && negb (includes STOPWORDS t))
       (split_ws
          (replace_outside
             (fun c => is_word c || is_space c || N.eqb c 47 || N.eqb c 46
                       || N.eqb c 45) 32%N
             (toLowerCase prompt)))).

Definition buildFtsQuery (prompt : jsstring) : option jsstring :=
  match query_tokens prompt with
  | [] => None
  | tokens =>
      Some (join (lit " OR ") (map (fun t => dquote ++ t ++ dquote) tokens))
  end.

Definition searchFts (db : Db) (query : jsstring) (currentPrompt : Z)
    (limit : nat) : list FtsEntry :=
  firstn limit
    (sort_by (fun a b => Qle_bool (fe_rank a) (fe_rank b))
       (flat_map (fun fts =>
          if fts_match query fts then
            flat_map (fun fm =>
              if fts_rowid fm =? rowid fts then
                map (of_row (fts_rank (entries_fts db) query fts))
                  (filter (fun ce => (id ce =? entry_id fm)
                                     && retrievable currentPrompt ce)
                          (entries db))
              else [])
              (fts_map db)
          else [])
          (entries_fts db))).

(** Steps 2 and 3 of [retrieveContext]: the state of the local variables
    after both loops, [usedChars] starting at [used0]. *)
Definition select_context (db : Db) (ftsQuery : jsstring)
    (currentPromptIndex charBudget used0 : Z) : Sel :=
  let results := searchFts db ftsQuery currentPromptIndex FTS_RESULT_LIMIT in
  let st := select_results charBudget results (mkSel [] used0 [] []) in
  match seenGroups st with
  | _ :: _ =>
      if usedChars st <? charBudget then
        select_expanded charBudget
          (expandGroups db (seenGroups st) (selectedIds st) currentPromptIndex)
          st
      else st
  | [] => st
  end.

Definition retrieveContext (db : Db) (userPrompt : jsstring)
    (currentPromptIndex : Z) (tokenBudget : Z) : option jsstring :=
  let charBudget := tokenBudget * CHARS_PER_TOKEN in
  let prevSummary := getPreviousSummary db currentPromptIndex in
  let sections :=
    if truthy_opt prevSummary then [last_activity (nullish prevSummary [])]
    else [] in
  let usedChars0 :=
    if truthy_opt prevSummary then len (last_activity (nullish prevSummary []))
    else 0 in
  match buildFtsQuery userPrompt with
  | None =>
      match sections with
      | [] => None
      | _ => Some (wrapContext sections)
      end
  | Some ftsQuery =>
      match searchFts db ftsQuery currentPromptIndex FTS_RESULT_LIMIT, sections with
      | [], [] => None
      | _, _ =>
          let st := select_context db ftsQuery currentPromptIndex charBudget
                                   usedChars0 in
          let sections :=
            match contextLines st with
            | [] => sections
            | lines => sections ++ [relevant_context lines]
            end in
          match sections with
          | [] => None
          | _ => Some (wrapContext sections)
          end
      end
  end.

(** The [<last_activity>] block of a call, if it has one. *)
Definition continuity_block (db : Db) (currentPromptIndex : Z) : option jsstring :=
  let prevSummary := getPreviousSummary db currentPromptIndex in
  if truthy_opt prevSummary then Some (last_activity (nullish prevSummary []))
  else None.

(** The lines a call puts in [<relevant_context>]: [contextLines] after
    both loops. *)
Definition selected_lines (db : Db) (userPrompt : jsstring)
    (currentPromptIndex tokenBudget : Z) : list jsstring :=
  match buildFtsQuery userPrompt with
  | Some ftsQuery =>
      contextLines
        (select_context db ftsQuery currentPromptIndex
           (tokenBudget * CHARS_PER_TOKEN)
           (match continuity_block db currentPromptIndex with
            | Some b => len b
            | None => 0
            end))
  | None => []
  end.

End WithFts.

End Retrieve.

(* ================================================================== *)
(** ** The Stop hook ([hooks/on-stop.ts]) *)

Module Hooks.
Import Store EntryTracker.
Local Open Scope db_scope.

(** [config.annotator] *)
Inductive Annotator := self | haiku.

Section WithLowerCase.

Variable toLowerCase : jsstring -> jsstring.

(** [onStop] from the point where the buffer has been read, cleared and
    parsed into [calls].  The result tells whether the detached
    [annotate <session_id> <promptIndex>] process is spawned, and for which
    prompt index. *)
Definition onStop (annotator : Annotator) (calls : list BufferedCall) (now : Z)
    : M (option (option Z)) :=
  match calls with
  | [] => ret None
  | _ =>
      promptIndex <- gets getPromptIndex ;;
      flushToEntries promptIndex calls now ;;
      SelfAnnotate.selfAnnotatePrompt toLowerCase promptIndex now ;;
      match annotator with
      | haiku => ret (Some promptIndex)
      | self => ret None
      end
  end.

End WithLowerCase.

End Hooks.

(* ================================================================== *)
(** ** The wording of the specification *)

Module SpecWording.
Import Store.



(** "The group's calls are only write-tool calls (write, edit,
    notebook-edit)". *)
Definition only_write_calls (calls : list jsobj) : bool :=
  forallb (fun c =>
    match get_prop c "tool" with
    | Some t => includes Config.WRITE_TOOLS t
    | None => false
    end) calls.

End SpecWording.

(* ================================================================== *)
(** ** Predicates on the database *)

Module Inv.
Import Store Retrieve.

(** The conditions of retrieval safety on a row of [entries]. *)
Definition safe_row (C : Z) (e : EntryRow) : Prop :=
  prompt_index e < C /\ annotation_status e = annotated /\ low_relevance e = 0.

(** A result row that was selected from a safe row of [entries]. *)
Definition from_safe_row (db : Db) (C : Z) (fe : FtsEntry) : Prop :=
  exists row rank, In row (entries db) /\ safe_row C row /\ fe = of_row rank row.

(** A context line that formats a safe row. *)
Definition safe_line (db : Db) (C : Z) (line : jsstring) : Prop :=
  exists row rank,
    In row (entries db) /\ safe_row C row /\ line = formatEntry (of_row rank row).

(** The invariant of the two selection loops: [usedChars] is its initial
    value plus the length of the lines, and does not exceed the budget once
    a line has been added. *)
Definition within_budget (B used0 : Z) (st : Sel) : Prop :=
  usedChars st = used0 + sum_len (contextLines st)
  /\ (contextLines st <> [] -> usedChars st <= B).

(** No entry of prompt [p] is waiting for annotation. *)
Definition closed_at (p : Z) (db : Db) : Prop :=
  Forall (fun e => prompt_index e = p -> is_pending_or_annotating e = false)
         (entries db).


(** The number of summary entries of prompt [p]. *)
Definition count_summaries (p : Z) (db : Db) : nat :=
  List.length
    (filter (fun k => entry_type_eqb (snd k) summary && (fst k =? p))
            (map (fun e => (prompt_index e, entry_type e)) (entries db))).

Fixpoint nodup_ids (l : list Z) : bool :=
  match l with
  | [] => true
  | x :: r => negb (existsb (Z.eqb x) r) && nodup_ids r
  end.

(** The constraints of the schema on [fts_map], and no [fts_map] row
    without its document: [fts_rowid] is the key of [fts_map] and [entry_id]
    is unique. *)
Definition schema_ok (db : Db) : bool :=
  nodup_ids (map fts_rowid (fts_map db))
  && nodup_ids (map entry_id (fts_map db))
  && forallb (fun m => existsb (fun f => rowid f =? fts_rowid m) (entries_fts db))
             (fts_map db).

(** The bijection between entries and FTS documents that the specification
    asks for: every entry has exactly one [fts_map] row, every document has
    one, and no [fts_map] row is an orphan on either side. *)
Definition fts_bijection (db : Db) : bool :=
  schema_ok db
  && nodup_ids (map rowid (entries_fts db))
  && nodup_ids (map id (entries db))
  && forallb (fun e => existsb (fun m => entry_id m =? id e) (fts_map db))
             (entries db)
  && forallb (fun m => existsb (fun e => id e =? entry_id m) (entries db))
             (fts_map db)
  && forallb (fun f => existsb (fun m => fts_rowid m =? rowid f) (fts_map db))
             (entries_fts db).


(** A property of the database that a computation keeps, whether it
    returns or throws. *)
Definition keeps {A} (J : Db -> Prop) (m : M A) : Prop :=
  forall db, J db -> J (snd (m db)).

(** A property that holds of the result and database when a computation
    started under [P] returns. *)
Definition returns {A} (P : Db -> Prop) (m : M A) (Q : A -> Db -> Prop) : Prop :=
  forall db, P db ->
    match m db with
    | (Ok a, db') => Q a db'
    | (Throw _, _) => True
    end.

(** The invariant of the loop of [selfAnnotatePrompt] over the rows [done]
    already processed: a row is annotated, or it is a row of the initial
    table [es0] whose id has not been processed. *)
Definition annotated_or_untouched (es0 done : list EntryRow) (db : Db) : Prop :=
  Forall (fun r =>
            annotation_status r = annotated
            \/ (In r es0 /\ ~ In (id r) (map id done)))
         (entries db).

(** A row as the grouper inserts it. *)
Definition fresh_row (r : EntryRow) : Prop :=
  entry_type r <> summary /\ annotation_status r = pending.

(** [db'] has the rows of [db0] followed by rows that satisfy [Q]. *)
Definition extends_with (Q : EntryRow -> Prop) (db0 db' : Db) : Prop :=
  exists added, entries db' = entries db0 ++ added /\ Forall Q added.



(** The constraints of [schema_ok] as propositions. *)
Definition map_wf (db : Db) : Prop :=
  (forall m1 m2, In m1 (fts_map db) -> In m2 (fts_map db) ->
                 fts_rowid m1 = fts_rowid m2 -> m1 = m2)
  /\ (forall m1 m2, In m1 (fts_map db) -> In m2 (fts_map db) ->
                    entry_id m1 = entry_id m2 -> m1 = m2)
  /\ (forall m, In m (fts_map db) ->
                exists f, In f (entries_fts db) /\ rowid f = fts_rowid m).

(** An element of [fts_contents]: a document and the entry it is mapped to. *)
Definition content : Type :=
  option Z * (jsstring * jsstring * jsstring * jsstring).

Definition content_of (ms : list FtsMapRow) (f : FtsRow) : content :=
  (option_map entry_id (find (fun m => fts_rowid m =? rowid f) ms),
   (fts_file_path f, fts_description f, fts_tags f, fts_semantic_group f)).

Definition mapped_to (i : Z) (c : content) : bool :=
  match fst c with Some j => j =? i | None => false end.

(** The contents of the FTS index: its documents in rowid order, each with
    the entry id that [fts_map] gives to its rowid. *)
Definition fts_contents (db : Db) : list content :=
  map (content_of (fts_map db)) (entries_fts db).

(** What [annotateEntry] does to the contents of the index: the document
    mapped to the entry is replaced by a new last document. *)
Definition reindex (i : Z) (fp d t g : jsstring) (c : list content)
    : list content :=
  filter (fun x => negb (mapped_to i x)) c ++ [(Some i, (fp, d, t, g))].

(** What the annotation loop does to a row of [entries], to [entries] and
    to the contents of the index, [fp] giving the [file_path] of an entry. *)
Definition ann_upd (a : Annotate.Annotation) (e : EntryRow) : EntryRow :=
  if id e =? Annotate.ann_entry_id a
  then set_annotation (Annotate.ann_description a) (Annotate.ann_tags a)
         (Annotate.ann_group a) (Annotate.ann_files a) (Annotate.ann_conf a)
         (Annotate.ann_low a) e
  else e.

Definition ann_row (anns : list Annotate.Annotation) (e : EntryRow) : EntryRow :=
  fold_left (fun e a => ann_upd a e) anns e.

Definition ann_reindex (fp : Z -> jsstring) (a : Annotate.Annotation)
    (c : list content) : list content :=
  reindex (Annotate.ann_entry_id a) (fp (Annotate.ann_entry_id a))
          (Annotate.ann_description a) (Annotate.ann_tags a)
          (Annotate.ann_group a) c.

Definition ann_contents (fp : Z -> jsstring) (anns : list Annotate.Annotation)
    (c : list content) : list content :=
  fold_left (fun c a => ann_reindex fp a c) anns c.

(** No annotation of the list names the entry of [x]. *)
Definition untouched (anns : list Annotate.Annotation) (x : content) : bool :=
  forallb (fun a => negb (mapped_to (Annotate.ann_entry_id a) x)) anns.

(** The columns of an entry that [annotateEntry] does not assign to. *)
Definition same_base (r r' : EntryRow) : Prop :=
  id r = id r' /\ prompt_index r = prompt_index r'
  /\ file_path r = file_path r' /\ entry_type r = entry_type r'
  /\ tool_calls r = tool_calls r' /\ created_at r = created_at r'.

(** The link of a response is in [entry_links]. *)
Definition link_present (db : Db) (l : option Annotate.Link) : Prop :=
  match l with
  | Some l =>
      existsb (fun x => (source_id x =? Annotate.source_entry_id l)
                        && (target_id x =? Annotate.target_entry_id l)
                        && str_eqb (link_type x) (Annotate.link_type_of l))
              (entry_links db) = true
  | None => False
  end.

(** The documents that are not mapped to entry [i]. *)
Definition other_docs (i : Z) (db : Db) : list FtsRow :=
  filter (fun f => negb (mapped_to i (content_of (fts_map db) f)))
         (entries_fts db).

(** The database after a completed [annotateEntry]. *)
Definition annotated_db (i : Z) (d t g : jsstring) (rf : list jsstring)
    (c : Q) (lr : bool) (db : Db) : Db :=
  let r := next_rowid (other_docs i db) in
  mkDb (map (fun e => if id e =? i then set_annotation d t g rf c lr e else e)
            (entries db))
       (entries_seq db)
       (other_docs i db ++ [mkFts r (file_path_of db i) d t g])
       (filter (fun m => negb (entry_id m =? i)) (fts_map db) ++ [mkMap r i])
       (entry_links db) (entry_links_seq db) (session_state db).

(** Every row of [fts_map] points to an entry. *)
Definition no_orphans (db : Db) : Prop :=
  forall m, In m (fts_map db) -> In (entry_id m) (map id (entries db)).

(** The state of the store in which the hooks do not fail: the constraints
    of the schema hold and [fts_map] has no orphan. *)
Definition store_wf (db : Db) : Prop := map_wf db /\ no_orphans db.

(** The annotations of a response whose [UPDATE] of [entries] has run when
    the annotation loop ends: all of them when it completes; otherwise those
    up to the first [null], or up to and including the first whose
    [annotateEntry] raises. *)
Fixpoint started (anns : list (option Annotate.Annotation)) (db : Db)
    : list Annotate.Annotation :=
  match anns with
  | Some a :: rest =>
      a :: match annotateEntry (Annotate.ann_entry_id a)
                   (Annotate.ann_description a) (Annotate.ann_tags a)
                   (Annotate.ann_group a) (Annotate.ann_files a)
                   (Annotate.ann_conf a) (Annotate.ann_low a) db with
           | (Ok _, db') => started rest db'
           | (Throw _, _) => []
           end
  | _ => []
  end.

(** The same for a run of [annotatePrompt], whose annotation loop starts
    after [markAnnotating]: the ids of the entries that an annotation has
    been written to. *)
Definition applied_ids (promptIndex : Z) (outcome : Annotate.LlmOutcome)
    (db : Db) : list Z :=
  match outcome with
  | Annotate.Parsed r =>
      map Annotate.ann_entry_id
        (started (Annotate.opt_list (Annotate.annotations r))
           (snd (markAnnotating
                   (map id (Annotate.input_set db promptIndex)) db)))
  | _ => []
  end.

(** A computation that returns from every database that satisfies [J], and
    keeps [J]. *)
Definition completes {A} (J : Db -> Prop) (m : M A) : Prop :=
  forall db, J db -> exists a db', m db = (Ok a, db') /\ J db'.

End Inv.

(* ================================================================== *)
(** ** Sample inputs *)

Module Samples.
Import Store EntryTracker Annotate.

Definition call (tool : string) (input : list (string * string)) : BufferedCall :=
  mkCall (lit tool) (map (fun kv => (fst kv, lit (snd kv))) input) 0.

(** Scenario 2 of the specification. *)
Definition grouping_batch : list BufferedCall :=
  [ call "Read" [("file_path", "a.ts")];
    call "Grep" [("pattern", "foo")];
    call "Read" [("file_path", "a.ts")];
    call "Bash" [("command", "ls")] ]%string.

(** Scenario 1 of the specification. *)
Definition login_batch : list BufferedCall :=
  [ call "Read" [("file_path", "src/login.ts")];
    call "Edit" [("file_path", "src/login.ts"); ("old_string", "a");
                 ("new_string", "b")] ]%string.

(** A session whose first prompt has been submitted. *)
Definition turn1_db : Db :=
  with_state empty_db
    [(lit "prompt_index", lit "1"); (lit "prompt_1", lit "fix the login bug")].

(** An entry row as [insertEntry] leaves it. *)
Definition fresh_entry (i p : Z) (fp : string) (t : EntryType)
    (calls : list jsobj) : EntryRow :=
  mkEntry i p (Some (lit fp)) t calls None None [] None None 0 pending 0.

Definition summary_of_call (tool : string) (fields : list (string * string))
    : jsobj :=
  ("tool"%string, lit tool) :: map (fun kv => (fst kv, lit (snd kv))) fields.

(** A file_change group made of one NotebookEdit call. *)
Definition notebook_entry : EntryRow :=
  fresh_entry 1 1 "nb.ipynb" file_change
    [summary_of_call "NotebookEdit" [("notebook_path", "nb.ipynb")]]%string.

(** A file_change group made of a Read and a Write call. *)
Definition read_write_entry : EntryRow :=
  fresh_entry 1 1 "a.ts" file_change
    [summary_of_call "Read" [("file_path", "a.ts")];
     summary_of_call "Write" [("file_path", "a.ts")]]%string.

(** The group of scenario 1. *)
Definition login_entry : EntryRow :=
  fresh_entry 1 1 "src/login.ts" file_change
    [summary_of_call "Read" [("file_path", "src/login.ts")];
     summary_of_call "Edit" [("file_path", "src/login.ts");
                             ("old_string", "a"); ("new_string", "b")]]%string.

(** A summary of 150 characters. *)
Definition long_summary : jsstring :=
  List.concat (repeat (lit "Refactored auth") 10).

(** A session whose first turn left one summary entry. *)
Definition summary_db : Db :=
  mkDb [mkEntry 1 1 None summary [] (Some long_summary) (Some (lit "auth")) []
                None None 0 annotated 0]
       1 [mkFts 1 [] long_summary (lit "auth") []] [mkMap 1 1] [] 0
       [(lit "prompt_index", lit "2")].

(** Two annotated entries of turn 1 in the group [src], and the summary. *)
Definition indexed_db : Db :=
  mkDb [ mkEntry 1 1 (Some (lit "src/login.ts")) file_change [] 
                 (Some (lit "Modified src/login.ts (1 edit)"))
                 (Some (lit "login.ts,ts,src")) [] (Some (lit "src"))
                 (Some (3 # 10)) 0 annotated 0;
         mkEntry 2 1 (Some (lit "src/auth.ts")) research []
                 (Some (lit "Read src/auth.ts"))
                 (Some (lit "auth.ts,ts,src")) [] (Some (lit "src"))
                 (Some (3 # 10)) 0 annotated 0;
         mkEntry 3 1 None summary [] (Some (lit "Refactored auth"))
                 (Some (lit "auth")) [] None None 0 annotated 0 ]
       3
       [ mkFts 1 (lit "src/login.ts") (lit "Modified src/login.ts (1 edit)")
               (lit "login.ts,ts,src") (lit "src");
         mkFts 2 (lit "src/auth.ts") (lit "Read src/auth.ts")
               (lit "auth.ts,ts,src") (lit "src");
         mkFts 3 [] (lit "Refactored auth") (lit "auth") [] ]
       [mkMap 1 1; mkMap 2 2; mkMap 3 3] [] 0
       [(lit "prompt_index", lit "2")].

(** A stand-in for [MATCH]: a document matches when its [file_path] column
    is the quoted term of the query. *)
Definition match_file_path (query : jsstring) (doc : FtsRow) : bool :=
  str_eqb query (dquote ++ fts_file_path doc ++ dquote).

Definition rank_zero (index : list FtsRow) (query : jsstring) (doc : FtsRow) : Q :=
  0%Q.

(** A session in its second turn: entry 1 of turn 1 has failed, entries 2
    and 3 of turn 2 are pending. *)
Definition retry_db : Db :=
  mkDb [ mkEntry 1 1 (Some (lit "a.ts")) research [] None None [] None None 0
                 failed 0;
         mkEntry 2 2 (Some (lit "b.ts")) research [] None None [] None None 0
                 pending 0;
         mkEntry 3 2 (Some (lit "c.ts")) research [] None None [] None None 0
                 pending 0 ]
       3
       [ mkFts 1 (lit "a.ts") [] [] []; mkFts 2 (lit "b.ts") [] [] [];
         mkFts 3 (lit "c.ts") [] [] [] ]
       [mkMap 1 1; mkMap 2 2; mkMap 3 3] [] 0
       [(lit "prompt_index", lit "2")].

Definition ann (i : Z) (d t g : string) : Annotation :=
  mkAnn i (lit d) (lit t) None None None (Some (lit g)).

(** A response whose second annotation is [null]. *)
Definition partial_response : AnnotationResult :=
  mkResult (Some [Some (ann 2 "Read b.ts" "b.ts" "src"); None]) None None.

(** A response for entry 1 with a link and a prompt summary. *)
Definition full_response : AnnotationResult :=
  mkResult (Some [Some (ann 1 "Reworked the login form" "login,form" "auth")])
           (Some [Some (mkLinkSpec 1 2 (lit "related"))])
           (Some (mkSummary (lit "Reworked login") (lit "login"))).


End Samples.

(* ================================================================== *)
(** ** The UserPromptSubmit hook ([hooks/on-prompt.ts]) *)

Module PromptHook.
Import Store Config Retrieve.
Local Open Scope db_scope.

Section WithFts.

Variable toLowerCase : jsstring -> jsstring.
Variable fts_match : jsstring -> FtsRow -> bool.
Variable fts_rank : list FtsRow -> jsstring -> FtsRow -> Q.

(** [onPrompt].  The result is the [additionalContext] of the hook output,
    [None] for the output [{}].  [getPromptIndex(db) + 1] is [NaN] when the
    stored index is: [String(NaN)] is stored, [NaN <= 1] is false, and
    [retrieveContext] finds no row below a [NaN] index and returns
    [null]. *)
Definition onPrompt (prompt : jsstring) : M (option jsstring) :=
  stored <- gets getPromptIndex ;;
  let idx := option_map (fun n => n + 1) stored in
  setState (lit "prompt_index") (num_str_opt idx) ;;
  setState (lit "prompt_" ++ num_str_opt idx) prompt ;;
  match idx with
  | None => ret None
  | Some i =>
      if i <=? 1 then ret None
      else
        context <- gets (fun db =>
          retrieveContext toLowerCase fts_match fts_rank db prompt i
                          TOKEN_BUDGET) ;;
        match context with
        | Some c => if truthy c then ret (Some c) else ret None
        | None => ret None
        end
  end.

End WithFts.

End PromptHook.

(* ================================================================== *)
(** ** The counts of the [status] command ([db.ts], [getEntryCount]) *)

Module Status.
Import Store.

(** [sum(...)] of SQL: [NULL] over no row. *)
Definition sql_sum (l : list Z) : option Z :=
  match l with
  | [] => None
  | _ => Some (fold_right Z.add 0 l)
  end.

Record EntryCount := mkCount {
  count_total : Z;
  count_annotated : option Z;
  count_pending : option Z;
  count_failed : option Z
}.

(** [CASE WHEN annotation_status = s THEN 1 ELSE 0 END] *)
Definition case_status (s : AnnotationStatus) (e : EntryRow) : Z :=
  if status_eqb (annotation_status e) s then 1 else 0.

Definition getEntryCount (db : Db) : EntryCount :=
  let rows :=
    filter (fun e => negb (entry_type_eqb (entry_type e) summary)) (entries db) in
  mkCount (Z.of_nat (List.length rows))
          (sql_sum (map (case_status annotated) rows))
          (sql_sum (map (case_status pending) rows))
          (sql_sum (map (case_status failed) rows)).

End Status.

(* ================================================================== *)
(** ** Further predicates on the database *)

Module MoreInv.
Import Store Retrieve EntryTracker.

(** The bijection between entries and FTS documents, as a proposition:
    ids, rowids and both columns of [fts_map] have no duplicate, the entry
    ids are the [entry_id]s of [fts_map] and the rowids of the documents are
    its [fts_rowid]s. *)
Definition bijective (db : Db) : Prop :=
  NoDup (map id (entries db))
  /\ NoDup (map rowid (entries_fts db))
  /\ NoDup (map fts_rowid (fts_map db))
  /\ NoDup (map entry_id (fts_map db))
  /\ (forall i, In i (map id (entries db)) <-> In i (map entry_id (fts_map db)))
  /\ (forall r, In r (map rowid (entries_fts db))
                <-> In r (map fts_rowid (fts_map db))).

(** The key of the [UNIQUE(source_id, target_id, link_type)] constraint. *)
(** The database after the three inserts that [insertEntry] and
    [insertSummaryEntry] share, when none of them fails. *)
Definition inserted_db (row : Z -> EntryRow) (fp d t g : jsstring) (db : Db)
    : Db :=
  let i := next_auto (entries_seq db) (map id (entries db)) in
  let r := next_rowid (entries_fts db) in
  mkDb (entries db ++ [row i]) i (entries_fts db ++ [mkFts r fp d t g])
       (fts_map db ++ [mkMap r i]) (entry_links db) (entry_links_seq db)
       (session_state db).

(** [s.isWellFormed()]: no unpaired surrogate.  A well-formed string is
    stored in a [TEXT] column and read back as it is. *)
Definition is_high_surrogate (c : N) : bool :=
  (55296 <=? c)%N && (c <=? 56319)%N.

Definition is_low_surrogate (c : N) : bool :=
  (56320 <=? c)%N && (c <=? 57343)%N.

Fixpoint well_formed (s : jsstring) : bool :=
  match s with
  | [] => true
  | c :: r =>
      if is_high_surrogate c then
        match r with
        | d :: r' => is_low_surrogate d && well_formed r'
        | [] => false
        end
      else negb (is_low_surrogate c) && well_formed r
  end.

Definition link_key (l : LinkRow) : Z * Z * jsstring :=
  (source_id l, target_id l, link_type l).

Definition links_unique (db : Db) : Prop :=
  NoDup (map link_key (entry_links db)).

(** A call that the grouper indexes. *)
Definition indexed (call : BufferedCall) : bool :=
  negb (includes Config.IGNORED_TOOLS (tool_name call)).

(** An entry has a description, so that the selection loops do not skip
    it. *)
Definition described (e : FtsEntry) : bool := truthy_opt (fe_description e).

(** [lines] are the lines of [st] followed by those of the described
    entries of a prefix of [results]; what follows the prefix, if anything,
    starts with a described entry whose line does not fit. *)
Definition stops_at_overflow (charBudget : Z) (results : list FtsEntry)
    (st : Sel) (lines : list jsstring) : Prop :=
  exists taken rest,
    results = taken ++ rest
    /\ lines = contextLines st ++ map formatEntry (filter described taken)
    /\ match rest with
       | [] => True
       | e :: _ =>
           described e = true
           /\ usedChars st
              + sum_len (map formatEntry (filter described taken))
              + len (formatEntry e) > charBudget
       end.

(** The code units that a term of the FTS query can hold. *)
(** The row that [selfAnnotatePrompt] makes of a pending entry. *)
Definition self_annotated (toLowerCase : jsstring -> jsstring)
    (userPrompt : jsstring) (e : EntryRow) : EntryRow :=
  set_annotation (SelfAnnotate.buildDescription e (tool_calls e))
    (SelfAnnotate.buildTags toLowerCase e (tool_calls e) userPrompt)
    (SelfAnnotate.buildGroup e) [] (3 # 10) false e.

Definition term_char (c : N) : bool :=
  is_word c || N.eqb c 47 || N.eqb c 46 || N.eqb c 45.

(** The properties that a stored call summary can have. *)
Definition summary_keys : list string :=
  ["tool"; "file_path"; "notebook_path"; "pattern"; "command"; "query"; "url";
   "prompt"; "old_string"; "new_string"; "glob"; "path"; "description"]%string.

(** The ids of the annotations of a response, all of them objects. *)
(** A summary with its [tool] property, distinct keys among
    [summary_keys], and values of bounded size. *)
Definition summary_ok (tool : jsstring) (o : jsobj) : Prop :=
  get_prop o "tool" = Some tool
  /\ NoDup (map fst o)
  /\ Forall (fun kv => In (fst kv) summary_keys
                       /\ (fst kv = "tool"%string \/ fst kv = "glob"%string
                           \/ fst kv = "path"%string \/ len (snd kv) <= 303)) o.

Definition annotated_ids (l : list Annotate.Annotation) : list Z :=
  map Annotate.ann_entry_id l.

(** Prompt indices in descending order. *)
Definition prompt_ge (a b : EntryRow) : Prop := prompt_index b <= prompt_index a.

(** What the last loop of the [try] block of [annotatePrompt] does to a row
    of [entries]. *)
Definition fail_row (allEntries : list EntryRow) (annotatedIds : list Z)
    (e : EntryRow) : EntryRow :=
  fold_left (fun e entry =>
               if existsb (Z.eqb (id entry)) annotatedIds then e
               else if id e =? id entry then set_status failed e else e)
            allEntries e.

End MoreInv.

(* ================================================================== *)
(** ** Further sample inputs *)

Module MoreSamples.
Import Store EntryTracker Annotate.

(** Scenario 3 of the specification. *)
Definition ignored_batch : list BufferedCall :=
  [ Samples.call "TodoWrite" [("todos", "x")];
    Samples.call "EnterPlanMode" [] ]%string.

(** A response that annotates entry 2 only. *)
(** A store whose [fts_map] satisfies both key constraints and has a row,
    for entry 3, whose document does not exist. *)
Definition dangling_db : Db :=
  mkDb [ mkEntry 1 1 (Some (lit "a.ts")) research [] None None [] None None 0
                 pending 0;
         mkEntry 2 1 (Some (lit "b.ts")) research [] None None [] None None 0
                 pending 0;
         mkEntry 3 1 (Some (lit "c.ts")) research [] None None [] None None 0
                 pending 0 ]
       3
       [ mkFts 1 (lit "a.ts") [] [] []; mkFts 2 (lit "b.ts") [] [] [] ]
       [mkMap 1 1; mkMap 2 2; mkMap 5 3] [] 0
       [(lit "prompt_index", lit "1")].

Definition two_annotations : AnnotationResult :=
  mkResult (Some [Some (Samples.ann 1 "Read a.ts" "a.ts" "src");
                  Some (Samples.ann 2 "Read b.ts" "b.ts" "src")]) None None.

Definition one_annotation : AnnotationResult :=
  mkResult (Some [Some (Samples.ann 2 "Read b.ts" "b.ts" "src")]) None None.

End MoreSamples.

(* ================================================================== *)
(** * Properties *)

Import Store Config EntryTracker Inv.

(** ** Strings *)

Lemma str_eqb_eq (a b : jsstring) : str_eqb a b = true <-> a = b.
Proof.
  revert b; induction a as [|x a IH]; intros [|y b]; simpl; split;
    try congruence; try reflexivity.
  - intros H. apply andb_true_iff in H as [H1 H2].
    apply N.eqb_eq in H1. apply IH in H2. congruence.
  - intros H. injection H as -> ->.
    rewrite N.eqb_refl. simpl. now apply IH.
Qed.

Lemma str_eqb_refl (a : jsstring) : str_eqb a a = true.
Proof. now apply str_eqb_eq. Qed.

Lemma len_app (a b : jsstring) : len (a ++ b) = len a + len b.
Proof. unfold len. rewrite length_app. lia. Qed.

Lemma len_nonneg (a : jsstring) : 0 <= len a.
Proof. unfold len. lia. Qed.

(** ** The grouper *)

(** A file tool call that carries neither [file_path] nor [notebook_path] is
    keyed [_unknown], whatever its [pattern]. *)
Lemma file_key_ignores_pattern (tool pattern : jsstring) (t : Z) :
  file_key (mkCall tool [("pattern"%string, pattern)] t) = lit "_unknown".
Proof. reflexivity. Qed.

(** C1.  On the batch [Read a.ts, Grep foo, Read a.ts, Bash ls] the grouper
    inserts three entries, but the Grep call is keyed [_unknown], not by its
    pattern [foo]: [flushToEntries] reads [file_path] and [notebook_path]
    only and never consults [TOOL_KEY_FIELDS] for a file tool. *)
Theorem C1_grep_keyed_unknown :
  let '(r, db) := flushToEntries (Some 1) Samples.grouping_batch 0 empty_db in
  r = Ok [1; 2; 3]
  /\ map (fun e => (file_path e, entry_type e, List.length (tool_calls e)))
         (entries db)
     = [ (Some (lit "a.ts"), research, 2%nat);
         (Some (lit "_unknown"), research, 1%nat);
         (Some (lit "ls"), command, 1%nat) ]
  /\ key_field (lit "Grep") = Some "pattern"%string
  /\ ~ In (Some (lit "foo")) (map file_path (entries db)).
Proof.
  vm_compute. repeat split; try reflexivity.
  intros [H | [H | [H | []]]]; discriminate H.
Qed.

(** ** Session ids *)


Lemma id_char_kept_underscore : id_char_kept 95%N = true.
Proof. reflexivity. Qed.






(** ** Descriptions of file changes *)

Import SelfAnnotate.

Lemma lit_created_not_modified (a b : jsstring) :
  lit "Modified " ++ a <> lit "Created " ++ b.
Proof. intros H. vm_compute in H. discriminate H. Qed.

Lemma lit_created_not_changed (a b : jsstring) :
  lit "Changed " ++ a <> lit "Created " ++ b.
Proof. intros H. cbn in H. discriminate H. Qed.

Lemma edit_calls_positive (calls : list jsobj) :
  tools_include calls "Edit" = true ->
  (1 <= List.length (filter (tool_is "Edit") calls))%nat.
Proof.
  unfold tools_include. induction calls as [|c calls IH]; simpl.
  - discriminate.
  - destruct (tool_is "Edit" c); simpl; intros H; [lia | auto].
Qed.

(** C8, as the specification words it, fails: a group of write-tool calls
    only can be described as "Changed", and a group with a Read call can be
    described as "Created". *)
Lemma C8_created_is_not_only_writes :
  (SpecWording.only_write_calls (tool_calls Samples.notebook_entry) = true
   /\ buildDescription Samples.notebook_entry (tool_calls Samples.notebook_entry)
      = lit "Changed nb.ipynb")
  /\ (SpecWording.only_write_calls (tool_calls Samples.read_write_entry) = false
      /\ buildDescription Samples.read_write_entry
           (tool_calls Samples.read_write_entry)
         = lit "Created a.ts").
Proof. vm_compute. repeat split. Qed.

(** C8, amended.  For a file_change entry the description is
    "Created <short>" exactly when the calls include a Write call and no Edit
    call; it is "Modified <short> (N edit)" for N = 1 and
    "Modified <short> (N edits)" for N > 1, N the number of Edit calls, when
    an Edit call is present; and it is "Changed <short>" otherwise. *)
Theorem C8_file_change_description (entry : EntryRow) (calls : list jsobj) :
  entry_type entry = file_change ->
  let short := short_path entry in
  let n := List.length (filter (tool_is "Edit") calls) in
  (buildDescription entry calls = lit "Created " ++ short
   <-> tools_include calls "Write" = true /\ tools_include calls "Edit" = false)
  /\ (tools_include calls "Edit" = true ->
      (1 <= n)%nat
      /\ buildDescription entry calls
         = lit "Modified " ++ short ++ lit " (" ++ num_str (Z.of_nat n)
             ++ (if (n =? 1)%nat then lit " edit" else lit " edits") ++ lit ")")
  /\ (tools_include calls "Write" = false ->
      tools_include calls "Edit" = false ->
      buildDescription entry calls = lit "Changed " ++ short).
Proof.
  intros Ht short n. unfold buildDescription. rewrite Ht. fold short. fold n.
  destruct (tools_include calls "Write") eqn:W,
           (tools_include calls "Edit") eqn:E; simpl;
    try (pose proof (edit_calls_positive calls E) as Hn; fold n in Hn).
  all: repeat split; intros;
    repeat match goal with H : _ /\ _ |- _ => destruct H end;
    try (exfalso; eapply lit_created_not_modified; eassumption);
    try (exfalso; eapply lit_created_not_changed; eassumption);
    repeat split; try discriminate; try reflexivity; try assumption;
    try (destruct n as [|[|k]]; [lia | reflexivity | reflexivity]).
Qed.

(** The group of scenario 1, a Read and an Edit of [src/login.ts], is
    described as "Modified src/login.ts (1 edit)". *)
Lemma C8_file_change_description_witness :
  entry_type Samples.login_entry = file_change
  /\ buildDescription Samples.login_entry (tool_calls Samples.login_entry)
     = lit "Modified " ++ lit "src/" ++ lit "login.ts (1 edit)".
Proof.
  split; [reflexivity|].
  destruct (C8_file_change_description Samples.login_entry
              (tool_calls Samples.login_entry) eq_refl) as (_ & H & _).
  destruct (H eq_refl) as [_ ->]. reflexivity.
Defined.

(** ** Retrieval *)

Import Retrieve.

Lemma In_firstn {A} (n : nat) (l : list A) (x : A) :
  In x (firstn n l) -> In x l.
Proof.
  revert l; induction n as [|n IH]; intros [|y l]; simpl; try tauto.
  intros [H | H]; [now left | right; now apply IH].
Qed.

Lemma insert_by_In {A} (le : A -> A -> bool) (x y : A) (l : list A) :
  In x (insert_by le y l) -> x = y \/ In x l.
Proof.
  induction l as [|z l IH]; simpl.
  - intros [H | []]; now left.
  - destruct (le y z); simpl.
    + intros [H | H]; [now left | now right].
    + intros [H | H]; [right; now left|].
      destruct (IH H) as [-> | H']; [now left | right; now right].
Qed.

Lemma sort_by_In {A} (le : A -> A -> bool) (l : list A) (x : A) :
  In x (sort_by le l) -> In x l.
Proof.
  induction l as [|y l IH]; simpl; [tauto|].
  intros H. apply insert_by_In in H as [-> | H]; [now left | right; auto].
Qed.

Lemma status_eqb_eq (a b : AnnotationStatus) : status_eqb a b = true <-> a = b.
Proof. destruct a, b; simpl; split; congruence. Qed.

Lemma retrievable_safe (C : Z) (e : EntryRow) :
  retrievable C e = true -> safe_row C e.
Proof.
  unfold retrievable, safe_row. intros H.
  apply andb_true_iff in H as [H H3]. apply andb_true_iff in H as [H1 H2].
  apply Z.eqb_eq in H1. apply status_eqb_eq in H2. apply Z.ltb_lt in H3.
  auto.
Qed.

Lemma expandGroups_safe (db : Db) (groups : list jsstring) (excl : list Z) (C : Z) :
  Forall (from_safe_row db C) (expandGroups db groups excl C).
Proof.
  apply Forall_forall. intros fe H. unfold expandGroups in H.
  apply in_flat_map in H as (g & _ & H).
  apply in_map_iff in H as (row & <- & H).
  apply In_firstn, sort_by_In, filter_In in H as [Hin Hc].
  apply andb_true_iff in Hc as [Hc _]. apply andb_true_iff in Hc as [_ Hc].
  exists row, 0%Q. auto using retrievable_safe.
Qed.

Lemma select_lines_safe (db : Db) (C B : Z) (l : list FtsEntry) :
  Forall (from_safe_row db C) l ->
  forall st,
    Forall (safe_line db C) (contextLines st) ->
    Forall (safe_line db C) (contextLines (select_results B l st))
    /\ Forall (safe_line db C) (contextLines (select_expanded B l st)).
Proof.
  induction 1 as [|fe l Hfe _ IH]; intros st Hst; simpl; [auto|].
  destruct (negb (truthy_opt (fe_description fe))); [now apply IH|].
  destruct (usedChars st + len (formatEntry fe) >? B); [auto|].
  assert (Hl : safe_line db C (formatEntry fe)).
  { destruct Hfe as (row & rank & ? & ? & ->). now exists row, rank. }
  split; apply IH; simpl; apply Forall_app; auto.
Qed.

Section Retrieval.

Variable toLowerCase : jsstring -> jsstring.
Variable fts_match : jsstring -> FtsRow -> bool.
Variable fts_rank : list FtsRow -> jsstring -> FtsRow -> Q.

Lemma searchFts_safe (db : Db) (q : jsstring) (C : Z) (limit : nat) :
  Forall (from_safe_row db C) (searchFts fts_match fts_rank db q C limit).
Proof.
  apply Forall_forall. intros fe H. unfold searchFts in H.
  apply In_firstn, sort_by_In in H.
  apply in_flat_map in H as (doc & _ & H).
  destruct (fts_match q doc); [|destruct H].
  apply in_flat_map in H as (fm & _ & H).
  destruct (fts_rowid fm =? rowid doc); [|destruct H].
  apply in_map_iff in H as (row & <- & H).
  apply filter_In in H as [Hin Hc]. apply andb_true_iff in Hc as [_ Hc].
  exists row, (fts_rank (entries_fts db) q doc). auto using retrievable_safe.
Qed.

Lemma select_context_safe (db : Db) (q : jsstring) (C B used0 : Z) :
  Forall (safe_line db C)
    (contextLines (select_context fts_match fts_rank db q C B used0)).
Proof.
  unfold select_context.
  pose proof (searchFts_safe db q C FTS_RESULT_LIMIT) as Hs.
  destruct (select_lines_safe db C B _ Hs (mkSel [] used0 [] []) (Forall_nil _))
    as [H1 _].
  destruct (seenGroups _); [exact H1|].
  destruct (usedChars _ <? B); [|exact H1].
  now apply (select_lines_safe db C B _ (expandGroups_safe db _ _ C)).
Qed.

(** The same for the lines of a call of [retrieveContext]. *)
Lemma selected_lines_safe (db : Db) (prompt : jsstring) (C B : Z) :
  Forall (safe_line db C)
    (selected_lines toLowerCase fts_match fts_rank db prompt C B).
Proof.
  unfold selected_lines. destruct (buildFtsQuery _ _); [|constructor].
  apply select_context_safe.
Qed.

(** C3.  Every line that [retrieveContext] puts in [<relevant_context>],
    whether it comes from the BM25 search or from the expansion of the
    semantic groups, formats a row of [entries] with [prompt_index] below the
    current index, [annotation_status = 'annotated'] and [low_relevance = 0]. *)
Theorem C3_retrieval_safety (db : Db) (prompt : jsstring) (C B : Z) :
  Forall (fun line =>
            exists row rank,
              In row (entries db)
              /\ prompt_index row < C
              /\ annotation_status row = annotated
              /\ low_relevance row = 0
              /\ line = formatEntry (of_row rank row))
         (selected_lines toLowerCase fts_match fts_rank db prompt C B).
Proof.
  eapply Forall_impl; [|apply selected_lines_safe].
  intros line (row & rank & Hin & (H1 & H2 & H3) & ->).
  exists row, rank. auto.
Qed.

End Retrieval.

(** *** The character budget *)

Lemma sum_len_app (a b : list jsstring) :
  sum_len (a ++ b) = sum_len a + sum_len b.
Proof. induction a as [|x a IH]; simpl; [reflexivity | rewrite IH; lia]. Qed.

Lemma join_len (sep x : jsstring) (l : list jsstring) :
  len (join sep (x :: l))
  = sum_len (x :: l) + len sep * Z.of_nat (List.length l).
Proof.
  revert x; induction l as [|y l IH]; intros x.
  - simpl. lia.
  - change (join sep (x :: y :: l)) with (x ++ sep ++ join sep (y :: l)).
    rewrite !len_app, IH. simpl sum_len. simpl List.length. lia.
Qed.

Lemma select_within_budget (B used0 : Z) (l : list FtsEntry) :
  forall st,
    within_budget B used0 st ->
    within_budget B used0 (select_results B l st)
    /\ within_budget B used0 (select_expanded B l st).
Proof.
  induction l as [|fe l IH]; intros st Hst; simpl; [auto|].
  destruct (negb (truthy_opt (fe_description fe))); [now apply IH|].
  destruct (usedChars st + len (formatEntry fe) >? B) eqn:E; [auto|].
  assert (Hle : usedChars st + len (formatEntry fe) <= B).
  { destruct (Z.gtb_spec (usedChars st + len (formatEntry fe)) B);
      [discriminate | lia]. }
  destruct Hst as [Hu _].
  split; apply IH; (split; simpl; [|intros _; exact Hle]);
    rewrite sum_len_app; simpl; lia.
Qed.

Lemma wrapContext_len (sections : list jsstring) :
  len (wrapContext sections) = 57 + len (join [10%N; 10%N] sections).
Proof.
  unfold wrapContext. rewrite !len_app.
  change (len (lit "<distilled_session_context>")) with 27.
  change (len (lit "</distilled_session_context>")) with 28.
  change (len [10%N]) with 1. lia.
Qed.

Lemma relevant_context_len (x : jsstring) (l : list jsstring) :
  len (relevant_context (x :: l))
  = 39 + sum_len (x :: l) + Z.of_nat (List.length l).
Proof.
  unfold relevant_context. rewrite !len_app, join_len.
  change (len (lit "<relevant_context>")) with 18.
  change (len (lit "</relevant_context>")) with 19.
  change (len [10%N]) with 1. lia.
Qed.

Lemma assemble_len (block : option jsstring) (lines : list jsstring) (s : jsstring) :
  assemble block lines = Some s ->
  len s = len_opt block + sum_len lines
          + wrapper_overhead (match block with Some _ => true | None => false end)
                             (List.length lines).
Proof.
  unfold assemble, wrapper_overhead.
  destruct block as [b|], lines as [|x l]; intros H; try discriminate;
    injection H as <-; rewrite wrapContext_len;
    simpl len_opt; simpl List.length; cbv iota beta.
  - change (join [10%N; 10%N] [b]) with b. simpl sum_len. lia.
  - change (join [10%N; 10%N] [b; relevant_context (x :: l)])
      with (b ++ [10%N; 10%N] ++ relevant_context (x :: l)).
    rewrite !len_app, relevant_context_len.
    change (len [10%N; 10%N]) with 2. lia.
  - change (join [10%N; 10%N] [relevant_context (x :: l)])
      with (relevant_context (x :: l)).
    rewrite relevant_context_len. lia.
Qed.

Section Budget.

Variable toLowerCase : jsstring -> jsstring.
Variable fts_match : jsstring -> FtsRow -> bool.
Variable fts_rank : list FtsRow -> jsstring -> FtsRow -> Q.

Lemma select_context_within_budget (db : Db) (q : jsstring) (C B used0 : Z) :
  within_budget B used0 (select_context fts_match fts_rank db q C B used0).
Proof.
  unfold select_context.
  assert (H0 : within_budget B used0 (mkSel [] used0 [] [])).
  { split; simpl; [lia | congruence]. }
  destruct (select_within_budget B used0
              (searchFts fts_match fts_rank db q C FTS_RESULT_LIMIT) _ H0)
    as [H1 _].
  destruct (seenGroups _); [exact H1|].
  destruct (usedChars _ <? B); [|exact H1].
  now apply select_within_budget.
Qed.

(** [retrieveContext] is the assembly of its continuity block and of its
    selected lines. *)
Lemma retrieveContext_assemble (db : Db) (prompt : jsstring) (C B : Z) :
  retrieveContext toLowerCase fts_match fts_rank db prompt C B
  = assemble (continuity_block db C)
             (selected_lines toLowerCase fts_match fts_rank db prompt C B).
Proof.
  unfold retrieveContext, selected_lines, continuity_block.
  destruct (truthy_opt (getPreviousSummary db C)) eqn:Ep;
    destruct (buildFtsQuery toLowerCase prompt) as [q|]; try reflexivity.
  - destruct (searchFts fts_match fts_rank db q C FTS_RESULT_LIMIT);
      simpl; destruct (contextLines _); reflexivity.
  - destruct (searchFts fts_match fts_rank db q C FTS_RESULT_LIMIT) eqn:Es.
    + unfold select_context. rewrite Es. reflexivity.
    + simpl. destruct (contextLines _); reflexivity.
Qed.

(** The length of the returned string: the counted characters and the
    tags and newlines around them. *)
Lemma retrieveContext_length (db : Db) (prompt : jsstring) (C B : Z) (s : jsstring) :
  retrieveContext toLowerCase fts_match fts_rank db prompt C B = Some s ->
  len s
  = len_opt (continuity_block db C)
    + sum_len (selected_lines toLowerCase fts_match fts_rank db prompt C B)
    + wrapper_overhead
        (match continuity_block db C with Some _ => true | None => false end)
        (List.length (selected_lines toLowerCase fts_match fts_rank db prompt C B)).
Proof. rewrite retrieveContext_assemble. apply assemble_len. Qed.

(** C2, amended.  The string that [retrieveContext] returns is made of the
    [<last_activity>] block, if there is a previous summary, and of the
    selected context lines; once a line has been selected, the block and the
    lines together have at most [tokenBudget * CHARS_PER_TOKEN] characters.
    The tags and the joining newlines are not part of that count. *)
Theorem C2_budget_amended (db : Db) (prompt : jsstring) (C B : Z) :
  let block := continuity_block db C in
  let lines := selected_lines toLowerCase fts_match fts_rank db prompt C B in
  retrieveContext toLowerCase fts_match fts_rank db prompt C B
  = assemble block lines
  /\ (lines <> [] -> len_opt block + sum_len lines <= B * CHARS_PER_TOKEN).
Proof.
  intros block lines. split; [apply retrieveContext_assemble|].
  unfold lines, selected_lines.
  destruct (buildFtsQuery toLowerCase prompt) as [q|]; [|congruence].
  fold block.
  destruct (select_context_within_budget db q C (B * CHARS_PER_TOKEN)
              (len_opt block)) as [Hu Hb].
  unfold len_opt in Hu, Hb. intros Hne. specialize (Hb Hne).
  unfold len_opt. lia.
Qed.

End Budget.

(** C2, as the specification words it, fails.  With a previous summary of
    150 characters and a prompt without search terms, the returned string is
    the wrapped [<last_activity>] block of 240 characters: more than the 200
    characters of a budget of 50 tokens, which the block alone (183) would
    fit, and more than the 40 characters of a budget of 10 tokens, which the
    block alone exceeds. *)
Lemma C2_wrappers_exceed_budget :
  option_map len
    (retrieveContext ascii_toLowerCase Samples.match_file_path Samples.rank_zero
       Samples.summary_db (lit "what about it?") 2 50)
  = Some 240
  /\ 240 > 50 * CHARS_PER_TOKEN
  /\ len_opt (continuity_block Samples.summary_db 2) = 183
  /\ option_map len
       (retrieveContext ascii_toLowerCase Samples.match_file_path
          Samples.rank_zero Samples.summary_db (lit "what about it?") 2 10)
     = Some 240
  /\ 183 > 10 * CHARS_PER_TOKEN.
Proof. vm_compute. repeat split. Qed.

(** On a session with two matching entries and a short previous summary,
    163 characters are counted against the budget of 200 and the returned
    string has 262. *)
Lemma budget_example_two_lines :
  let lines :=
    selected_lines ascii_toLowerCase Samples.match_file_path Samples.rank_zero
      Samples.indexed_db (lit "src/login.ts") 2 50 in
  List.length lines = 2%nat
  /\ len_opt (continuity_block Samples.indexed_db 2) + sum_len lines = 163
  /\ option_map len
       (retrieveContext ascii_toLowerCase Samples.match_file_path
          Samples.rank_zero Samples.indexed_db (lit "src/login.ts") 2 50)
     = Some 262.
Proof. vm_compute. repeat split. Qed.

(** ** The store *)

Lemma db_eta (db : Db) :
  mkDb (entries db) (entries_seq db) (entries_fts db) (fts_map db)
       (entry_links db) (entry_links_seq db) (session_state db) = db.
Proof. now destruct db. Qed.

Lemma max_of_ge (l : list Z) (x : Z) : In x l -> x <= max_of l.
Proof.
  induction l as [|y l IH]; simpl; [tauto|].
  intros [-> | H]; [lia | specialize (IH H); lia].
Qed.

Lemma next_rowid_fresh (fts : list FtsRow) (f : FtsRow) :
  In f fts -> rowid f < next_rowid fts.
Proof.
  intros H. unfold next_rowid.
  assert (rowid f <= max_of (map rowid fts)) by (apply max_of_ge; now apply in_map).
  lia.
Qed.

Lemma existsb_false {A} (f : A -> bool) (l : list A) :
  existsb f l = false <-> forall x, In x l -> f x = false.
Proof.
  induction l as [|y l IH]; simpl.
  - split; [intros _ x [] | reflexivity].
  - rewrite orb_false_iff, IH. split.
    + intros [H1 H2] x [<- | H]; auto.
    + intros H. split; [apply H; now left | intros x Hx; apply H; now right].
Qed.

Lemma map_if_false {A} (c : A -> bool) (g : A -> A) (l : list A) :
  (forall x, In x l -> c x = false) ->
  map (fun x => if c x then g x else x) l = l.
Proof.
  intros H. induction l as [|y l IH]; simpl; [reflexivity|].
  rewrite (H y (or_introl eq_refl)), IH; [reflexivity|].
  intros x Hx. apply H. now right.
Qed.

Lemma update_entries_none (c : EntryRow -> bool) (g : EntryRow -> EntryRow) (db : Db) :
  (forall e, In e (entries db) -> c e = false) ->
  update_entries c g db = (Ok tt, db).
Proof.
  intros H. unfold update_entries, modify, with_entries.
  rewrite (map_if_false c g _ H). now rewrite db_eta.
Qed.

Lemma find_none_iff {A} (f : A -> bool) (l : list A) :
  find f l = None <-> forall x, In x l -> f x = false.
Proof.
  split; [apply find_none|].
  induction l as [|y l IH]; simpl; [reflexivity|]. intros H.
  rewrite (H y (or_introl eq_refl)). apply IH. intros x Hx. apply H. now right.
Qed.

(** Under the bijection every [fts_map] row points to an entry and to a
    document. *)
Lemma bijection_map_rows (db : Db) (m : FtsMapRow) :
  fts_bijection db = true -> In m (fts_map db) ->
  (exists e, In e (entries db) /\ id e = entry_id m)
  /\ (exists f, In f (entries_fts db) /\ rowid f = fts_rowid m).
Proof.
  unfold fts_bijection, schema_ok. intros H Hm.
  repeat (apply andb_true_iff in H as [H ?]).
  split.
  - match goal with
    | H' : forallb (fun m => existsb (fun e => id e =? entry_id m) _) _ = true |- _ =>
        rewrite forallb_forall in H'; specialize (H' m Hm);
        apply existsb_exists in H' as (e & He & Heq)
    end.
    exists e. split; [assumption | now apply Z.eqb_eq].
  - match goal with
    | H' : forallb (fun m => existsb (fun f => rowid f =? fts_rowid m) _) _ = true |- _ =>
        rewrite forallb_forall in H'; specialize (H' m Hm);
        apply existsb_exists in H' as (f & Hf & Heq)
    end.
    exists f. split; [assumption | now apply Z.eqb_eq].
Qed.

(** ** Reasoning about database computations *)

Lemma keeps_bind {A B} (J : Db -> Prop) (m : M A) (k : A -> M B) :
  keeps J m -> (forall a, keeps J (k a)) -> keeps J (bind m k).
Proof.
  intros Hm Hk db HJ. unfold bind. specialize (Hm db HJ).
  destruct (m db) as [[a|e] db1]; simpl in *; [now apply Hk | exact Hm].
Qed.

Lemma keeps_ret {A} (J : Db -> Prop) (a : A) : keeps J (ret a).
Proof. intros db HJ. exact HJ. Qed.

Lemma keeps_throw {A} (J : Db -> Prop) (e : exn) : keeps J (@throw A e).
Proof. intros db HJ. exact HJ. Qed.

Lemma keeps_gets {A} (J : Db -> Prop) (f : Db -> A) : keeps J (gets f).
Proof. intros db HJ. exact HJ. Qed.

Lemma keeps_foldM {A S} (J : Db -> Prop) (body : S -> A -> M S) (l : list A) :
  (forall s x, keeps J (body s x)) -> forall s, keeps J (foldM l s body).
Proof.
  intros Hb. induction l as [|x l IH]; intros s; simpl.
  - apply keeps_ret.
  - apply keeps_bind; [apply Hb | intros s'; apply IH].
Qed.

Lemma keeps_forEach {A} (J : Db -> Prop) (body : A -> M unit) (l : list A) :
  (forall x, keeps J (body x)) -> keeps J (forEach l body).
Proof. intros Hb. apply keeps_foldM. intros _ x. apply Hb. Qed.

Lemma keeps_try_catch {A} (J : Db -> Prop) (m : M A) (h : exn -> M A) :
  keeps J m -> (forall e, keeps J (h e)) -> keeps J (try_catch m h).
Proof.
  intros Hm Hh db HJ. unfold try_catch. specialize (Hm db HJ).
  destruct (m db) as [[a|e] db1]; simpl in *; [exact Hm | now apply Hh].
Qed.

(** The rule of a loop: [I done s] relates the elements already processed,
    the local variables and the database. *)
Lemma returns_foldM {A S} (I : list A -> S -> Db -> Prop) (body : S -> A -> M S) :
  (forall done x s, returns (I done s) (body s x) (fun s' => I (done ++ [x]) s')) ->
  forall l done s,
    returns (I done s) (foldM l s body) (fun s' => I (done ++ l) s').
Proof.
  intros Hb. induction l as [|x l IH]; intros done s db HI; simpl.
  - now rewrite app_nil_r.
  - unfold bind. specialize (Hb done x s db HI).
    destruct (body s x db) as [[s'|e] db1]; [|exact Logic.I].
    specialize (IH (done ++ [x]) s' db1 Hb).
    rewrite <- app_assoc in IH. exact IH.
Qed.

(** *** The effect of the statements on [entries] *)

Lemma annotateEntry_entries (i : Z) (d t g : jsstring) (rf : list jsstring)
    (c : Q) (lr : bool) (db : Db) :
  entries (snd (annotateEntry i d t g rf c lr db))
  = map (fun e => if id e =? i then set_annotation d t g rf c lr e else e)
        (entries db).
Proof.
  unfold annotateEntry, bind, update_entries, modify, gets, mapping_of,
    delete_fts, delete_fts_map, insert_fts, insert_fts_map, ret. simpl.
  destruct (find _ (fts_map db)); simpl;
    match goal with |- context [existsb ?f ?l] => destruct (existsb f l) end;
    reflexivity.
Qed.

Lemma insertEntry_entries (p : Z) (fp : option jsstring) (t : EntryType)
    (calls : list jsobj) (now : Z) (db : Db) :
  entries (snd (insertEntry (Some p) fp t calls now db))
  = entries db
    ++ [mkEntry (next_auto (entries_seq db) (map id (entries db))) p fp t calls
                None None [] None None 0 pending now].
Proof.
  unfold insertEntry, bind, insert_entries, insert_fts, insert_fts_map, ret.
  simpl.
  match goal with |- context [existsb ?f ?l] => destruct (existsb f l) end;
    reflexivity.
Qed.

Lemma insertSummaryEntry_entries (p : Z) (s t : jsstring) (now : Z) (db : Db) :
  entries (snd (insertSummaryEntry (Some p) s t now db))
  = entries db
    ++ [mkEntry (next_auto (entries_seq db) (map id (entries db))) p None
                summary [] (Some s) (Some t) [] None None 0 annotated now].
Proof.
  unfold insertSummaryEntry, bind, insert_entries, insert_fts, insert_fts_map,
    ret. simpl.
  match goal with |- context [existsb ?f ?l] => destruct (existsb f l) end;
    reflexivity.
Qed.

(** ** Status closure of the Stop hook *)

Lemma filter_nil {A} (f : A -> bool) (l : list A) :
  filter f l = [] -> forall x, In x l -> f x = false.
Proof.
  intros H x Hx. destruct (f x) eqn:E; [|reflexivity].
  assert (Hin : In x (filter f l)) by (apply filter_In; auto).
  rewrite H in Hin. destruct Hin.
Qed.

Lemma annotate_step (es0 done : list EntryRow) (x : EntryRow)
    (d t g : jsstring) (rf : list jsstring) (c : Q) (lr : bool) (db : Db) :
  annotated_or_untouched es0 done db ->
  annotated_or_untouched es0 (done ++ [x])
    (snd (annotateEntry (id x) d t g rf c lr db)).
Proof.
  unfold annotated_or_untouched. intros H.
  rewrite annotateEntry_entries. apply Forall_map.
  eapply Forall_impl; [|exact H]. intros r Hr. simpl.
  destruct (id r =? id x) eqn:E; [now left|].
  destruct Hr as [Hr | [Hin Hnot]]; [now left | right].
  split; [exact Hin|]. rewrite map_app, in_app_iff. simpl.
  apply Z.eqb_neq in E. intros [H' | [H' | []]]; [now apply Hnot | congruence].
Qed.

Lemma closed_after_loop (p : Z) (db0 db : Db) :
  annotated_or_untouched (entries db0) (getPendingEntries db0 (Some p)) db ->
  closed_at p db.
Proof.
  unfold annotated_or_untouched, closed_at. intros H.
  eapply Forall_impl; [|exact H]. intros r Hr Hp. simpl in Hr.
  destruct Hr as [Hr | [Hin Hnot]].
  - unfold is_pending_or_annotating. now rewrite Hr.
  - destruct (is_pending_or_annotating r) eqn:E; [exfalso | reflexivity].
    apply Hnot, in_map. simpl. apply filter_In. split; [exact Hin|].
    rewrite E, andb_true_r. now apply Z.eqb_eq.
Qed.

Lemma closed_at_app (p : Z) (es : list EntryRow) (r : EntryRow) :
  Forall (fun e => prompt_index e = p -> is_pending_or_annotating e = false) es ->
  is_pending_or_annotating r = false ->
  Forall (fun e => prompt_index e = p -> is_pending_or_annotating e = false)
         (es ++ [r]).
Proof. intros H Hr. apply Forall_app. split; [exact H | constructor; auto]. Qed.

Section StopHook.

Variable toLowerCase : jsstring -> jsstring.

(** A completed run of [selfAnnotatePrompt] leaves no entry of the prompt
    pending or annotating. *)
Lemma selfAnnotatePrompt_closed (p now : Z) (db db' : Db) :
  selfAnnotatePrompt toLowerCase (Some p) now db = (Ok tt, db') ->
  closed_at p db'.
Proof.
  unfold selfAnnotatePrompt, bind, gets.
  destruct (getPendingEntries db (Some p)) as [|e0 rest] eqn:Ep.
  - intros H. injection H as <-. unfold closed_at. apply Forall_forall.
    intros r Hr Hp.
    pose proof (filter_nil _ _ Ep r Hr) as Hf. simpl in Hf.
    apply Z.eqb_eq in Hp. now rewrite Hp in Hf.
  - match goal with
    | |- context [foldM ?l ?s ?body db] =>
        pose proof (returns_foldM
          (fun done (_ : list jsstring) => annotated_or_untouched (entries db) done)
          body) as Hloop;
        specialize (fun Hb => Hloop Hb l [] s db);
        destruct (foldM l s body db) as [[parts|ex] db1] eqn:Eloop
    end; [|discriminate].
    assert (H1 : annotated_or_untouched (entries db) (e0 :: rest) db1).
    { apply Hloop.
      - intros done x s dbx HI. unfold bind.
        match goal with
        | |- context [annotateEntry ?i ?d ?t ?g ?rf ?c ?lr dbx] =>
            pose proof (annotate_step (entries db) done x d t g rf c lr dbx HI) as Hs;
            destruct (annotateEntry i d t g rf c lr dbx) as [[[]|ex] dbx']
        end; [exact Hs | exact Logic.I].
      - apply Forall_forall. intros r Hr. right. split; [exact Hr | intros []]. }
    rewrite <- Ep in H1. apply closed_after_loop in H1.
    match goal with
    | |- context [insertSummaryEntry ?pi ?s ?t ?n db1] =>
        pose proof (insertSummaryEntry_entries p s t n db1) as Hs;
        destruct (insertSummaryEntry pi s t n db1) as [[i|ex] db2]
    end; [|discriminate].
    intros H. injection H as <-. simpl in Hs.
    unfold closed_at. rewrite Hs. apply closed_at_app; [exact H1 | reflexivity].
Qed.

End StopHook.

(** ** Summaries per prompt *)

Lemma extends_refl (Q : EntryRow -> Prop) (db : Db) : extends_with Q db db.
Proof. exists []. rewrite app_nil_r. split; [reflexivity | constructor]. Qed.

Lemma insertEntry_extends (db0 : Db) (pi : option Z) (fp : option jsstring)
    (t : EntryType) (calls : list jsobj) (now : Z) :
  t <> summary ->
  keeps (extends_with fresh_row db0) (insertEntry pi fp t calls now).
Proof.
  intros Ht db (added & He & Ha). destruct pi as [p|]; [|now exists added].
  unfold extends_with. rewrite insertEntry_entries, He, <- app_assoc.
  eexists. split; [reflexivity|]. apply Forall_app. split; [exact Ha|].
  constructor; [|constructor]. split; [exact Ht | reflexivity].
Qed.

Lemma classifyTool_not_summary (name : jsstring) : classifyTool name <> summary.
Proof.
  unfold classifyTool.
  destruct (str_eqb name (lit "Bash")); [discriminate|].
  destruct (_ || _); [discriminate|].
  destruct (str_eqb name (lit "Task")); discriminate.
Qed.

Lemma flushToEntries_extends (pi : option Z) (calls : list BufferedCall)
    (now : Z) (db : Db) :
  extends_with fresh_row db (snd (flushToEntries pi calls now db)).
Proof.
  assert (H : keeps (extends_with fresh_row db) (flushToEntries pi calls now)).
  { unfold flushToEntries. destruct (classify_calls calls) as [fg st].
    apply keeps_bind.
    - apply keeps_foldM. intros ids [fp group].
      apply keeps_bind; [|intros; apply keeps_ret].
      apply insertEntry_extends. destruct (existsb _ group); discriminate.
    - intros ids. apply keeps_foldM. intros ids' call.
      apply keeps_bind; [|intros; apply keeps_ret].
      apply insertEntry_extends, classifyTool_not_summary. }
  apply H, extends_refl.
Qed.

Lemma count_summaries_extends (p : Z) (db db' : Db) :
  extends_with fresh_row db db' -> count_summaries p db' = count_summaries p db.
Proof.
  intros (added & He & Ha). unfold count_summaries.
  rewrite He, map_app, filter_app, length_app.
  replace (filter _ (map _ added)) with (@nil (Z * EntryType)); [simpl; lia|].
  symmetry. clear He.
  induction Ha as [|r added [Hr _] _ IH]; simpl; [reflexivity|].
  destruct (entry_type r); simpl; try exact IH. congruence.
Qed.








Section Summaries.

Variable toLowerCase : jsstring -> jsstring.



End Summaries.



(** ** Failure of the LLM annotator *)

Import Annotate.

Lemma markFailed_entries (p : Z) (db : Db) :
  entries (snd (markFailed p db))
  = map (fun e => if (prompt_index e =? p) && is_pending_or_annotating e
                  then set_status failed e else e) (entries db).
Proof. reflexivity. Qed.

Lemma markFailed_closes (p : Z) (db : Db) :
  Forall (fun r => prompt_index r = p ->
                   annotation_status r = failed \/ annotation_status r = annotated)
         (entries (snd (markFailed p db))).
Proof.
  rewrite markFailed_entries. apply Forall_map, Forall_forall. intros e _.
  destruct ((prompt_index e =? p) && is_pending_or_annotating e) eqn:E.
  - intros _. now left.
  - intros Hp. apply Z.eqb_eq in Hp. rewrite Hp in E. simpl in E.
    unfold is_pending_or_annotating in E.
    destruct (annotation_status e); simpl in E; try discriminate; auto.
Qed.

Lemma markAnnotating_entries (ids : list Z) (db : Db) :
  ids <> [] ->
  entries (snd (markAnnotating ids db))
  = map (fun e => if existsb (Z.eqb (id e)) ids then set_status annotating e
                  else e) (entries db).
Proof. destruct ids; [congruence | reflexivity]. Qed.

Lemma existsb_In_ids (i : Z) (ids : list Z) :
  In i ids -> existsb (Z.eqb i) ids = true.
Proof. intros H. apply existsb_exists. exists i. split; [exact H | apply Z.eqb_refl]. Qed.

(** When the [try] block throws, the run ends with [markFailed]. *)
Lemma annotatePrompt_raised (p : Z) (outcome : LlmOutcome) (now : Z) (db : Db) :
  raised p outcome now db = true ->
  snd (annotatePrompt p outcome now db)
  = snd (markFailed p
           (snd (annotate_try p outcome (input_set db p) now
                   (snd (markAnnotating (map id (input_set db p)) db))))).
Proof.
  unfold raised, try_result, annotatePrompt, bind, gets, try_catch.
  destruct (input_set db p) as [|e l] eqn:Ei; [discriminate|].
  destruct (markAnnotating (map id (e :: l)) db) as [[[]|ex0] dbA] eqn:Em;
    [|discriminate Em].
  cbn [snd fst].
  destruct (annotate_try p outcome (e :: l) now dbA) as [[[]|ex] db1];
    [discriminate | reflexivity].
Qed.

(** C4, as the specification words it, fails.  The input set of the run is
    entries 2 and 3 of the current prompt and the retry, entry 1 of prompt 1.
    When the second annotation of the response is [null], the run raises
    after entry 2 has been annotated: entry 2 stays [annotated] and the retry
    stays [annotating]; only entry 3 is [failed].  When the provider call
    fails, entries 2 and 3 are [failed] and the retry stays [annotating]. *)
Lemma C4_input_entries_not_failed :
  map id (input_set Samples.retry_db 2) = [2; 3; 1]
  /\ raised 2 (Parsed Samples.partial_response) 300 Samples.retry_db = true
  /\ map (fun e => (id e, annotation_status e))
         (entries (snd (annotatePrompt 2 (Parsed Samples.partial_response) 300
                          Samples.retry_db)))
     = [(1, annotating); (2, annotated); (3, failed)]
  /\ raised 2 CallRejected 300 Samples.retry_db = true
  /\ map (fun e => (id e, annotation_status e))
         (entries (snd (annotatePrompt 2 CallRejected 300 Samples.retry_db)))
     = [(1, annotating); (2, failed); (3, failed)].
Proof. vm_compute. repeat split. Qed.

(** ** Idempotence of annotation *)

Lemma find_app_last {A} (f : A -> bool) (l : list A) (x : A) :
  find f (l ++ [x])
  = match find f l with
    | Some y => Some y
    | None => if f x then Some x else None
    end.
Proof.
  induction l as [|y l IH]; simpl; [reflexivity|].
  destruct (f y); [reflexivity | exact IH].
Qed.

Lemma find_filter {A} (f g : A -> bool) (l : list A) :
  find f (filter g l) = find (fun x => g x && f x) l.
Proof.
  induction l as [|y l IH]; simpl; [reflexivity|].
  destruct (g y); simpl; [destruct (f y); [reflexivity | exact IH] | exact IH].
Qed.

Lemma filter_map_swap {A B} (p : B -> bool) (g : A -> B) (l : list A) :
  filter p (map g l) = map g (filter (fun x => p (g x)) l).
Proof.
  induction l as [|y l IH]; simpl; [reflexivity|].
  destruct (p (g y)); simpl; now rewrite IH.
Qed.

Lemma filter_filter {A} (p q : A -> bool) (l : list A) :
  filter p (filter q l) = filter (fun x => q x && p x) l.
Proof.
  induction l as [|y l IH]; simpl; [reflexivity|].
  destruct (q y); simpl; [destruct (p y); now rewrite IH | exact IH].
Qed.

Lemma filter_all {A} (p : A -> bool) (l : list A) :
  (forall x, In x l -> p x = true) -> filter p l = l.
Proof.
  intros H. induction l as [|y l IH]; simpl; [reflexivity|].
  rewrite (H y (or_introl eq_refl)), IH; [reflexivity|].
  intros x Hx. apply H. now right.
Qed.

Lemma filter_none {A} (p : A -> bool) (l : list A) :
  (forall x, In x l -> p x = false) -> filter p l = [].
Proof.
  intros H. induction l as [|y l IH]; simpl; [reflexivity|].
  rewrite (H y (or_introl eq_refl)). apply IH.
  intros x Hx. apply H. now right.
Qed.

Lemma nodup_ids_inj {A} (key : A -> Z) (l : list A) :
  nodup_ids (map key l) = true ->
  forall a b, In a l -> In b l -> key a = key b -> a = b.
Proof.
  induction l as [|x l IH]; simpl; [intros _ a b []|].
  intros H. apply andb_true_iff in H as [Hx Hl].
  apply negb_true_iff in Hx. rewrite existsb_false in Hx.
  assert (Hfresh : forall y, In y l -> key x <> key y).
  { intros y Hy E. specialize (Hx (key y) (in_map key l y Hy)).
    apply Z.eqb_neq in Hx. contradiction. }
  intros a b [<- | Ha] [<- | Hb] E; auto.
  - exfalso. exact (Hfresh b Hb E).
  - exfalso. exact (Hfresh a Ha (eq_sym E)).
Qed.

Lemma schema_ok_map_wf (db : Db) : schema_ok db = true -> map_wf db.
Proof.
  unfold schema_ok, map_wf. intros H.
  apply andb_true_iff in H as [H H3]. apply andb_true_iff in H as [H1 H2].
  repeat split.
  - now apply nodup_ids_inj.
  - now apply nodup_ids_inj.
  - intros m Hm. rewrite forallb_forall in H3. specialize (H3 m Hm).
    apply existsb_exists in H3 as (f & Hf & E). apply Z.eqb_eq in E. eauto.
Qed.

(** *** One call of [annotateEntry] *)

(** The row of [fts_map] found for a rowid once the rows of entry [i] are
    deleted. *)
Lemma find_rowid_without (ms : list FtsMapRow) (i q : Z) :
  (forall m1 m2, In m1 ms -> In m2 ms -> fts_rowid m1 = fts_rowid m2 -> m1 = m2) ->
  find (fun m => negb (entry_id m =? i) && (fts_rowid m =? q)) ms
  = match find (fun m => fts_rowid m =? q) ms with
    | Some m => if entry_id m =? i then None else Some m
    | None => None
    end.
Proof.
  induction ms as [|m ms IH]; intros U; simpl; [reflexivity|].
  destruct (fts_rowid m =? q) eqn:Eq.
  - destruct (entry_id m =? i) eqn:Ei; simpl; [|reflexivity].
    apply find_none_iff. intros m' Hm'.
    destruct (fts_rowid m' =? q) eqn:Eq'; [|apply andb_false_r].
    apply Z.eqb_eq in Eq, Eq'.
    assert (m = m') by (apply U; simpl; auto; congruence).
    subst m'. now rewrite Ei.
  - rewrite andb_false_r. apply IH.
    intros m1 m2 H1 H2. apply U; now right.
Qed.

Lemma mapping_of_some (db : Db) (i r0 : Z) :
  mapping_of db i = Some r0 ->
  exists m0, In m0 (fts_map db) /\ entry_id m0 = i /\ fts_rowid m0 = r0.
Proof.
  unfold mapping_of. destruct (find _ (fts_map db)) as [m0|] eqn:E; [|discriminate].
  intros H. injection H as <-. apply find_some in E as [Hin Hi].
  apply Z.eqb_eq in Hi. eauto.
Qed.

Lemma mapping_of_none (db : Db) (i : Z) :
  mapping_of db i = None ->
  forall m, In m (fts_map db) -> (entry_id m =? i) = false.
Proof.
  unfold mapping_of. destruct (find _ (fts_map db)) eqn:E; [discriminate|].
  intros _. exact (find_none _ _ E).
Qed.

(** Whether a document is mapped to entry [i], in terms of its rowid. *)
Lemma mapped_to_rowid (db : Db) (i : Z) (f : FtsRow) :
  map_wf db ->
  mapped_to i (content_of (fts_map db) f)
  = match mapping_of db i with
    | Some r0 => rowid f =? r0
    | None => false
    end.
Proof.
  intros (U1 & U2 & _). unfold mapped_to, content_of. simpl.
  destruct (mapping_of db i) as [r0|] eqn:Em.
  - destruct (mapping_of_some db i r0 Em) as (m0 & H0 & Hi & Hr).
    destruct (find _ (fts_map db)) as [m|] eqn:E; simpl.
    + apply find_some in E as [Hin Hq]. apply Z.eqb_eq in Hq.
      destruct (entry_id m =? i) eqn:Ei.
      * apply Z.eqb_eq in Ei. assert (m = m0) by (apply U2; congruence).
        subst m. symmetry. apply Z.eqb_eq. congruence.
      * symmetry. apply Z.eqb_neq. intros Hf.
        assert (m = m0) by (apply U1; congruence).
        subst m. apply Z.eqb_neq in Ei. contradiction.
    + symmetry. apply Z.eqb_neq. intros Hf.
      pose proof (find_none _ _ E m0 H0) as Hn. simpl in Hn.
      apply Z.eqb_neq in Hn. congruence.
  - destruct (find _ (fts_map db)) as [m|] eqn:E; simpl; [|reflexivity].
    apply find_some in E as [Hin _]. exact (mapping_of_none db i Em m Hin).
Qed.

Lemma file_path_of_update (db : Db) (i j : Z) (g : EntryRow -> EntryRow) :
  (forall e, id (g e) = id e /\ file_path (g e) = file_path e) ->
  file_path_of
    (with_entries db (map (fun e => if id e =? j then g e else e) (entries db))
                  (entries_seq db)) i
  = file_path_of db i.
Proof.
  intros Hg. unfold file_path_of. simpl.
  induction (entries db) as [|e es IH]; simpl; [reflexivity|].
  destruct (id e =? j); simpl.
  - rewrite (proj1 (Hg e)).
    destruct (id e =? i); [now rewrite (proj2 (Hg e)) | exact IH].
  - destruct (id e =? i); [reflexivity | exact IH].
Qed.

(** A row of [fts_map] of another entry keeps its document. *)
Lemma doc_survives (db : Db) (i : Z) (m : FtsMapRow) :
  map_wf db -> In m (fts_map db) -> (entry_id m =? i) = false ->
  exists f, In f (other_docs i db) /\ rowid f = fts_rowid m.
Proof.
  intros Hwf Hm Hi. pose proof Hwf as (U1 & U2 & D).
  destruct (D m Hm) as (f & Hf & Hr). exists f. split; [|exact Hr].
  unfold other_docs. apply filter_In. split; [exact Hf|].
  apply negb_true_iff. rewrite (mapped_to_rowid db i f Hwf).
  destruct (mapping_of db i) as [r0|] eqn:Em; [|reflexivity].
  destruct (mapping_of_some db i r0 Em) as (m0 & H0 & Hi0 & Hr0).
  apply Z.eqb_neq. intros E.
  assert (m = m0) by (apply U1; congruence).
  subst m. apply Z.eqb_neq in Hi. contradiction.
Qed.

Lemma new_rowid_unmapped (db : Db) (i : Z) (m : FtsMapRow) :
  map_wf db ->
  In m (filter (fun m => negb (entry_id m =? i)) (fts_map db)) ->
  fts_rowid m < next_rowid (other_docs i db).
Proof.
  intros Hwf Hm. apply filter_In in Hm as [Hm Hi]. apply negb_true_iff in Hi.
  destruct (doc_survives db i m Hwf Hm Hi) as (f & Hf & <-).
  now apply next_rowid_fresh.
Qed.

(** Under the constraints of the schema [annotateEntry] completes, and the
    database it leaves is [annotated_db]. *)
Lemma annotateEntry_run (i : Z) (d t g : jsstring) (rf : list jsstring) (c : Q)
    (lr : bool) (db : Db) :
  map_wf db ->
  annotateEntry i d t g rf c lr db = (Ok tt, annotated_db i d t g rf c lr db).
Proof.
  intros Hwf.
  assert (Hfp : file_path_of
                  (with_entries db
                     (map (fun e => if id e =? i
                                    then set_annotation d t g rf c lr e else e)
                          (entries db)) (entries_seq db)) i
                = file_path_of db i).
  { apply file_path_of_update. intros e. split; reflexivity. }
  assert (Hchk : existsb (fun m => (fts_rowid m =? next_rowid (other_docs i db))
                                   || (entry_id m =? i))
                   (filter (fun m => negb (entry_id m =? i)) (fts_map db)) = false).
  { apply existsb_false. intros m Hm.
    pose proof (new_rowid_unmapped db i m Hwf Hm) as Hlt.
    apply filter_In in Hm as [_ Hi]. apply negb_true_iff in Hi. rewrite Hi.
    rewrite orb_false_r. apply Z.eqb_neq. lia. }
  assert (Hdocs : other_docs i db
                  = match mapping_of db i with
                    | Some r0 => filter (fun f => negb (rowid f =? r0)) (entries_fts db)
                    | None => entries_fts db
                    end).
  { unfold other_docs. destruct (mapping_of db i) as [r0|] eqn:Em.
    - apply filter_ext. intros f. now rewrite (mapped_to_rowid db i f Hwf), Em.
    - apply filter_all. intros f _. now rewrite (mapped_to_rowid db i f Hwf), Em. }
  unfold annotated_db. rewrite Hdocs in *.
  unfold annotateEntry, bind, update_entries, modify, gets. rewrite Hfp.
  change (mapping_of (with_entries db _ (entries_seq db)) i) with (mapping_of db i).
  destruct (mapping_of db i) as [r0|] eqn:Em.
  - unfold delete_fts, delete_fts_map, modify, insert_fts, insert_fts_map.
    cbn -[next_rowid]. rewrite Hchk. reflexivity.
  - unfold ret, insert_fts, insert_fts_map. cbn -[next_rowid].
    rewrite (filter_all _ (fts_map db)) in *.
    + rewrite Hchk. reflexivity.
    + intros m Hm. now rewrite (mapping_of_none db i Em m Hm).
    + intros m Hm. now rewrite (mapping_of_none db i Em m Hm).
Qed.

Lemma annotated_db_wf (i : Z) (d t g : jsstring) (rf : list jsstring) (c : Q)
    (lr : bool) (db : Db) :
  map_wf db -> map_wf (annotated_db i d t g rf c lr db).
Proof.
  intros Hwf. pose proof Hwf as (U1 & U2 & D).
  pose proof (new_rowid_unmapped db i) as Hlt.
  unfold map_wf, annotated_db. simpl. repeat split.
  - intros m1 m2 H1 H2 E.
    apply in_app_or in H1 as [H1 | [<- | []]];
      apply in_app_or in H2 as [H2 | [<- | []]]; simpl in E.
    + apply filter_In in H1 as [H1 _]. apply filter_In in H2 as [H2 _]. auto.
    + specialize (Hlt m1 Hwf H1). lia.
    + specialize (Hlt m2 Hwf H2). lia.
    + reflexivity.
  - intros m1 m2 H1 H2 E.
    apply in_app_or in H1 as [H1 | [<- | []]];
      apply in_app_or in H2 as [H2 | [<- | []]]; simpl in E.
    + apply filter_In in H1 as [H1 _]. apply filter_In in H2 as [H2 _]. auto.
    + apply filter_In in H1 as [_ H1]. apply negb_true_iff, Z.eqb_neq in H1.
      contradiction.
    + apply filter_In in H2 as [_ H2]. apply negb_true_iff, Z.eqb_neq in H2.
      symmetry in E. contradiction.
    + reflexivity.
  - intros m Hm. apply in_app_or in Hm as [Hm | [<- | []]].
    + apply filter_In in Hm as [Hm Hi]. apply negb_true_iff in Hi.
      destruct (doc_survives db i m Hwf Hm Hi) as (f & Hf & Hr).
      exists f. split; [apply in_or_app; now left | exact Hr].
    + eexists. split; [apply in_or_app; right; now left | reflexivity].
Qed.

Lemma annotated_db_contents (i : Z) (d t g : jsstring) (rf : list jsstring)
    (c : Q) (lr : bool) (db : Db) :
  map_wf db ->
  fts_contents (annotated_db i d t g rf c lr db)
  = reindex i (file_path_of db i) d t g (fts_contents db).
Proof.
  intros Hwf. pose proof Hwf as (U1 & U2 & D).
  unfold fts_contents, reindex, annotated_db. simpl.
  set (r := next_rowid (other_docs i db)).
  set (ms1 := filter (fun m => negb (entry_id m =? i)) (fts_map db)).
  assert (Hnew : find (fun m => fts_rowid m =? r) ms1 = None).
  { apply find_none_iff. intros m Hm.
    pose proof (new_rowid_unmapped db i m Hwf Hm). fold r in H.
    apply Z.eqb_neq. lia. }
  rewrite map_app. f_equal.
  - rewrite filter_map_swap. fold (other_docs i db).
    apply map_ext_in. intros f Hf.
    pose proof (next_rowid_fresh _ _ Hf) as Hlt. fold r in Hlt.
    apply filter_In in Hf as [Hf Hnm]. apply negb_true_iff in Hnm.
    unfold content_of. f_equal.
    rewrite find_app_last. simpl.
    replace (r =? rowid f) with false by (symmetry; apply Z.eqb_neq; lia).
    unfold ms1. rewrite find_filter, (find_rowid_without _ i (rowid f) U1).
    unfold mapped_to, content_of in Hnm. simpl in Hnm.
    destruct (find (fun m => fts_rowid m =? rowid f) (fts_map db)) as [m|];
      [|reflexivity].
    simpl in Hnm. now rewrite Hnm.
  - simpl. unfold content_of. simpl. rewrite find_app_last, Hnew. simpl.
    now rewrite Z.eqb_refl.
Qed.

(** *** An id without an entry *)

Lemma bijection_schema_ok (db : Db) : fts_bijection db = true -> schema_ok db = true.
Proof.
  unfold fts_bijection. intros H.
  do 5 (apply andb_true_iff in H as [H ?]). exact H.
Qed.

Lemma file_path_of_unknown (db : Db) (i : Z) :
  existsb (fun e => id e =? i) (entries db) = false -> file_path_of db i = [].
Proof.
  intros H. rewrite existsb_false in H. unfold file_path_of.
  now rewrite (proj2 (find_none_iff _ _) H).
Qed.

(** C10.  On a database that satisfies the key constraints of [fts_map],
    when no entry has id [i] (an id invented by the LLM response, which
    [annotatePrompt] passes on unchecked), [annotateEntry] completes, leaves
    [entries] unchanged and inserts one new last FTS document, with an empty
    [file_path], and one [fts_map] row that maps it to [i]; the bijection
    does not hold afterwards.  When it held before, nothing is deleted: the
    two tables are the old ones with the new row appended. *)
Theorem C10_annotate_unknown_id (db : Db) (i : Z) (d t g : jsstring)
    (rf : list jsstring) (c : Q) (lr : bool) :
  schema_ok db = true ->
  existsb (fun e => id e =? i) (entries db) = false ->
  exists db' r old_docs old_map,
    annotateEntry i d t g rf c lr db = (Ok tt, db')
    /\ entries db' = entries db
    /\ entries_fts db' = old_docs ++ [mkFts r [] d t g]
    /\ fts_map db' = old_map ++ [mkMap r i]
    /\ incl old_docs (entries_fts db) /\ incl old_map (fts_map db)
    /\ fts_bijection db' = false
    /\ (fts_bijection db = true ->
        old_docs = entries_fts db /\ old_map = fts_map db).
Proof.
  intros Hs Hi. pose proof (schema_ok_map_wf db Hs) as Hwf.
  exists (annotated_db i d t g rf c lr db), (next_rowid (other_docs i db)),
    (other_docs i db), (filter (fun m => negb (entry_id m =? i)) (fts_map db)).
  split; [now apply annotateEntry_run|].
  unfold annotated_db. simpl. rewrite (file_path_of_unknown db i Hi).
  split; [apply map_if_false; now apply existsb_false|].
  split; [reflexivity|]. split; [reflexivity|].
  split; [unfold other_docs; apply incl_filter|]. split; [apply incl_filter|].
  split.
  - match goal with |- fts_bijection ?x = false => set (db' := x) end.
    destruct (fts_bijection db') eqn:E; [exfalso | reflexivity].
    assert (Hin : In (mkMap (next_rowid (other_docs i db)) i) (fts_map db'))
      by (simpl; apply in_or_app; right; now left).
    destruct (bijection_map_rows db' _ E Hin) as [(e & He & Heq) _].
    simpl in He, Heq. rewrite existsb_false in Hi.
    apply in_map_iff in He as (e0 & <- & He0).
    specialize (Hi e0 He0). rewrite Hi in Heq. simpl in Heq.
    apply Z.eqb_neq in Hi. contradiction.
  - intros Hb.
    assert (Hmap : forall m, In m (fts_map db) -> (entry_id m =? i) = false).
    { intros m Hm. destruct (bijection_map_rows db m Hb Hm) as [(e & He & Heq) _].
      rewrite <- Heq. rewrite existsb_false in Hi. apply Hi, He. }
    split.
    + unfold other_docs. apply filter_all. intros f _.
      rewrite (mapped_to_rowid db i f Hwf). unfold mapping_of.
      now rewrite (proj2 (find_none_iff _ _) Hmap).
    + apply filter_all. intros m Hm. now rewrite (Hmap m Hm).
Qed.

(** A concrete instance: [annotateEntry] is given id 999 on a session that
    has three entries. *)
Lemma C10_annotate_unknown_id_witness :
  schema_ok Samples.indexed_db = true
  /\ existsb (fun e => id e =? 999) (entries Samples.indexed_db) = false
  /\ exists db' r old_docs old_map,
       annotateEntry 999 (lit "Tuned the cache") (lit "cache") (lit "perf") []
                     (1 # 2) false Samples.indexed_db = (Ok tt, db')
       /\ entries db' = entries Samples.indexed_db
       /\ entries_fts db'
          = old_docs ++ [mkFts r [] (lit "Tuned the cache") (lit "cache") (lit "perf")]
       /\ fts_map db' = old_map ++ [mkMap r 999]
       /\ incl old_docs (entries_fts Samples.indexed_db)
       /\ incl old_map (fts_map Samples.indexed_db)
       /\ fts_bijection db' = false
       /\ (fts_bijection Samples.indexed_db = true ->
           old_docs = entries_fts Samples.indexed_db
           /\ old_map = fts_map Samples.indexed_db).
Proof.
  split; [vm_compute; reflexivity|]. split; [vm_compute; reflexivity|].
  apply C10_annotate_unknown_id; vm_compute; reflexivity.
Defined.

(** The same through [annotatePrompt]: the response annotates entry 2 and an
    entry 999 that does not exist.  The run completes, and [fts_map] then
    has a row for 999 although the bijection held before. *)
Lemma annotatePrompt_invented_id :
  let response :=
    mkResult (Some [Some (Samples.ann 2 "Read b.ts" "b.ts" "src");
                    Some (Samples.ann 999 "Tuned the cache" "cache" "perf")])
             None None in
  let run := annotatePrompt 2 (Parsed response) 300 Samples.retry_db in
  fts_bijection Samples.retry_db = true
  /\ fst run = Ok tt
  /\ map id (entries (snd run)) = [1; 2; 3]
  /\ map entry_id (fts_map (snd run)) = [1; 3; 2; 999]
  /\ fts_bijection (snd run) = false.
Proof. vm_compute. repeat split. Qed.

(** *** The annotation loop *)

Lemma ann_upd_base (a : Annotation) (r : EntryRow) : same_base (ann_upd a r) r.
Proof.
  unfold ann_upd, same_base.
  destruct (id r =? ann_entry_id a); simpl; repeat split; reflexivity.
Qed.

Lemma same_base_refl (r : EntryRow) : same_base r r.
Proof. unfold same_base. repeat split; reflexivity. Qed.

Lemma same_base_trans (a b c : EntryRow) :
  same_base a b -> same_base b c -> same_base a c.
Proof.
  unfold same_base. intros (?&?&?&?&?&?) (?&?&?&?&?&?).
  repeat split; congruence.
Qed.

Lemma ann_row_base (anns : list Annotation) (r : EntryRow) :
  same_base (ann_row anns r) r.
Proof.
  revert r; induction anns as [|a anns IH]; intros r; simpl.
  - apply same_base_refl.
  - eapply same_base_trans; [apply IH | apply ann_upd_base].
Qed.

(** Two rows with the same base columns are annotated alike, unless no
    annotation names them. *)
Lemma ann_row_same_base (anns : list Annotation) (r r' : EntryRow) :
  same_base r r' ->
  ann_row anns r = ann_row anns r'
  \/ (ann_row anns r = r /\ ann_row anns r' = r').
Proof.
  revert r r'; induction anns as [|a anns IH]; intros r r' Hb; simpl.
  - right. split; reflexivity.
  - fold (ann_row anns (ann_upd a r)). fold (ann_row anns (ann_upd a r')).
    unfold ann_upd. destruct Hb as (Hi & Hp & Hf & Ht & Hc & Hn).
    rewrite <- Hi. destruct (id r =? ann_entry_id a).
    + left. f_equal. unfold set_annotation. congruence.
    + apply IH. repeat split; assumption.
Qed.

Lemma ann_row_idempotent (anns : list Annotation) (r : EntryRow) :
  ann_row anns (ann_row anns r) = ann_row anns r.
Proof.
  pose proof (ann_row_base anns r) as Hb.
  destruct (ann_row_same_base anns (ann_row anns r) r Hb) as [H | [H _]];
    [exact H|].
  destruct (ann_row_same_base anns r (ann_row anns r)) as [H' | [H1 H2]].
  - destruct Hb as (?&?&?&?&?&?). repeat split; congruence.
  - congruence.
  - exact H2.
Qed.

Lemma file_path_of_map (db db' : Db) (g : EntryRow -> EntryRow) (i : Z) :
  (forall e, same_base (g e) e) ->
  entries db' = map g (entries db) ->
  file_path_of db' i = file_path_of db i.
Proof.
  intros Hg He. unfold file_path_of. rewrite He. clear He.
  induction (entries db) as [|e es IH]; simpl; [reflexivity|].
  destruct (Hg e) as (Hi & _ & Hf & _). rewrite Hi.
  destruct (id e =? i); [now rewrite Hf | exact IH].
Qed.

Lemma ann_contents_ext (fp fp' : Z -> jsstring) (anns : list Annotation)
    (c : list content) :
  (forall i, fp i = fp' i) -> ann_contents fp anns c = ann_contents fp' anns c.
Proof.
  intros H. revert c; induction anns as [|a anns IH]; intros c; simpl;
    [reflexivity|].
  replace (ann_reindex fp a c) with (ann_reindex fp' a c);
    [apply IH | unfold ann_reindex; now rewrite H].
Qed.

Lemma ann_contents_split (fp : Z -> jsstring) (anns : list Annotation)
    (c : list content) :
  ann_contents fp anns c = filter (untouched anns) c ++ ann_contents fp anns [].
Proof.
  revert c; induction anns as [|a anns IH]; intros c.
  - simpl. rewrite app_nil_r. symmetry. now apply filter_all.
  - change (ann_contents fp (a :: anns) c)
      with (ann_contents fp anns (ann_reindex fp a c)).
    change (ann_contents fp (a :: anns) [])
      with (ann_contents fp anns (ann_reindex fp a [])).
    rewrite (IH (ann_reindex fp a c)), (IH (ann_reindex fp a [])).
    unfold ann_reindex, reindex. rewrite filter_app, filter_filter.
    simpl filter at 3. rewrite app_nil_l, <- app_assoc. reflexivity.
Qed.

Lemma ann_contents_touched (fp : Z -> jsstring) (anns : list Annotation) :
  forall x, In x (ann_contents fp anns []) -> untouched anns x = false.
Proof.
  induction anns as [|a anns IH]; intros x Hx; [destruct Hx|].
  change (ann_contents fp (a :: anns) [])
    with (ann_contents fp anns (ann_reindex fp a [])) in Hx.
  rewrite ann_contents_split in Hx. apply in_app_or in Hx as [Hx | Hx].
  - apply filter_In in Hx as [Hx _]. unfold ann_reindex, reindex in Hx.
    simpl in Hx. destruct Hx as [<- | []]. simpl.
    unfold mapped_to. simpl. now rewrite Z.eqb_refl.
  - simpl. rewrite (IH x Hx). apply andb_false_r.
Qed.

Lemma ann_contents_idempotent (fp : Z -> jsstring) (anns : list Annotation)
    (c : list content) :
  ann_contents fp anns (ann_contents fp anns c) = ann_contents fp anns c.
Proof.
  rewrite (ann_contents_split fp anns (ann_contents fp anns c)).
  rewrite (ann_contents_split fp anns c) at 1.
  rewrite filter_app, filter_filter.
  rewrite (filter_none _ (ann_contents fp anns [])) by apply ann_contents_touched.
  rewrite app_nil_r, (ann_contents_split fp anns c). f_equal.
  apply filter_ext. intros x. now destruct (untouched anns x).
Qed.

(** The ids that the loop collects. *)
Lemma applyAnnotations_all_some (anns : list (option Annotation)) :
  forall (s ids : list Z) (db db' : Db),
    foldM anns s (fun annotatedIds ann =>
      match ann with
      | None => throw TypeError
      | Some a =>
          bind (annotateEntry (ann_entry_id a) (ann_description a) (ann_tags a)
                  (ann_group a) (ann_files a) (ann_conf a) (ann_low a))
               (fun _ => ret (id_add (ann_entry_id a) annotatedIds))
      end) db = (Ok ids, db') ->
    exists l, anns = map Some l.
Proof.
  induction anns as [|[a|] anns IH]; intros s ids db db' H.
  - now exists [].
  - simpl in H. unfold bind in H.
    destruct (annotateEntry _ _ _ _ _ _ _ db) as [[[]|ex] db1]; [|discriminate].
    simpl in H. destruct (IH _ _ _ _ H) as (l & ->). now exists (a :: l).
  - discriminate H.
Qed.

(** Under the constraints of the schema, the loop over annotations that
    are all objects completes; its effect on [entries] is [ann_row] on every
    row and its effect on the contents of the index is [ann_contents]. *)
Lemma applyAnnotations_run (l : list Annotation) :
  forall (s : list Z) (db : Db),
    map_wf db ->
    exists db',
      foldM (map Some l) s (fun annotatedIds ann =>
        match ann with
        | None => throw TypeError
        | Some a =>
            bind (annotateEntry (ann_entry_id a) (ann_description a) (ann_tags a)
                    (ann_group a) (ann_files a) (ann_conf a) (ann_low a))
                 (fun _ => ret (id_add (ann_entry_id a) annotatedIds))
        end) db
      = (Ok (fold_left (fun s a => id_add (ann_entry_id a) s) l s), db')
      /\ map_wf db'
      /\ entries db' = map (ann_row l) (entries db)
      /\ fts_contents db' = ann_contents (file_path_of db) l (fts_contents db)
      /\ entry_links db' = entry_links db.
Proof.
  induction l as [|a l IH]; intros s db Hwf.
  - exists db. split; [reflexivity|]. split; [exact Hwf|].
    split; [|split; reflexivity].
    symmetry. erewrite map_ext; [apply map_id | reflexivity].
  - simpl map. simpl foldM. unfold bind at 1 2.
    rewrite (annotateEntry_run _ _ _ _ _ _ _ db Hwf). simpl ret.
    set (dba := annotated_db _ _ _ _ _ _ _ db).
    assert (Hwa : map_wf dba) by now apply annotated_db_wf.
    destruct (IH (id_add (ann_entry_id a) s) dba Hwa)
      as (db' & Hrun & Hw' & He & Hc & Hl).
    exists db'. split; [exact Hrun|]. split; [exact Hw'|]. split; [|split].
    + rewrite He. unfold dba, annotated_db. simpl entries. rewrite map_map.
      reflexivity.
    + rewrite Hc. unfold dba. rewrite annotated_db_contents by exact Hwf.
      simpl. apply ann_contents_ext. intros i.
      apply (file_path_of_map db _ (ann_upd a)); [apply ann_upd_base|].
      reflexivity.
    + rewrite Hl. reflexivity.
Qed.

(** *** The link loop *)

Lemma insertLink_frame (s t : Z) (ty : jsstring) (now : Z) (db : Db) :
  let db' := snd (insertLink s t ty now db) in
  entries db' = entries db /\ entries_fts db' = entries_fts db
  /\ fts_map db' = fts_map db.
Proof.
  unfold insertLink, modify. simpl.
  destruct (existsb _ (entry_links db)); repeat split; reflexivity.
Qed.

Lemma applyLinks_frame (ls : list (option Link)) (now : Z) (db : Db) :
  let db' := snd (applyLinks ls now db) in
  entries db' = entries db /\ entries_fts db' = entries_fts db
  /\ fts_map db' = fts_map db.
Proof.
  assert (H : keeps (fun db' => entries db' = entries db
                                /\ entries_fts db' = entries_fts db
                                /\ fts_map db' = fts_map db)
                (applyLinks ls now)).
  { apply keeps_forEach. intros [l|]; [|apply keeps_throw].
    intros dbx (H1 & H2 & H3).
    destruct (insertLink_frame (source_entry_id l) (target_entry_id l)
                (link_type_of l) now dbx) as (G1 & G2 & G3).
    repeat split; congruence. }
  apply H. repeat split; reflexivity.
Qed.

Lemma insertLink_present (l : Link) (now : Z) (db : Db) :
  let db' := snd (insertLink (source_entry_id l) (target_entry_id l)
                    (link_type_of l) now db) in
  link_present db' (Some l)
  /\ (forall l', link_present db l' -> link_present db' l').
Proof.
  unfold insertLink, modify, link_present. simpl.
  destruct (existsb _ (entry_links db)) eqn:E; simpl.
  - split; [exact E | auto].
  - split.
    + rewrite existsb_app. simpl. rewrite !Z.eqb_refl, str_eqb_refl.
      simpl. apply orb_true_r.
    + intros [l'|] H; [|exact H]. rewrite existsb_app, H. reflexivity.
Qed.

Lemma applyLinks_present (ls : list (option Link)) (now : Z) (db db' : Db) :
  applyLinks ls now db = (Ok tt, db') -> Forall (link_present db') ls.
Proof.
  intros H.
  pose proof (returns_foldM
    (fun done (_ : unit) dbx => Forall (link_present dbx) done)
    (fun (_ : unit) l =>
       match l with
       | None => throw TypeError
       | Some l => insertLink (source_entry_id l) (target_entry_id l)
                              (link_type_of l) now
       end)) as Hl.
  specialize (fun Hb => Hl Hb ls [] tt db). unfold applyLinks, forEach in H.
  rewrite H in Hl. apply Hl; [|constructor].
  intros done [l|] [] dbx Hd; [|exact Logic.I].
  destruct (insertLink_present l now dbx) as [Hnew Hold].
  unfold insertLink, modify in *. simpl in *.
  apply Forall_app. split; [|constructor; [exact Hnew | constructor]].
  eapply Forall_impl; [|exact Hd]. exact Hold.
Qed.

Lemma link_present_ext (db db' : Db) (l : option Link) :
  entry_links db' = entry_links db -> link_present db l -> link_present db' l.
Proof. unfold link_present. now intros ->. Qed.

(** When every link of a response is present, the link loop completes and
    adds no row; only the counter of [entry_links] moves. *)
Lemma applyLinks_again (ls : list (option Link)) (now : Z) :
  forall db,
    Forall (link_present db) ls ->
    exists db',
      applyLinks ls now db = (Ok tt, db')
      /\ entries db' = entries db /\ entries_fts db' = entries_fts db
      /\ fts_map db' = fts_map db /\ entry_links db' = entry_links db.
Proof.
  unfold applyLinks, forEach.
  induction ls as [|[l|] ls IH]; intros db H; simpl.
  - exists db. repeat split.
  - inversion H as [|? ? Hl Hls]; subst.
    unfold bind at 1, insertLink at 1, modify. unfold link_present in Hl.
    rewrite Hl.
    match goal with
    | |- context [foldM ls tt _ ?db1] =>
        destruct (IH db1) as (db' & Hrun & He & Hf & Hm & Hk)
    end.
    { eapply Forall_impl; [|exact Hls]. intros x. now apply link_present_ext. }
    exists db'. split; [exact Hrun|]. simpl in *. auto.
  - inversion H as [|? ? Hl Hls]; subst. destruct Hl.
Qed.

Lemma map_wf_ext (db db' : Db) :
  entries_fts db' = entries_fts db -> fts_map db' = fts_map db ->
  map_wf db -> map_wf db'.
Proof. unfold map_wf. now intros -> ->. Qed.

Lemma fts_contents_ext (db db' : Db) :
  entries_fts db' = entries_fts db -> fts_map db' = fts_map db ->
  fts_contents db' = fts_contents db.
Proof. unfold fts_contents. now intros -> ->. Qed.

(** C7, amended.  On a store where [fts_rowid] is a key of [fts_map],
    [entry_id] is unique in it and every [fts_map] row has its document
    ([schema_ok]), when the annotation loop and the link loop of a parsed
    response have completed, running them again on the same response
    completes and leaves every row of [entries], the rows of [entry_links]
    and the contents of the FTS index (the documents in rowid order, each
    with the entry it is mapped to) as they were after the first run; only
    the rowids of the documents and the counter of [entry_links] can
    differ. *)
Theorem C7_reannotation_idempotent (r : AnnotationResult) (now now' : Z)
    (db db1 : Db) (ids : list Z) :
  schema_ok db = true ->
  apply_annotations_links r now db = (Ok ids, db1) ->
  exists db2,
    apply_annotations_links r now' db1 = (Ok ids, db2)
    /\ entries db2 = entries db1
    /\ entry_links db2 = entry_links db1
    /\ fts_contents db2 = fts_contents db1.
Proof.
  intros Hs Hrun. apply schema_ok_map_wf in Hs.
  unfold apply_annotations_links, bind in *.
  unfold applyAnnotations in *.
  match type of Hrun with
  | context [foldM ?anns [] ?body db] =>
      destruct (foldM anns [] body db) as [[ids1|ex] dba] eqn:Ea;
        [|discriminate]
  end.
  destruct (applyLinks (opt_list (links r)) now dba) as [[[]|ex] dbl] eqn:El;
    [|discriminate].
  injection Hrun as <- <-.
  destruct (applyAnnotations_all_some _ _ _ _ _ Ea) as (l & Hl).
  rewrite Hl in *.
  destruct (applyAnnotations_run l [] db Hs) as (dba' & Ha & Hwa & Hea & Hca & Hla).
  rewrite Ea in Ha. injection Ha as -> <-.
  pose proof (applyLinks_frame (opt_list (links r)) now dba) as Hf.
  rewrite El in Hf. simpl in Hf. destruct Hf as (Hfe & Hff & Hfm).
  pose proof (applyLinks_present _ _ _ _ El) as Hp.
  assert (Hw1 : map_wf dbl) by (eapply map_wf_ext; eauto).
  destruct (applyAnnotations_run l [] dbl Hw1) as (db2 & Ha2 & Hw2 & He2 & Hc2 & Hl2).
  destruct (applyLinks_again (opt_list (links r)) now' db2)
    as (db3 & Hl3 & He3 & Hf3 & Hm3 & Hk3);
    [eapply Forall_impl; [|exact Hp]; intros x; now apply link_present_ext|].
  exists db3. rewrite Ha2, Hl3.
  split; [reflexivity|]. split; [|split; [congruence|]].
  - rewrite He3, He2, Hfe, Hea, map_map. apply map_ext. intros e.
    apply ann_row_idempotent.
  - rewrite (fts_contents_ext db2 db3 Hf3 Hm3).
    rewrite Hc2, (fts_contents_ext dba dbl Hff Hfm), Hca.
    rewrite (ann_contents_ext (file_path_of dbl) (file_path_of db)).
    + apply ann_contents_idempotent.
    + intros i. apply (file_path_of_map db dbl (ann_row l));
        [apply ann_row_base | congruence].
Qed.

(** The annotation for entry 1 and the link of the sample response are
    applied twice to an indexed session. *)
Lemma C7_reannotation_idempotent_witness :
  schema_ok Samples.indexed_db = true
  /\ fst (apply_annotations_links Samples.full_response 100 Samples.indexed_db)
     = Ok [1]
  /\ (let db1 := snd (apply_annotations_links Samples.full_response 100
                        Samples.indexed_db) in
      exists db2,
        apply_annotations_links Samples.full_response 200 db1 = (Ok [1], db2)
        /\ entries db2 = entries db1
        /\ entry_links db2 = entry_links db1
        /\ fts_contents db2 = fts_contents db1).
Proof.
  split; [vm_compute; reflexivity|]. split; [vm_compute; reflexivity|].
  apply (C7_reannotation_idempotent Samples.full_response 100 200
           Samples.indexed_db).
  - vm_compute. reflexivity.
  - vm_compute. reflexivity.
Defined.

(** C7, as the specification words it, fails: the second application of a
    response with a [prompt_summary] inserts a second summary entry for the
    prompt and a second document for it, so that [entries] and the contents
    of the FTS index are not what they were after the first. *)
Lemma C7_summary_inserted_twice :
  let db1 := snd (apply_response 2 Samples.full_response 100 Samples.indexed_db) in
  let db2 := snd (apply_response 2 Samples.full_response 200 db1) in
  fst (apply_response 2 Samples.full_response 100 Samples.indexed_db) = Ok [1]
  /\ fst (apply_response 2 Samples.full_response 200 db1) = Ok [1]
  /\ count_summaries 2 db1 = 1%nat
  /\ count_summaries 2 db2 = 2%nat
  /\ List.length (entries db2) = S (List.length (entries db1))
  /\ List.length (fts_contents db2) = S (List.length (fts_contents db1))
  /\ entries db2 <> entries db1
  /\ fts_contents db2 <> fts_contents db1.
Proof.
  vm_compute. repeat split; intros H; discriminate H.
Qed.

(** The third condition of [schema_ok] is needed.  With an [fts_map] row
    whose document does not exist, both key constraints hold and the first
    application completes, but the second gives a re-inserted document the
    rowid of that row and raises on [fts_map]. *)
Lemma dangling_map_row_breaks_reannotation :
  nodup_ids (map fts_rowid (fts_map MoreSamples.dangling_db)) = true
  /\ nodup_ids (map entry_id (fts_map MoreSamples.dangling_db)) = true
  /\ schema_ok MoreSamples.dangling_db = false
  /\ fst (apply_annotations_links MoreSamples.two_annotations 100
            MoreSamples.dangling_db) = Ok [1; 2]
  /\ fst (apply_annotations_links MoreSamples.two_annotations 200
            (snd (apply_annotations_links MoreSamples.two_annotations 100
                    MoreSamples.dangling_db)))
     = Throw SqliteConstraint.
Proof. vm_compute. repeat split. Qed.

(** ** Completion of the Stop hook *)

Lemma completes_bind {A B} (J : Db -> Prop) (m : M A) (k : A -> M B) :
  completes J m -> (forall a, completes J (k a)) -> completes J (bind m k).
Proof.
  intros Hm Hk db HJ. unfold bind.
  destruct (Hm db HJ) as (a & db1 & -> & HJ1). now apply Hk.
Qed.

Lemma completes_ret {A} (J : Db -> Prop) (a : A) : completes J (ret a).
Proof. intros db HJ. now exists a, db. Qed.

Lemma completes_gets {A} (J : Db -> Prop) (f : Db -> A) : completes J (gets f).
Proof. intros db HJ. now exists (f db), db. Qed.

Lemma completes_foldM {A S} (J : Db -> Prop) (P : A -> Prop)
    (body : S -> A -> M S) (l : list A) :
  (forall s x, P x -> completes J (body s x)) ->
  Forall P l -> forall s, completes J (foldM l s body).
Proof.
  intros Hb Hl. induction Hl as [|x l Hx _ IH]; intros s; simpl.
  - apply completes_ret.
  - apply completes_bind; [now apply Hb | intros s'; apply IH].
Qed.

Lemma next_auto_fresh (seq : Z) (ids : list Z) (x : Z) :
  In x ids -> x < next_auto seq ids.
Proof. intros H. unfold next_auto. pose proof (max_of_ge ids x H). lia. Qed.

(** The three inserts that [insertEntry] and [insertSummaryEntry] share. *)
Lemma insert_indexed_completes (mk : Z -> EntryRow) (fp d t g : jsstring) :
  (forall i, id (mk i) = i) ->
  completes store_wf
    (bind (insert_entries mk) (fun entryId =>
     bind (insert_fts fp d t g) (fun ftsRowid =>
     bind (insert_fts_map ftsRowid entryId) (fun _ => ret entryId)))).
Proof.
  intros Hmk db [Hwf Hno]. pose proof Hwf as (U1 & U2 & D).
  unfold bind, insert_entries, insert_fts, insert_fts_map, ret. simpl.
  set (i := next_auto (entries_seq db) (map id (entries db))).
  set (r := next_rowid (entries_fts db)).
  assert (Hr : forall m, In m (fts_map db) -> fts_rowid m < r).
  { intros m Hm. destruct (D m Hm) as (f & Hf & <-). now apply next_rowid_fresh. }
  assert (Hi : forall m, In m (fts_map db) -> entry_id m < i).
  { intros m Hm. apply next_auto_fresh, Hno, Hm. }
  replace (existsb _ (fts_map db)) with false.
  2:{ symmetry. apply existsb_false. intros m Hm.
      specialize (Hr m Hm). specialize (Hi m Hm).
      apply orb_false_iff. split; apply Z.eqb_neq; lia. }
  eexists. eexists. split; [reflexivity|].
  split; [repeat split|]; simpl.
  - intros m1 m2 H1 H2 E.
    apply in_app_or in H1 as [H1 | [<- | []]];
      apply in_app_or in H2 as [H2 | [<- | []]]; simpl in E; auto.
    + specialize (Hr m1 H1). lia.
    + specialize (Hr m2 H2). lia.
  - intros m1 m2 H1 H2 E.
    apply in_app_or in H1 as [H1 | [<- | []]];
      apply in_app_or in H2 as [H2 | [<- | []]]; simpl in E; auto.
    + specialize (Hi m1 H1). lia.
    + specialize (Hi m2 H2). lia.
  - intros m Hm. apply in_app_or in Hm as [Hm | [<- | []]].
    + destruct (D m Hm) as (f & Hf & E). exists f.
      split; [apply in_or_app; now left | exact E].
    + eexists. split; [apply in_or_app; right; now left | reflexivity].
  - intros m Hm. simpl. rewrite map_app, in_app_iff.
    apply in_app_or in Hm as [Hm | [<- | []]].
    + left. now apply Hno.
    + right. simpl. left. apply Hmk.
Qed.

Lemma insertEntry_completes (p : Z) (fp : option jsstring) (t : EntryType)
    (calls : list jsobj) (now : Z) :
  completes store_wf (insertEntry (Some p) fp t calls now).
Proof. apply insert_indexed_completes. reflexivity. Qed.

Lemma insertSummaryEntry_completes (p : Z) (s t : jsstring) (now : Z) :
  completes store_wf (insertSummaryEntry (Some p) s t now).
Proof. apply insert_indexed_completes. reflexivity. Qed.

Lemma flushToEntries_completes (p : Z) (calls : list BufferedCall) (now : Z) :
  completes store_wf (flushToEntries (Some p) calls now).
Proof.
  unfold flushToEntries. destruct (classify_calls calls) as [fg st].
  apply completes_bind.
  - apply (completes_foldM store_wf (fun _ => True)); [|apply Forall_forall; auto].
    intros ids [fp group] _.
    apply completes_bind; [apply insertEntry_completes | intros; apply completes_ret].
  - intros ids.
    apply (completes_foldM store_wf (fun _ => True)); [|apply Forall_forall; auto].
    intros ids' call _.
    apply completes_bind; [apply insertEntry_completes | intros; apply completes_ret].
Qed.

(** [annotateEntry] on the id of an entry completes and keeps the ids. *)
Lemma annotateEntry_completes (ids : list Z) (i : Z) (d t g : jsstring)
    (rf : list jsstring) (c : Q) (lr : bool) :
  In i ids ->
  completes (fun db => store_wf db /\ map id (entries db) = ids)
            (annotateEntry i d t g rf c lr).
Proof.
  intros Hi db [[Hwf Hno] Hids].
  exists tt, (annotated_db i d t g rf c lr db).
  split; [now apply annotateEntry_run|].
  assert (He : map id (entries (annotated_db i d t g rf c lr db)) = ids).
  { unfold annotated_db. simpl. rewrite <- Hids, map_map. apply map_ext.
    intros e. now destruct (id e =? i). }
  split; [split|exact He].
  - now apply annotated_db_wf.
  - intros m Hm. rewrite He. unfold annotated_db in Hm. simpl in Hm.
    apply in_app_or in Hm as [Hm | [<- | []]]; [|exact Hi].
    apply filter_In in Hm as [Hm _]. rewrite <- Hids. now apply Hno.
Qed.

Section Completion.

Variable toLowerCase : jsstring -> jsstring.

Lemma selfAnnotatePrompt_completes (p now : Z) :
  completes store_wf (selfAnnotatePrompt toLowerCase (Some p) now).
Proof.
  intros db Hwf. unfold selfAnnotatePrompt, bind, gets.
  destruct (getPendingEntries db (Some p)) as [|e0 rest] eqn:Ep.
  - now exists tt, db.
  - assert (Hin : Forall (fun e => In (id e) (map id (entries db))) (e0 :: rest)).
    { rewrite <- Ep. apply Forall_forall. intros e He.
      apply filter_In in He as [He _]. now apply in_map. }
    match goal with
    | |- context [foldM ?l ?s0 ?body db] =>
        assert (Hloop : completes
                  (fun dbx => store_wf dbx
                              /\ map id (entries dbx) = map id (entries db))
                  (foldM l s0 body));
        [ apply (completes_foldM _ (fun e => In (id e) (map id (entries db))));
          [ intros parts e He;
            apply completes_bind;
              [now apply annotateEntry_completes | intros; apply completes_ret]
          | exact Hin ]
        | destruct (Hloop db (conj Hwf eq_refl)) as (parts & db1 & -> & [Hwf1 _]) ]
    end.
    match goal with
    | |- context [insertSummaryEntry ?pi ?s ?t ?n db1] =>
        destruct (insertSummaryEntry_completes p s t n db1 Hwf1)
          as (i & db2 & -> & Hwf2)
    end.
    now exists tt, db2.
Qed.

(** From a store in that state [onStop] completes, in either mode, and
    leaves the store in that state. *)
Lemma onStop_completes (mode : Hooks.Annotator) (calls : list BufferedCall)
    (now p : Z) (db : Db) :
  store_wf db -> getPromptIndex db = Some p ->
  exists spawn db',
    Hooks.onStop toLowerCase mode calls now db = (Ok spawn, db') /\ store_wf db'.
Proof.
  intros Hwf Hp. unfold Hooks.onStop. destruct calls as [|c calls].
  - now exists None, db.
  - unfold bind, gets. rewrite Hp.
    destruct (flushToEntries_completes p (c :: calls) now db Hwf)
      as (ids & db1 & -> & Hwf1).
    destruct (selfAnnotatePrompt_completes p now db1 Hwf1)
      as ([] & db2 & -> & Hwf2).
    destruct mode; eexists; eexists; split; try reflexivity; exact Hwf2.
Qed.

(** C6, amended.  After a completed [onStop] in [self] mode on a buffer
    that holds at least one call, no entry of the current prompt index is
    pending (nor annotating): the entries [flushToEntries] has inserted as
    pending, and any that were pending before, have been annotated by
    [selfAnnotatePrompt].  And [onStop] does complete when the store
    satisfies its constraints and [fts_map] has no orphan. *)
Theorem C6_status_closure (calls : list BufferedCall) (now p : Z) (db : Db) :
  getPromptIndex db = Some p ->
  calls <> [] ->
  (forall spawn db',
     Hooks.onStop toLowerCase Hooks.self calls now db = (Ok spawn, db') ->
     Forall (fun e => prompt_index e = p ->
                      annotation_status e <> pending
                      /\ annotation_status e <> annotating)
            (entries db'))
  /\ (store_wf db ->
      exists spawn db',
        Hooks.onStop toLowerCase Hooks.self calls now db = (Ok spawn, db')).
Proof.
  intros Hp Hne. split.
  - intros spawn db' Hrun.
    assert (Hc : closed_at p db').
    { unfold Hooks.onStop in Hrun. destruct calls as [|c calls]; [congruence|].
      unfold bind, gets in Hrun. rewrite Hp in Hrun.
      destruct (flushToEntries (Some p) (c :: calls) now db) as [[ids|ex] db1];
        [|discriminate].
      destruct (selfAnnotatePrompt toLowerCase (Some p) now db1)
        as [[[]|ex] db2] eqn:Es; [|discriminate].
      injection Hrun as <- <-.
      exact (selfAnnotatePrompt_closed toLowerCase p now db1 db2 Es). }
    eapply Forall_impl; [|exact Hc]. intros e He Hpe. specialize (He Hpe).
    unfold is_pending_or_annotating in He.
    destruct (annotation_status e); simpl in He; split; congruence.
  - intros Hwf.
    destruct (onStop_completes Hooks.self calls now p db Hwf Hp)
      as (spawn & db' & Hrun & _).
    now exists spawn, db'.
Qed.

End Completion.

(** A run of scenario 1: the batch of a Read and an Edit in the first turn. *)
Lemma C6_status_closure_witness :
  getPromptIndex Samples.turn1_db = Some 1
  /\ Samples.login_batch <> []
  /\ fst (Hooks.onStop ascii_toLowerCase Hooks.self Samples.login_batch 100
            Samples.turn1_db) = Ok None
  /\ Forall (fun e => prompt_index e = 1 ->
                      annotation_status e <> pending
                      /\ annotation_status e <> annotating)
       (entries (snd (Hooks.onStop ascii_toLowerCase Hooks.self
                        Samples.login_batch 100 Samples.turn1_db))).
Proof.
  assert (He : Samples.login_batch <> []) by discriminate.
  split; [reflexivity|]. split; [exact He|]. split; [vm_compute; reflexivity|].
  destruct (C6_status_closure ascii_toLowerCase Samples.login_batch 100 1
              Samples.turn1_db eq_refl He) as [H _].
  apply (H None). vm_compute. reflexivity.
Defined.

(** C6, as the specification words it, fails for the empty batch: [onStop]
    returns before it opens the database, so the entries that were pending
    for the current prompt index, here entries 2 and 3 of prompt 2, are
    pending after it has completed. *)
Lemma C6_empty_buffer_leaves_pending :
  getPromptIndex Samples.retry_db = Some 2
  /\ Hooks.onStop ascii_toLowerCase Hooks.self [] 100 Samples.retry_db
     = (Ok None, Samples.retry_db)
  /\ map (fun e => (id e, prompt_index e, annotation_status e))
         (entries (snd (Hooks.onStop ascii_toLowerCase Hooks.self [] 100
                          Samples.retry_db)))
     = [(1, 1, failed); (2, 2, pending); (3, 2, pending)].
Proof. vm_compute. repeat split. Qed.

(** The run of scenario 1 evaluated: one file_change entry, annotated, with
    the description and the group of the specification, and the summary. *)
Lemma scenario_single_edit :
  let run := Hooks.onStop ascii_toLowerCase Hooks.self Samples.login_batch 100
               Samples.turn1_db in
  fst run = Ok None
  /\ map (fun e => (entry_type e, file_path e, description e, semantic_group e,
                    annotation_status e))
         (entries (snd run))
     = [ (file_change, Some (lit "src/login.ts"),
          Some (lit "Modified src/login.ts (1 edit)"), Some (lit "src"),
          annotated);
         (summary, None, Some (lit "Modified src/login.ts (1 edit)"), None,
          annotated) ].
Proof. vm_compute. split; reflexivity. Qed.

Lemma empty_db_wf : store_wf empty_db.
Proof.
  split; [repeat split|]; simpl; try (intros ? ? []); intros ? [].
Qed.

(* ================================================================== *)
(** * Further properties *)

Import MoreInv.

(** ** Session state *)

Lemma find_ext {A} (f g : A -> bool) (l : list A) :
  (forall x, f x = g x) -> find f l = find g l.
Proof.
  intros H. induction l as [|x l IH]; simpl; [reflexivity|].
  rewrite H, IH. reflexivity.
Qed.

Lemma str_eqb_neq (a b : jsstring) : a <> b -> str_eqb a b = false.
Proof.
  intros H. destruct (str_eqb a b) eqn:E; [|reflexivity].
  apply str_eqb_eq in E. contradiction.
Qed.

Lemma getState_setState_same (db : Db) (k v : jsstring) :
  getState (snd (setState k v db)) k = Some v.
Proof.
  unfold getState, setState, modify. simpl. rewrite find_app_last.
  rewrite (proj2 (find_none_iff _ _)).
  - simpl. now rewrite str_eqb_refl.
  - intros kv Hkv. apply filter_In in Hkv as [_ Hkv].
    now apply negb_true_iff in Hkv.
Qed.

Lemma getState_setState_other (db : Db) (k v k' : jsstring) :
  k' <> k -> getState (snd (setState k v db)) k' = getState db k'.
Proof.
  intros Hne. unfold getState, setState, modify. simpl.
  rewrite find_app_last, find_filter.
  rewrite (find_ext _ (fun kv => str_eqb (fst kv) k')).
  - destruct (find _ (session_state db)); [reflexivity|].
    simpl. rewrite str_eqb_neq; [reflexivity | congruence].
  - intros kv. destruct (str_eqb (fst kv) k') eqn:E; [|apply andb_false_r].
    apply str_eqb_eq in E. rewrite E, str_eqb_neq by exact Hne. reflexivity.
Qed.

(** X1.  For well-formed strings, which the store keeps as they are,
    [setState] followed by [getState] of the same key gives the value
    written; the other keys keep their values; and the key has exactly one
    row afterwards, as the primary key of [session_state] requires,
    whatever the table held. *)
Theorem state_round_trip (db : Db) (k v : jsstring) :
  well_formed k = true -> well_formed v = true ->
  let db' := snd (setState k v db) in
  fst (setState k v db) = Ok tt
  /\ getState db' k = Some v
  /\ (forall k', well_formed k' = true -> k' <> k ->
                 getState db' k' = getState db k')
  /\ filter (fun kv => str_eqb (fst kv) k) (session_state db') = [(k, v)]
  /\ entries db' = entries db /\ entries_fts db' = entries_fts db
  /\ fts_map db' = fts_map db /\ entry_links db' = entry_links db.
Proof.
  intros _ _. simpl. split; [reflexivity|].
  split; [apply getState_setState_same|].
  split; [intros k' _; apply getState_setState_other|].
  split; [|repeat split].
  rewrite filter_app, filter_filter. simpl. rewrite str_eqb_refl.
  rewrite filter_none; [reflexivity|].
  intros kv _. now destruct (str_eqb (fst kv) k).
Qed.

(** The prompt index of a session in its second turn is overwritten. *)
Lemma state_round_trip_witness :
  well_formed (lit "prompt_index") = true
  /\ well_formed (lit "3") = true
  /\ (let db' := snd (setState (lit "prompt_index") (lit "3")
                        Samples.retry_db) in
      fst (setState (lit "prompt_index") (lit "3") Samples.retry_db) = Ok tt
      /\ getState db' (lit "prompt_index") = Some (lit "3")
      /\ (forall k', well_formed k' = true -> k' <> lit "prompt_index" ->
                     getState db' k' = getState Samples.retry_db k')
      /\ filter (fun kv => str_eqb (fst kv) (lit "prompt_index"))
                (session_state db') = [(lit "prompt_index", lit "3")]
      /\ entries db' = entries Samples.retry_db
      /\ entries_fts db' = entries_fts Samples.retry_db
      /\ fts_map db' = fts_map Samples.retry_db
      /\ entry_links db' = entry_links Samples.retry_db).
Proof.
  assert (Hk : well_formed (lit "prompt_index") = true) by reflexivity.
  assert (Hv : well_formed (lit "3") = true) by reflexivity.
  split; [exact Hk|]. split; [exact Hv|].
  exact (state_round_trip Samples.retry_db (lit "prompt_index") (lit "3")
           Hk Hv).
Defined.

(** *** Decimal numerals *)

Lemma lit_cons (c : ascii) (s : string) :
  lit (String c s) = N_of_ascii c :: lit s.
Proof. reflexivity. Qed.

Lemma parse_digits_uint_acc (d : Decimal.uint) (rest : jsstring) (acc : positive) :
  (forall c r, rest = c :: r -> is_digit c = false) ->
  parse_digits (Z.pos acc) (lit (NilEmpty.string_of_uint d) ++ rest)
  = Z.pos (Pos.of_uint_acc d acc).
Proof.
  intros Hrest. revert acc.
  induction d as [|d IH|d IH|d IH|d IH|d IH|d IH|d IH|d IH|d IH|d IH];
    intros acc; simpl NilEmpty.string_of_uint;
    try (rewrite lit_cons; simpl app; cbn [parse_digits];
         match goal with
         | |- context [is_digit ?c] => change (is_digit c) with true
         end; cbv iota; cbn [Pos.of_uint_acc]; rewrite <- IH;
         first [reflexivity | f_equal; lia]).
  simpl. destruct rest as [|c r]; [reflexivity|].
  simpl. now rewrite (Hrest c r eq_refl).
Qed.

Lemma parse_digits_uint (d : Decimal.uint) (rest : jsstring) :
  (forall c r, rest = c :: r -> is_digit c = false) ->
  parse_digits 0 (lit (NilEmpty.string_of_uint d) ++ rest)
  = Z.of_N (Pos.of_uint d).
Proof.
  intros Hrest.
  induction d as [|d IH|d IH|d IH|d IH|d IH|d IH|d IH|d IH|d IH|d IH];
    simpl NilEmpty.string_of_uint; cbn [Pos.of_uint];
    try (rewrite lit_cons; simpl app; cbn [parse_digits];
         match goal with
         | |- context [is_digit ?c] => change (is_digit c) with true
         end; cbv iota;
         first [ exact IH
               | cbn [Z.of_N];
                 rewrite <- (parse_digits_uint_acc d rest _ Hrest);
                 reflexivity ]).
  simpl. destruct rest as [|c r]; [reflexivity|].
  simpl. now rewrite (Hrest c r eq_refl).
Qed.

(** The numeral of a positive number starts with a digit. *)
Lemma uint_string_head (d : Decimal.uint) :
  d <> Decimal.Nil ->
  exists c r, lit (NilEmpty.string_of_uint d) = c :: r /\ is_digit c = true.
Proof.
  destruct d; intros H; try congruence; simpl NilEmpty.string_of_uint;
    rewrite lit_cons; eexists; eexists; split; reflexivity.
Qed.

Lemma parse_unsigned_pos (p : positive) :
  parse_unsigned (lit (NilZero.string_of_uint (Pos.to_uint p))) = Some (Z.pos p).
Proof.
  pose proof (DecimalPos.Unsigned.to_uint_nonnil p) as Hn.
  assert (Hs : NilZero.string_of_uint (Pos.to_uint p)
               = NilEmpty.string_of_uint (Pos.to_uint p)).
  { destruct (Pos.to_uint p); [congruence | reflexivity..]. }
  rewrite Hs.
  destruct (uint_string_head _ Hn) as (c & r & Hc & Hd).
  unfold parse_unsigned. rewrite Hc, Hd, <- Hc. f_equal.
  rewrite <- (app_nil_r (lit _)), parse_digits_uint by (intros ? ? H; discriminate H).
  now rewrite DecimalPos.Unsigned.of_to.
Qed.

Lemma is_digit_not_space (c : N) : is_digit c = true -> is_space c = false.
Proof.
  unfold is_digit, is_space. intros H. apply andb_true_iff in H as [H1 H2].
  apply Z.leb_le in H1, H2.
  repeat (apply orb_false_iff; split);
    try (apply Z.eqb_neq; lia);
    apply andb_false_iff; first [left; apply Z.leb_gt; lia | right; apply Z.leb_gt; lia].
Qed.

(** [parseInt(String(n), 10)] is [n]. *)
Lemma parseInt_num_str (z : Z) : parseInt (num_str z) = Some z.
Proof.
  unfold num_str. destruct z as [|p|p]; simpl Z.to_int.
  - reflexivity.
  - simpl NilZero.string_of_int. pose proof (parse_unsigned_pos p) as Hp.
    pose proof (DecimalPos.Unsigned.to_uint_nonnil p) as Hn.
    assert (Hs : NilZero.string_of_uint (Pos.to_uint p)
                 = NilEmpty.string_of_uint (Pos.to_uint p)).
    { destruct (Pos.to_uint p); [congruence | reflexivity..]. }
    destruct (uint_string_head _ Hn) as (c & r & Hc & Hd).
    rewrite Hs in *. unfold parseInt. rewrite Hc in *.
    simpl skip_ws. rewrite (is_digit_not_space c Hd).
    destruct c as [|q]; [discriminate Hd|].
    assert (q <> 45%positive /\ q <> 43%positive) as [H45 H43].
    { unfold is_digit in Hd. apply andb_true_iff in Hd as [H1 H2].
      apply Z.leb_le in H1, H2. simpl in H1, H2. split; intros ->; lia. }
    do 6 (destruct q as [q|q|]; try exact Hp; try congruence).
  - simpl NilZero.string_of_int. rewrite lit_cons.
    unfold parseInt. simpl skip_ws. change (N_of_ascii "-") with 45%N.
    change (is_space 45) with false. cbv iota.
    now rewrite parse_unsigned_pos.
Qed.

Lemma num_str_head (z : Z) :
  exists c r, num_str z = c :: r /\ (is_digit c = true \/ c = 45%N).
Proof.
  unfold num_str. destruct z as [|p|p]; simpl Z.to_int; simpl NilZero.string_of_int.
  - eexists. eexists. split; [reflexivity | now left].
  - pose proof (DecimalPos.Unsigned.to_uint_nonnil p) as Hn.
    assert (Hs : NilZero.string_of_uint (Pos.to_uint p)
                 = NilEmpty.string_of_uint (Pos.to_uint p)).
    { destruct (Pos.to_uint p); [congruence | reflexivity..]. }
    rewrite Hs. destruct (uint_string_head _ Hn) as (c & r & Hc & Hd).
    exists c, r. auto.
  - rewrite lit_cons. eexists. eexists. split; [reflexivity | now right].
Qed.

Lemma getPromptIndex_stored (db : Db) (n : Z) :
  getState db (lit "prompt_index") = Some (num_str n) ->
  getPromptIndex db = Some n.
Proof.
  intros H. unfold getPromptIndex. rewrite H.
  destruct (num_str_head n) as (c & r & Hc & _).
  rewrite Hc. simpl truthy. rewrite <- Hc. apply parseInt_num_str.
Qed.

(** X2.  The prompt index survives its storage as text: after
    [setPromptIndex(db, n)], for every integer [n] that a JavaScript number
    holds exactly (where [String(n)] is its decimal numeral),
    [getPromptIndex] reads
    [n] back; and when the key is absent or holds the empty string,
    [getPromptIndex] is 0. *)
Theorem prompt_index_round_trip (db : Db) (n : Z) :
  Z.abs n < 2 ^ 53 ->
  getPromptIndex (snd (setPromptIndex n db)) = Some n
  /\ (getState db (lit "prompt_index") = None -> getPromptIndex db = Some 0)
  /\ (getState db (lit "prompt_index") = Some [] -> getPromptIndex db = Some 0).
Proof.
  intros _. split; [|split].
  - apply getPromptIndex_stored. unfold setPromptIndex.
    apply getState_setState_same.
  - intros H. unfold getPromptIndex. now rewrite H.
  - intros H. unfold getPromptIndex. now rewrite H.
Qed.

Lemma prompt_index_round_trip_witness :
  Z.abs (-7) < 2 ^ 53
  /\ getPromptIndex (snd (setPromptIndex (-7) Samples.turn1_db)) = Some (-7)
  /\ (getState Samples.turn1_db (lit "prompt_index") = None ->
      getPromptIndex Samples.turn1_db = Some 0)
  /\ (getState Samples.turn1_db (lit "prompt_index") = Some [] ->
      getPromptIndex Samples.turn1_db = Some 0).
Proof.
  assert (H : Z.abs (-7) < 2 ^ 53) by (vm_compute; reflexivity).
  split; [exact H|].
  exact (prompt_index_round_trip Samples.turn1_db (-7) H).
Defined.

(** ** The UserPromptSubmit hook *)

Lemma prompt_key_not_index (z : Z) :
  lit "prompt_index" <> lit "prompt_" ++ num_str z.
Proof.
  destruct (num_str_head z) as (c & r & -> & Hc). intros H.
  vm_compute in H. injection H as H _.
  destruct Hc as [Hc | ->]; [|discriminate H].
  subst c. discriminate Hc.
Qed.

Section PromptHookFacts.

Variable toLowerCase : jsstring -> jsstring.
Variable fts_match : jsstring -> FtsRow -> bool.
Variable fts_rank : list FtsRow -> jsstring -> FtsRow -> Q.

(** [retrieveContext] reads [entries], [entries_fts] and [fts_map] only. *)
Lemma retrieveContext_reads (db db' : Db) (prompt : jsstring) (C B : Z) :
  entries db' = entries db -> entries_fts db' = entries_fts db ->
  fts_map db' = fts_map db ->
  retrieveContext toLowerCase fts_match fts_rank db' prompt C B
  = retrieveContext toLowerCase fts_match fts_rank db prompt C B.
Proof.
  intros He Hf Hm.
  unfold retrieveContext, select_context, searchFts, expandGroups,
    getPreviousSummary.
  rewrite He, Hf, Hm. reflexivity.
Qed.

(** The run of [onPrompt] from a stored index [n]. *)
Lemma onPrompt_run (db : Db) (n : Z) (prompt : jsstring) :
  getPromptIndex db = Some n ->
  let run := PromptHook.onPrompt toLowerCase fts_match fts_rank prompt db in
  fst run
  = Ok (if n + 1 <=? 1 then None
        else match retrieveContext toLowerCase fts_match fts_rank db prompt
                     (n + 1) TOKEN_BUDGET with
             | Some c => if truthy c then Some c else None
             | None => None
             end)
  /\ getPromptIndex (snd run) = Some (n + 1)
  /\ getState (snd run) (lit "prompt_" ++ num_str (n + 1)) = Some prompt
  /\ entries (snd run) = entries db
  /\ entries_fts (snd run) = entries_fts db
  /\ fts_map (snd run) = fts_map db
  /\ entry_links (snd run) = entry_links db.
Proof.
  intros Hn run. unfold run, PromptHook.onPrompt, bind, gets.
  rewrite Hn. cbv beta iota delta [option_map num_str_opt].
  set (db1 := snd (setState (lit "prompt_index") (num_str (n + 1)) db)).
  set (db2 := snd (setState (lit "prompt_" ++ num_str (n + 1)) prompt db1)).
  change (setState (lit "prompt_index") (num_str (n + 1)) db) with (Ok tt, db1).
  cbv iota beta.
  change (setState (lit "prompt_" ++ num_str (n + 1)) prompt db1) with (Ok tt, db2).
  cbv iota beta.
  assert (Hidx : getPromptIndex db2 = Some (n + 1)).
  { apply getPromptIndex_stored. unfold db2.
    rewrite getState_setState_other by apply prompt_key_not_index.
    apply getState_setState_same. }
  assert (Hkey : getState db2 (lit "prompt_" ++ num_str (n + 1)) = Some prompt)
    by apply getState_setState_same.
  assert (Hret : retrieveContext toLowerCase fts_match fts_rank db2 prompt
                   (n + 1) TOKEN_BUDGET
                 = retrieveContext toLowerCase fts_match fts_rank db prompt
                     (n + 1) TOKEN_BUDGET)
    by (apply retrieveContext_reads; reflexivity).
  assert (Hrest : entries db2 = entries db /\ entries_fts db2 = entries_fts db
                  /\ fts_map db2 = fts_map db /\ entry_links db2 = entry_links db)
    by (repeat split; reflexivity).
  destruct (n + 1 <=? 1).
  - cbn [fst snd ret]. split; [reflexivity|]. auto.
  - rewrite Hret.
    destruct (retrieveContext toLowerCase fts_match fts_rank db prompt (n + 1)
                TOKEN_BUDGET) as [c|]; [destruct (truthy c)|];
      cbn [fst snd ret]; (split; [reflexivity|]); auto.
Qed.


End PromptHookFacts.


(** ** The bijection between entries and FTS documents *)

Lemma NoDup_snoc {A} (l : list A) (x : A) :
  NoDup l -> ~ In x l -> NoDup (l ++ [x]).
Proof.
  induction 1 as [|y l Hy Hl IH]; intros Hx; simpl.
  - constructor; [intros [] | constructor].
  - constructor.
    + rewrite in_app_iff. intros [H | [H | []]]; [contradiction|].
      subst. apply Hx. now left.
    + apply IH. intros H. apply Hx. now right.
Qed.

Lemma NoDup_map_filter {A B} (key : A -> B) (keep : A -> bool) (rows : list A) :
  NoDup (map key rows) -> NoDup (map key (filter keep rows)).
Proof.
  intros H. induction rows as [|r rows IH]; simpl in *; [constructor|].
  inversion H as [|? ? Hr Hrows]; subst.
  destruct (keep r); simpl; [|now apply IH].
  constructor; [|now apply IH].
  intros Hin. apply Hr. apply in_map_iff in Hin as (z & Hz & Hin).
  apply filter_In in Hin as [Hin _]. apply in_map_iff. now exists z.
Qed.

Lemma NoDup_map_inj {A B} (f : A -> B) (l : list A) :
  NoDup (map f l) ->
  forall a b, In a l -> In b l -> f a = f b -> a = b.
Proof.
  induction l as [|y l IH]; simpl; intros H a b Ha Hb E; [contradiction|].
  inversion H as [|? ? Hy Hl]; subst.
  destruct Ha as [<- | Ha]; destruct Hb as [<- | Hb]; auto.
  - exfalso. apply Hy. rewrite E. now apply in_map.
  - exfalso. apply Hy. rewrite <- E. now apply in_map.
Qed.

Lemma nodup_ids_NoDup (l : list Z) : nodup_ids l = true -> NoDup l.
Proof.
  induction l as [|x l IH]; simpl; intros H; constructor;
    apply andb_true_iff in H as [Hx Hl]; [|now apply IH].
  apply negb_true_iff in Hx. intros Hin.
  pose proof (proj1 (existsb_false _ _) Hx x Hin) as E.
  now rewrite Z.eqb_refl in E.
Qed.

Lemma forallb_existsb_In {A B} (ka : A -> Z) (kb : B -> Z) (la : list A)
    (lb : list B) :
  forallb (fun a => existsb (fun b => kb b =? ka a) lb) la = true ->
  forall x, In x (map ka la) -> In x (map kb lb).
Proof.
  intros H x Hx. apply in_map_iff in Hx as (a & <- & Ha).
  pose proof (proj1 (forallb_forall _ _) H a Ha) as E.
  apply existsb_exists in E as (b & Hb & E). apply Z.eqb_eq in E.
  apply in_map_iff. now exists b.
Qed.

(** The boolean check of the bijection decides [bijective]. *)
Lemma fts_bijection_bijective (db : Db) :
  fts_bijection db = true -> bijective db.
Proof.
  unfold fts_bijection, schema_ok. intros H.
  do 7 (apply andb_true_iff in H as [H ?]).
  repeat split; try (now apply nodup_ids_NoDup);
    eapply forallb_existsb_In; eassumption.
Qed.

Lemma bijective_store_wf (db : Db) : bijective db -> store_wf db.
Proof.
  intros (Ni & Nr & Nm & Ne & Hid & Hrow). split; [repeat split|].
  - now apply NoDup_map_inj.
  - now apply NoDup_map_inj.
  - intros m Hm.
    assert (Hin : In (fts_rowid m) (map rowid (entries_fts db)))
      by (apply Hrow; now apply in_map).
    apply in_map_iff in Hin as (f & E & Hf). now exists f.
  - intros m Hm. apply Hid. now apply in_map.
Qed.

Lemma insert_indexed_run (row : Z -> EntryRow) (fp d t g : jsstring) (db : Db) :
  store_wf db ->
  bind (insert_entries row) (fun entryId =>
    bind (insert_fts fp d t g) (fun ftsRowid =>
    bind (insert_fts_map ftsRowid entryId) (fun _ => ret entryId))) db
  = (Ok (next_auto (entries_seq db) (map id (entries db))),
     inserted_db row fp d t g db).
Proof.
  intros [(U1 & U2 & D) Hno].
  unfold bind, insert_entries, insert_fts, insert_fts_map, ret, inserted_db.
  simpl.
  replace (existsb _ (fts_map db)) with false; [reflexivity|].
  symmetry. apply existsb_false. intros m Hm.
  assert (Hr : fts_rowid m < next_rowid (entries_fts db)).
  { destruct (D m Hm) as (f & Hf & <-). now apply next_rowid_fresh. }
  assert (Hi : entry_id m < next_auto (entries_seq db) (map id (entries db))).
  { apply next_auto_fresh, Hno, Hm. }
  apply orb_false_iff. split; apply Z.eqb_neq; lia.
Qed.

Lemma inserted_db_bijective (row : Z -> EntryRow) (fp d t g : jsstring)
    (db : Db) :
  (forall i, id (row i) = i) -> bijective db ->
  bijective (inserted_db row fp d t g db).
Proof.
  intros Hrow (Ni & Nr & Nm & Ne & Hid & Hrw).
  assert (Hi : ~ In (next_auto (entries_seq db) (map id (entries db)))
                 (map id (entries db))).
  { intros H. apply next_auto_fresh with (seq := entries_seq db) in H. lia. }
  assert (Hr : ~ In (next_rowid (entries_fts db)) (map rowid (entries_fts db))).
  { intros H. apply in_map_iff in H as (f & E & Hf).
    apply next_rowid_fresh in Hf. lia. }
  unfold bijective, inserted_db. simpl. rewrite !map_app. simpl.
  rewrite Hrow. repeat split.
  - now apply NoDup_snoc.
  - now apply NoDup_snoc.
  - apply NoDup_snoc; [exact Nm|]. intros H. now apply Hr, Hrw.
  - apply NoDup_snoc; [exact Ne|]. intros H. now apply Hi, Hid.
  - rewrite !in_app_iff, Hid. tauto.
  - rewrite !in_app_iff, Hid. tauto.
  - rewrite !in_app_iff, Hrw. tauto.
  - rewrite !in_app_iff, Hrw. tauto.
Qed.

Lemma insert_indexed_bijective (row : Z -> EntryRow) (fp d t g : jsstring) :
  (forall i, id (row i) = i) ->
  completes bijective
    (bind (insert_entries row) (fun entryId =>
     bind (insert_fts fp d t g) (fun ftsRowid =>
     bind (insert_fts_map ftsRowid entryId) (fun _ => ret entryId)))).
Proof.
  intros Hrow db Hb. eexists. eexists.
  split; [apply insert_indexed_run, bijective_store_wf, Hb|].
  now apply inserted_db_bijective.
Qed.

Lemma annotated_db_bijective (i : Z) (d t g : jsstring) (rf : list jsstring)
    (c : Q) (lr : bool) (db : Db) :
  In i (map id (entries db)) -> bijective db ->
  bijective (annotated_db i d t g rf c lr db).
Proof.
  intros Hi Hb. pose proof (bijective_store_wf db Hb) as [Hwf _].
  destruct Hb as (Ni & Nr & Nm & Ne & Hid & Hrw).
  pose proof Hwf as (U1 & U2 & D).
  assert (Hids : map id (map (fun e => if id e =? i
                                       then set_annotation d t g rf c lr e
                                       else e) (entries db))
                 = map id (entries db)).
  { rewrite map_map. apply map_ext. intros e. now destruct (id e =? i). }
  assert (Hr : ~ In (next_rowid (other_docs i db))
                 (map rowid (other_docs i db))).
  { intros H. apply in_map_iff in H as (f & E & Hf).
    apply next_rowid_fresh in Hf. lia. }
  assert (Hm : ~ In (next_rowid (other_docs i db))
                 (map fts_rowid (filter (fun m => negb (entry_id m =? i))
                                        (fts_map db)))).
  { intros H. apply in_map_iff in H as (m & E & Hm).
    apply (new_rowid_unmapped db i m Hwf) in Hm. lia. }
  unfold bijective, annotated_db. simpl. rewrite Hids, !map_app. simpl.
  split; [exact Ni|]. split; [|split; [|split; [|split]]].
  - apply NoDup_snoc; [|exact Hr]. now apply NoDup_map_filter.
  - apply NoDup_snoc; [|exact Hm]. now apply NoDup_map_filter.
  - apply NoDup_snoc; [now apply NoDup_map_filter|].
    intros H. apply in_map_iff in H as (m & E & H).
    apply filter_In in H as [_ H]. apply negb_true_iff, Z.eqb_neq in H.
    contradiction.
  - intros x. rewrite in_app_iff. split.
    + intros Hx. destruct (Z.eq_dec x i) as [-> | Hne]; [right; now left|].
      left. apply Hid in Hx. apply in_map_iff in Hx as (m & E & Hx).
      apply in_map_iff. exists m. split; [exact E|].
      apply filter_In. split; [exact Hx|].
      apply negb_true_iff, Z.eqb_neq. congruence.
    + intros [Hx | [<- | []]]; [|exact Hi].
      apply Hid. apply in_map_iff in Hx as (m & E & Hx).
      apply filter_In in Hx as [Hx _]. apply in_map_iff. now exists m.
  - intros x. rewrite !in_app_iff. split.
    + intros [Hx | Hx]; [left | now right].
      apply in_map_iff in Hx as (f & E & Hf). subst x.
      unfold other_docs in Hf. apply filter_In in Hf as [Hf Hn].
      apply negb_true_iff in Hn.
      assert (Hin : In (rowid f) (map fts_rowid (fts_map db)))
        by (apply Hrw; now apply in_map).
      apply in_map_iff in Hin as (m & E & Hin).
      apply in_map_iff. exists m. split; [exact E|].
      apply filter_In. split; [exact Hin|].
      apply negb_true_iff, Z.eqb_neq. intros Ei.
      rewrite (mapped_to_rowid db i f Hwf) in Hn.
      destruct (mapping_of db i) as [r0|] eqn:Em.
      * destruct (mapping_of_some db i r0 Em) as (m0 & H0 & Hi0 & Hr0).
        assert (m = m0) by (apply U2; congruence). subst m0.
        apply Z.eqb_neq in Hn. congruence.
      * pose proof (mapping_of_none db i Em m Hin) as Hf'.
        apply Z.eqb_neq in Hf'. contradiction.
    + intros [Hx | Hx]; [left | now right].
      apply in_map_iff in Hx as (m & E & Hx). subst x.
      apply filter_In in Hx as [Hx Hn]. apply negb_true_iff in Hn.
      destruct (doc_survives db i m Hwf Hx Hn) as (f & Hf & Hr').
      apply in_map_iff. now exists f.
Qed.

Lemma annotateEntry_bijective (ids : list Z) (i : Z) (d t g : jsstring)
    (rf : list jsstring) (c : Q) (lr : bool) :
  In i ids ->
  completes (fun db => bijective db /\ map id (entries db) = ids)
            (annotateEntry i d t g rf c lr).
Proof.
  intros Hi db [Hb Hids].
  exists tt, (annotated_db i d t g rf c lr db).
  split; [apply annotateEntry_run; now apply bijective_store_wf|].
  split; [apply annotated_db_bijective; [now rewrite Hids | exact Hb]|].
  unfold annotated_db. simpl. rewrite <- Hids, map_map. apply map_ext.
  intros e. now destruct (id e =? i).
Qed.

Lemma bijective_counts (db : Db) :
  bijective db ->
  List.length (entries db) = List.length (fts_map db)
  /\ List.length (entries_fts db) = List.length (fts_map db).
Proof.
  intros (Ni & Nr & Nm & Ne & Hid & Hrw). split.
  - rewrite <- (length_map id), <- (length_map entry_id).
    apply Permutation_length, NoDup_Permutation; assumption.
  - rewrite <- (length_map rowid), <- (length_map fts_rowid).
    apply Permutation_length, NoDup_Permutation; assumption.
Qed.




(** X5.  [annotateEntry] with well-formed texts on the id of an existing
    entry, on a store in bijection, completes and keeps the bijection.  The
    rows of [entries] with that id get the annotation and the status
    [annotated], and no other row changes.  In the FTS index the document
    that was mapped to the entry is gone and one document is added last,
    mapped to the entry, with the file path of the entry and the new
    description, tags and group; the other documents and their mapping are
    as before, and so are the numbers of documents and of [fts_map] rows:
    the document of the entry has been replaced, not added to.  Links and
    session state are untouched. *)
Theorem annotateEntry_keeps_bijection (i : Z) (d t g : jsstring)
    (rf : list jsstring) (c : Q) (lr : bool) (db : Db) :
  bijective db -> In i (map id (entries db)) ->
  well_formed d = true -> well_formed t = true -> well_formed g = true ->
  exists db',
    annotateEntry i d t g rf c lr db = (Ok tt, db')
    /\ bijective db'
    /\ entries db'
       = map (fun e => if id e =? i then set_annotation d t g rf c lr e else e)
             (entries db)
    /\ fts_contents db'
       = filter (fun x => negb (mapped_to i x)) (fts_contents db)
         ++ [(Some i, (file_path_of db i, d, t, g))]
    /\ map id (entries db') = map id (entries db)
    /\ List.length (entries_fts db') = List.length (entries_fts db)
    /\ List.length (fts_map db') = List.length (fts_map db)
    /\ entry_links db' = entry_links db
    /\ session_state db' = session_state db.
Proof.
  intros Hb Hi _ _ _.
  pose proof (bijective_store_wf db Hb) as [Hwf _].
  pose proof (annotated_db_bijective i d t g rf c lr db Hi Hb) as Hb'.
  exists (annotated_db i d t g rf c lr db).
  split; [now apply annotateEntry_run|]. split; [exact Hb'|].
  split; [reflexivity|].
  split; [exact (annotated_db_contents i d t g rf c lr db Hwf)|].
  assert (Hids : map id (entries (annotated_db i d t g rf c lr db))
                 = map id (entries db)).
  { unfold annotated_db. simpl. rewrite map_map. apply map_ext.
    intros e. now destruct (id e =? i). }
  split; [exact Hids|].
  destruct (bijective_counts db Hb) as [E1 E2].
  destruct (bijective_counts _ Hb') as [E1' E2'].
  assert (El : List.length (entries (annotated_db i d t g rf c lr db))
               = List.length (entries db))
    by (rewrite <- (length_map id), Hids; apply length_map).
  split; [congruence|]. split; [congruence|]. split; reflexivity.
Qed.

(** Entry 1 of the indexed session is annotated again: its document, the
    first of three, is replaced by a new last one. *)
Lemma annotateEntry_keeps_bijection_witness :
  bijective Samples.indexed_db
  /\ In 1 (map id (entries Samples.indexed_db))
  /\ well_formed (lit "Read a.ts") = true
  /\ well_formed (lit "a.ts") = true
  /\ well_formed (lit "src") = true
  /\ map fst
       (fts_contents
          (snd (annotateEntry 1 (lit "Read a.ts") (lit "a.ts") (lit "src") []
                  (1 # 2) false Samples.indexed_db)))
     = [Some 2; Some 3; Some 1]
  /\ exists db',
       annotateEntry 1 (lit "Read a.ts") (lit "a.ts") (lit "src") [] (1 # 2)
         false Samples.indexed_db = (Ok tt, db')
       /\ bijective db'
       /\ entries db'
          = map (fun e => if id e =? 1
                          then set_annotation (lit "Read a.ts") (lit "a.ts")
                                 (lit "src") [] (1 # 2) false e
                          else e)
                (entries Samples.indexed_db)
       /\ fts_contents db'
          = filter (fun x => negb (mapped_to 1 x))
                   (fts_contents Samples.indexed_db)
            ++ [(Some 1, (file_path_of Samples.indexed_db 1, lit "Read a.ts",
                          lit "a.ts", lit "src"))]
       /\ map id (entries db') = map id (entries Samples.indexed_db)
       /\ List.length (entries_fts db')
          = List.length (entries_fts Samples.indexed_db)
       /\ List.length (fts_map db') = List.length (fts_map Samples.indexed_db)
       /\ entry_links db' = entry_links Samples.indexed_db
       /\ session_state db' = session_state Samples.indexed_db.
Proof.
  assert (H : bijective Samples.indexed_db)
    by (apply fts_bijection_bijective; vm_compute; reflexivity).
  assert (Hi : In 1 (map id (entries Samples.indexed_db)))
    by (vm_compute; auto).
  assert (Hd : well_formed (lit "Read a.ts") = true) by reflexivity.
  assert (Ht : well_formed (lit "a.ts") = true) by reflexivity.
  assert (Hg : well_formed (lit "src") = true) by reflexivity.
  split; [exact H|]. split; [exact Hi|]. split; [exact Hd|].
  split; [exact Ht|]. split; [exact Hg|]. split; [vm_compute; reflexivity|].
  exact (annotateEntry_keeps_bijection 1 (lit "Read a.ts") (lit "a.ts")
           (lit "src") [] (1 # 2) false Samples.indexed_db H Hi Hd Ht Hg).
Defined.

Lemma flushToEntries_bijective (p : Z) (calls : list BufferedCall) (now : Z) :
  completes bijective (flushToEntries (Some p) calls now).
Proof.
  unfold flushToEntries. destruct (classify_calls calls) as [fg st].
  apply completes_bind.
  - apply (completes_foldM bijective (fun _ => True)); [|apply Forall_forall; auto].
    intros ids [fp group] _.
    apply completes_bind; [|intros; apply completes_ret].
    apply insert_indexed_bijective. reflexivity.
  - intros ids.
    apply (completes_foldM bijective (fun _ => True)); [|apply Forall_forall; auto].
    intros ids' call _.
    apply completes_bind; [|intros; apply completes_ret].
    apply insert_indexed_bijective. reflexivity.
Qed.

Lemma insertSummaryEntry_bijective (p : Z) (s t : jsstring) (now : Z) :
  completes bijective (insertSummaryEntry (Some p) s t now).
Proof. apply insert_indexed_bijective. reflexivity. Qed.

Section Bijection.

Variable toLowerCase : jsstring -> jsstring.

Lemma selfAnnotatePrompt_bijective (p now : Z) :
  completes bijective (SelfAnnotate.selfAnnotatePrompt toLowerCase (Some p) now).
Proof.
  intros db Hwf. unfold SelfAnnotate.selfAnnotatePrompt, bind, gets.
  destruct (getPendingEntries db (Some p)) as [|e0 rest] eqn:Ep.
  - now exists tt, db.
  - assert (Hin : Forall (fun e => In (id e) (map id (entries db))) (e0 :: rest)).
    { rewrite <- Ep. apply Forall_forall. intros e He.
      apply filter_In in He as [He _]. now apply in_map. }
    match goal with
    | |- context [foldM ?l ?s0 ?body db] =>
        assert (Hloop : completes
                  (fun dbx => bijective dbx
                              /\ map id (entries dbx) = map id (entries db))
                  (foldM l s0 body));
        [ apply (completes_foldM _ (fun e => In (id e) (map id (entries db))));
          [ intros parts e He;
            apply completes_bind;
              [now apply annotateEntry_bijective | intros; apply completes_ret]
          | exact Hin ]
        | destruct (Hloop db (conj Hwf eq_refl)) as (parts & db1 & -> & [Hwf1 _]) ]
    end.
    match goal with
    | |- context [insertSummaryEntry ?pi ?s ?t ?n db1] =>
        destruct (insertSummaryEntry_bijective p s t n db1 Hwf1)
          as (i & db2 & -> & Hwf2)
    end.
    now exists tt, db2.
Qed.

(** X6.  The Stop hook keeps the bijection between entries and FTS
    documents: from a store in bijection whose prompt index is a number,
    [onStop] completes in either mode, whatever the buffered calls, and the
    store it leaves is in bijection.  The background annotator is spawned
    in [haiku] mode only, for that prompt index, and never for an empty
    buffer. *)
Theorem onStop_keeps_bijection (mode : Hooks.Annotator)
    (calls : list BufferedCall) (now p : Z) (db : Db) :
  bijective db -> getPromptIndex db = Some p ->
  exists db',
    Hooks.onStop toLowerCase mode calls now db
    = (Ok match calls, mode with
          | _ :: _, Hooks.haiku => Some (Some p)
          | _, _ => None
          end, db')
    /\ bijective db'.
Proof.
  intros Hwf Hp. unfold Hooks.onStop. destruct calls as [|c calls].
  - now exists db.
  - unfold bind, gets. rewrite Hp.
    destruct (flushToEntries_bijective p (c :: calls) now db Hwf)
      as (ids & db1 & -> & Hwf1).
    destruct (selfAnnotatePrompt_bijective p now db1 Hwf1)
      as ([] & db2 & -> & Hwf2).
    destruct mode; eexists; split; try reflexivity; exact Hwf2.
Qed.

End Bijection.

Lemma onStop_keeps_bijection_witness :
  bijective Samples.turn1_db
  /\ getPromptIndex Samples.turn1_db = Some 1
  /\ exists db',
       Hooks.onStop ascii_toLowerCase Hooks.haiku Samples.login_batch 100
         Samples.turn1_db
       = (Ok match Samples.login_batch, Hooks.haiku with
             | _ :: _, Hooks.haiku => Some (Some 1)
             | _, _ => None
             end, db')
       /\ bijective db'.
Proof.
  assert (H : bijective Samples.turn1_db)
    by (apply fts_bijection_bijective; vm_compute; reflexivity).
  split; [exact H|]. split; [reflexivity|].
  exact (onStop_keeps_bijection ascii_toLowerCase Hooks.haiku
           Samples.login_batch 100 1 Samples.turn1_db H eq_refl).
Defined.

(** ** The grouper *)

(** The calls held by the state of the first loop of [flushToEntries]. *)
Lemma group_push_calls (groups : list (jsstring * list BufferedCall))
    (fp : jsstring) (call : BufferedCall) :
  Permutation (List.concat (map snd (group_push groups fp call)))
              (List.concat (map snd groups) ++ [call])
  /\ (Forall (fun kg => snd kg <> []) groups ->
      Forall (fun kg => snd kg <> []) (group_push groups fp call)).
Proof.
  induction groups as [|[k g] r [IHp IHn]]; simpl.
  - split; [reflexivity|]. intros _. constructor; [discriminate | constructor].
  - destruct (str_eqb k fp); simpl.
    + split.
      * rewrite <- !app_assoc. apply Permutation_app_head, Permutation_app_comm.
      * intros H. inversion H; subst. constructor; [|assumption].
        simpl. intros E. now apply app_eq_nil in E as [_ E].
    + split.
      * rewrite <- app_assoc. now apply Permutation_app_head.
      * intros H. inversion H; subst. constructor; [assumption | now apply IHn].
Qed.

Lemma classify_step_calls (st : list (jsstring * list BufferedCall)
                                * list BufferedCall) (call : BufferedCall) :
  Permutation (List.concat (map snd (fst (classify_step st call)))
               ++ snd (classify_step st call))
              ((List.concat (map snd (fst st)) ++ snd st)
               ++ (if indexed call then [call] else []))
  /\ (Forall (fun kg => snd kg <> []) (fst st) ->
      Forall (fun kg => snd kg <> []) (fst (classify_step st call))).
Proof.
  destruct st as [fg sa]. unfold classify_step, indexed.
  destruct (includes IGNORED_TOOLS (tool_name call)); cbn [fst snd negb].
  - split; [now rewrite app_nil_r | auto].
  - destruct (includes FILE_TOOLS (tool_name call)); cbn [fst snd].
    + destruct (group_push_calls fg (file_key call) call) as [Hp Hn].
      split; [|exact Hn].
      rewrite Hp, <- !app_assoc. apply Permutation_app_head, Permutation_app_comm.
    + split; [now rewrite !app_assoc | auto].
Qed.

Lemma classify_calls_conserves (calls : list BufferedCall) :
  Permutation (List.concat (map snd (fst (classify_calls calls)))
               ++ snd (classify_calls calls))
              (filter indexed calls)
  /\ Forall (fun kg => snd kg <> []) (fst (classify_calls calls)).
Proof.
  unfold classify_calls.
  assert (H : forall st,
             Forall (fun kg => snd kg <> []) (fst st) ->
             Permutation
               (List.concat (map snd (fst (fold_left classify_step calls st)))
                ++ snd (fold_left classify_step calls st))
               ((List.concat (map snd (fst st)) ++ snd st) ++ filter indexed calls)
             /\ Forall (fun kg => snd kg <> [])
                       (fst (fold_left classify_step calls st))).
  { induction calls as [|c calls IH]; intros st Hst; simpl.
    - split; [now rewrite app_nil_r | exact Hst].
    - destruct (classify_step_calls st c) as [Hp Hn].
      destruct (IH (classify_step st c) (Hn Hst)) as [Hp' Hn'].
      split; [|exact Hn'].
      rewrite Hp', Hp, <- !app_assoc. apply Permutation_app_head.
      apply Permutation_app_head. now destruct (indexed c). }
  apply (H ([], [])). constructor.
Qed.

(** The rows that a loop of [insertEntry] appends. *)
Lemma insert_loop {X} (p now : Z) (fp : X -> option jsstring)
    (ty : X -> EntryType) (tc : X -> list jsobj)
    (body : list Z -> X -> M (list Z)) :
  (forall ids x,
     body ids x
     = bind (insertEntry (Some p) (fp x) (ty x) (tc x) now)
            (fun i => ret (ids ++ [i]))) ->
  forall (l : list X) (ids : list Z) (db : Db),
    store_wf db ->
    exists added db',
      foldM l ids body db = (Ok (ids ++ map id added), db')
      /\ store_wf db'
      /\ entries db' = entries db ++ added
      /\ map tool_calls added = map tc l
      /\ Forall (fun e => prompt_index e = p /\ annotation_status e = pending
                          /\ created_at e = now /\ description e = None)
                added
      /\ (forall j, In j (map id (entries db)) ->
                    Forall (Z.lt j) (map id added))
      /\ StronglySorted Z.lt (map id added)
      /\ entry_links db' = entry_links db
      /\ session_state db' = session_state db.
Proof.
  intros Hbody. induction l as [|x l IH]; intros ids db Hwf.
  - exists [], db. simpl. rewrite !app_nil_r.
    split; [reflexivity|]. split; [exact Hwf|]. split; [reflexivity|].
    split; [reflexivity|]. split; [constructor|].
    split; [intros; constructor|]. split; [constructor|]. now split.
  - simpl. unfold bind at 1. rewrite Hbody. unfold bind at 1.
    destruct (insertEntry_completes p (fp x) (ty x) (tc x) now db Hwf)
      as (i & db1 & Hrun & Hwf1).
    pose proof Hrun as Hrun'. unfold insertEntry in Hrun'.
    rewrite (insert_indexed_run _ _ _ _ _ db Hwf) in Hrun'.
    injection Hrun' as Hi Hdb1.
    rewrite Hrun. unfold ret at 1.
    destruct (IH (ids ++ [i]) db1 Hwf1)
      as (added & db' & Hloop & Hwf' & He & Htc & Hrows & Hfresh & Hsort
          & Hl & Hs).
    set (row := mkEntry i p (fp x) (ty x) (tc x) None None [] None None 0
                        pending now).
    assert (He1 : entries db1 = entries db ++ [row]).
    { rewrite <- Hdb1. unfold inserted_db. simpl. now rewrite Hi. }
    exists (row :: added), db'. simpl.
    split; [rewrite Hloop, <- app_assoc; reflexivity|].
    split; [exact Hwf'|].
    split; [rewrite He, He1, <- app_assoc; reflexivity|].
    split; [now rewrite Htc|].
    split; [constructor; [repeat split | exact Hrows]|].
    assert (Hi' : Forall (Z.lt i) (map id added)).
    { apply Hfresh. rewrite He1, map_app, in_app_iff. right. now left. }
    split; [|split; [|split]].
    + intros j Hj. constructor.
      * rewrite <- Hi. now apply next_auto_fresh.
      * apply Hfresh. rewrite He1, map_app, in_app_iff. now left.
    + constructor; assumption.
    + rewrite Hl, <- Hdb1. reflexivity.
    + rewrite Hs, <- Hdb1. reflexivity.
Qed.

Lemma concat_singletons {A B} (f : A -> B) (l : list A) :
  List.concat (map (fun x => [f x]) l) = map f l.
Proof. induction l as [|x l IH]; simpl; [reflexivity | now rewrite IH]. Qed.

(** The rows that [flushToEntries] appends. *)
Lemma flushToEntries_rows (p : Z) (calls : list BufferedCall)
    (now : Z) (db : Db) :
  store_wf db ->
  exists added db',
    flushToEntries (Some p) calls now db = (Ok (map id added), db')
    /\ entries db' = entries db ++ added
    /\ Permutation (List.concat (map tool_calls added))
                   (map summarizeCall (filter indexed calls))
    /\ Forall (fun e => prompt_index e = p /\ annotation_status e = pending
                        /\ description e = None /\ tool_calls e <> [])
              added
    /\ StronglySorted Z.lt (map id added)
    /\ (forall j, In j (map id (entries db)) -> Forall (Z.lt j) (map id added))
    /\ entry_links db' = entry_links db
    /\ session_state db' = session_state db.
Proof.
  intros Hwf. unfold flushToEntries.
  destruct (classify_calls_conserves calls) as [Hperm Hne].
  destruct (classify_calls calls) as [fg st]. simpl in Hperm, Hne.
  unfold bind at 1.
  match goal with
  | |- context [foldM fg [] ?body db] =>
      destruct (insert_loop p now
                  (fun kg : jsstring * list BufferedCall => Some (fst kg))
                  (fun kg =>
                     if existsb (fun c => includes WRITE_TOOLS (tool_name c))
                                (snd kg)
                     then file_change else research)
                  (fun kg => map summarizeCall (snd kg))
                  body (fun ids kg => match kg with (k, g) => eq_refl end)
                  fg [] db Hwf)
        as (a1 & db1 & -> & Hwf1 & He1 & Htc1 & Hr1 & Hf1 & Hs1 & Hl1 & Hst1)
  end.
  simpl app.
  match goal with
  | |- context [foldM st (map id a1) ?body db1] =>
      destruct (insert_loop p now
                  (fun call : BufferedCall =>
                     match key_field (tool_name call) with
                     | Some keyField =>
                         Some (truncate
                                 (nullish (get_prop (tool_input call) keyField)
                                          []) 500)
                     | None => None
                     end)
                  (fun call => classifyTool (tool_name call))
                  (fun call => [summarizeCall call])
                  body (fun ids call => eq_refl)
                  st (map id a1) db1 Hwf1)
        as (a2 & db2 & -> & Hwf2 & He2 & Htc2 & Hr2 & Hf2 & Hs2 & Hl2 & Hst2)
  end.
  exists (a1 ++ a2), db2.
  split; [now rewrite map_app|].
  split; [now rewrite He2, He1, app_assoc|].
  split; [|split; [|split; [|split; [|split]]]].
  - rewrite map_app, concat_app, Htc1, Htc2, concat_singletons.
    rewrite <- (map_map snd (map summarizeCall)), <- concat_map, <- map_app.
    now apply Permutation_map.
  - apply Forall_app. split.
    + assert (Hn : Forall (fun e => tool_calls e <> []) a1).
      { apply Forall_forall. intros e He.
        assert (Hin : In (tool_calls e) (map tool_calls a1)) by now apply in_map.
        rewrite Htc1 in Hin. apply in_map_iff in Hin as ([k g] & E & Hin).
        rewrite Forall_forall in Hne. specialize (Hne _ Hin). simpl in *.
        rewrite <- E. destruct g; [contradiction | discriminate]. }
      rewrite Forall_forall in *. intros e He.
      specialize (Hr1 e He). specialize (Hn e He). tauto.
    + assert (Hn : Forall (fun e => tool_calls e <> []) a2).
      { apply Forall_forall. intros e He.
        assert (Hin : In (tool_calls e) (map tool_calls a2)) by now apply in_map.
        rewrite Htc2 in Hin. apply in_map_iff in Hin as (c & E & Hin).
        rewrite <- E. discriminate. }
      rewrite Forall_forall in *. intros e He.
      specialize (Hr2 e He). specialize (Hn e He). tauto.
  - rewrite map_app. clear - Hs1 Hs2 Hf2 He1.
    assert (H12 : Forall (fun i => Forall (Z.lt i) (map id a2)) (map id a1)).
    { apply Forall_forall. intros i Hi. apply Hf2.
      rewrite He1, map_app, in_app_iff. now right. }
    induction Hs1 as [|i l Hl IH Hi]; simpl; [exact Hs2|].
    inversion H12; subst. constructor; [now apply IH|].
    apply Forall_app. now split.
  - intros j Hj. rewrite map_app. apply Forall_app. split; [now apply Hf1|].
    apply Hf2. rewrite He1, map_app, in_app_iff. now left.
  - congruence.
  - congruence.
Qed.

(** X7.  [flushToEntries] loses and duplicates no call.  From a store that
    satisfies its constraints it completes; the rows it appends are
    pending, of the given prompt index, not annotated and hold at least one
    call each; together they hold the summaries of exactly the buffered
    calls whose tool is not ignored, each once; the ids it returns are
    those of the appended rows, increasing and greater than every id that
    was in use; links and session state are untouched. *)
Theorem flushToEntries_conserves_calls (p : Z) (calls : list BufferedCall)
    (now : Z) (db : Db) :
  store_wf db ->
  exists added db',
    flushToEntries (Some p) calls now db = (Ok (map id added), db')
    /\ entries db' = entries db ++ added
    /\ Permutation (List.concat (map tool_calls added))
                   (map summarizeCall (filter indexed calls))
    /\ Forall (fun e => prompt_index e = p /\ annotation_status e = pending
                        /\ description e = None /\ tool_calls e <> [])
              added
    /\ StronglySorted Z.lt (map id added)
    /\ (forall j, In j (map id (entries db)) -> Forall (Z.lt j) (map id added))
    /\ entry_links db' = entry_links db
    /\ session_state db' = session_state db.
Proof. exact (flushToEntries_rows p calls now db). Qed.

Lemma flushToEntries_conserves_calls_witness :
  store_wf empty_db
  /\ exists added db',
       flushToEntries (Some 1) Samples.grouping_batch 5 empty_db
       = (Ok (map id added), db')
       /\ entries db' = entries empty_db ++ added
       /\ Permutation (List.concat (map tool_calls added))
                      (map summarizeCall (filter indexed Samples.grouping_batch))
       /\ Forall (fun e => prompt_index e = 1 /\ annotation_status e = pending
                           /\ description e = None /\ tool_calls e <> [])
                 added
       /\ StronglySorted Z.lt (map id added)
       /\ (forall j, In j (map id (entries empty_db)) ->
                     Forall (Z.lt j) (map id added))
       /\ entry_links db' = entry_links empty_db
       /\ session_state db' = session_state empty_db.
Proof.
  split; [exact empty_db_wf|].
  exact (flushToEntries_conserves_calls 1 Samples.grouping_batch 5 empty_db
           empty_db_wf).
Defined.

(** X8.  A batch that holds ignored tools only leaves the database as it
    was: [flushToEntries] inserts nothing and returns no id, whatever the
    prompt index. *)
Theorem flushToEntries_ignored_only (pi : option Z) (calls : list BufferedCall)
    (now : Z) (db : Db) :
  forallb (fun c => negb (indexed c)) calls = true ->
  flushToEntries pi calls now db = (Ok [], db).
Proof.
  intros H. unfold flushToEntries.
  assert (E : classify_calls calls = ([], [])).
  { unfold classify_calls. induction calls as [|c calls IH]; [reflexivity|].
    cbn [fold_left forallb] in *. apply andb_true_iff in H as [Hc H].
    unfold indexed in Hc. apply negb_true_iff, negb_false_iff in Hc.
    assert (Ec : classify_step ([], []) c = ([], []))
      by (unfold classify_step; now rewrite Hc).
    rewrite Ec. now apply IH. }
  rewrite E. reflexivity.
Qed.

Lemma flushToEntries_ignored_only_witness :
  forallb (fun c => negb (indexed c)) MoreSamples.ignored_batch = true
  /\ flushToEntries (Some 3) MoreSamples.ignored_batch 9 Samples.indexed_db
     = (Ok [], Samples.indexed_db).
Proof.
  split; [reflexivity|].
  apply (flushToEntries_ignored_only (Some 3) MoreSamples.ignored_batch 9
           Samples.indexed_db).
  reflexivity.
Defined.

(** ** Queries of the store *)

Lemma insert_by_perm {A} (le : A -> A -> bool) (x : A) (l : list A) :
  Permutation (insert_by le x l) (x :: l).
Proof.
  induction l as [|y l IH]; simpl; [reflexivity|].
  destruct (le x y); [reflexivity|].
  rewrite IH. apply perm_swap.
Qed.

Lemma sort_by_perm {A} (le : A -> A -> bool) (l : list A) :
  Permutation (sort_by le l) l.
Proof.
  induction l as [|x l IH]; simpl; [reflexivity|].
  rewrite insert_by_perm. now constructor.
Qed.

Lemma insert_by_prompt_sorted (x : EntryRow) (l : list EntryRow) :
  StronglySorted prompt_ge l ->
  StronglySorted prompt_ge (insert_by by_prompt_desc x l).
Proof.
  induction 1 as [|y l Hl IH Hy]; simpl.
  - constructor; constructor.
  - unfold by_prompt_desc at 1. destruct (prompt_index y <=? prompt_index x) eqn:E.
    + apply Z.leb_le in E. constructor; [now constructor|].
      constructor; [exact E|].
      eapply Forall_impl; [|exact Hy]. unfold prompt_ge. intros; lia.
    + apply Z.leb_gt in E. constructor; [exact IH|].
      eapply Permutation_Forall; [symmetry; apply insert_by_perm|].
      constructor; [unfold prompt_ge; lia | exact Hy].
Qed.

Lemma sort_by_prompt_sorted (l : list EntryRow) :
  StronglySorted prompt_ge (sort_by by_prompt_desc l).
Proof.
  induction l as [|x l IH]; simpl; [constructor|].
  now apply insert_by_prompt_sorted.
Qed.

Lemma sorted_firstn {A} (R : A -> A -> Prop) (n : nat) (l : list A) :
  StronglySorted R l ->
  StronglySorted R (firstn n l)
  /\ forall x y, In x (firstn n l) -> In y (skipn n l) -> R x y.
Proof.
  intros H. revert n. induction H as [|a l Hl IH Ha]; intros n.
  - rewrite firstn_nil, skipn_nil. split; [constructor | intros ? ? []].
  - destruct n as [|n]; simpl; [split; [constructor | intros ? ? []]|].
    destruct (IH n) as [Hs Hc]. split.
    + constructor; [exact Hs|].
      apply Forall_forall. intros x Hx. rewrite Forall_forall in Ha.
      apply Ha. eapply In_firstn, Hx.
    + intros x y [<- | Hx] Hy; [|now apply Hc].
      rewrite Forall_forall in Ha. apply Ha.
      rewrite <- (firstn_skipn n l), in_app_iff. now right.
Qed.

(** [ORDER BY prompt_index DESC LIMIT n] *)
Lemma most_recent (n : nat) (l : list EntryRow) :
  let r := firstn n (sort_by by_prompt_desc l) in
  List.length r = Nat.min n (List.length l)
  /\ StronglySorted prompt_ge r
  /\ (forall e, In e r -> In e l)
  /\ (forall e, In e l -> In e r \/ Forall (fun x => prompt_ge x e) r).
Proof.
  intros r. unfold r.
  destruct (sorted_firstn prompt_ge n _ (sort_by_prompt_sorted l)) as [Hs Hc].
  split; [|split; [exact Hs|split]].
  - rewrite length_firstn. f_equal. apply Permutation_length, sort_by_perm.
  - intros e He. eapply sort_by_In, In_firstn, He.
  - intros e He.
    assert (Hin : In e (sort_by by_prompt_desc l))
      by (eapply Permutation_in; [symmetry; apply sort_by_perm | exact He]).
    rewrite <- (firstn_skipn n (sort_by by_prompt_desc l)), in_app_iff in Hin.
    destruct Hin as [Hin | Hin]; [now left | right].
    apply Forall_forall. intros x Hx. now apply Hc.
Qed.

(** X9.  [getFailedEntries] and [getHistoricalEntries] return the most
    recent rows that qualify: the result is as long as the limit allows,
    holds only rows of the table that are failed (annotated, with a prompt
    index below [beforePrompt]), in descending order of prompt index, and
    every qualifying row that is left out is at most as recent as every row
    returned. *)
Theorem most_recent_entries (db : Db) (beforePrompt : Z) (limit : nat) :
  let failed_rows :=
    filter (fun e => status_eqb (annotation_status e) failed) (entries db) in
  let old_rows :=
    filter (fun e => status_eqb (annotation_status e) annotated
                     && (prompt_index e <? beforePrompt)) (entries db) in
  (List.length (getFailedEntries db limit)
   = Nat.min limit (List.length failed_rows)
   /\ StronglySorted prompt_ge (getFailedEntries db limit)
   /\ (forall e, In e (getFailedEntries db limit) ->
                 In e (entries db) /\ annotation_status e = failed)
   /\ (forall e, In e (entries db) -> annotation_status e = failed ->
                 In e (getFailedEntries db limit)
                 \/ Forall (fun x => prompt_ge x e) (getFailedEntries db limit)))
  /\ (List.length (getHistoricalEntries db beforePrompt limit)
      = Nat.min limit (List.length old_rows)
      /\ StronglySorted prompt_ge (getHistoricalEntries db beforePrompt limit)
      /\ (forall e, In e (getHistoricalEntries db beforePrompt limit) ->
                    In e (entries db) /\ annotation_status e = annotated
                    /\ prompt_index e < beforePrompt)
      /\ (forall e, In e (entries db) -> annotation_status e = annotated ->
                    prompt_index e < beforePrompt ->
                    In e (getHistoricalEntries db beforePrompt limit)
                    \/ Forall (fun x => prompt_ge x e)
                              (getHistoricalEntries db beforePrompt limit))).
Proof.
  intros failed_rows old_rows. split.
  - destruct (most_recent limit failed_rows) as (Hl & Hs & Hi & Hm).
    unfold getFailedEntries. fold failed_rows.
    split; [exact Hl|]. split; [exact Hs|]. split.
    + intros e He. apply Hi, filter_In in He as [He Hst].
      split; [exact He | now apply status_eqb_eq].
    + intros e He Hst. apply Hm, filter_In. split; [exact He|].
      now apply status_eqb_eq.
  - destruct (most_recent limit old_rows) as (Hl & Hs & Hi & Hm).
    unfold getHistoricalEntries. fold old_rows.
    split; [exact Hl|]. split; [exact Hs|]. split.
    + intros e He. apply Hi, filter_In in He as [He Hst].
      apply andb_true_iff in Hst as [Hst Hp].
      split; [exact He|]. split; [now apply status_eqb_eq | now apply Z.ltb_lt].
    + intros e He Hst Hp. apply Hm, filter_In. split; [exact He|].
      apply andb_true_iff. split; [now apply status_eqb_eq | now apply Z.ltb_lt].
Qed.

(** X10.  [markFailed] closes a prompt and nothing else: it completes;
    afterwards no row of that prompt index is pending or annotating; a row
    of another prompt index, or one that was annotated or failed, is as it
    was; the rows it changes differ in their status only; and a second
    [markFailed] changes nothing. *)
Theorem markFailed_effect (p : Z) (db : Db) :
  let db' := snd (markFailed p db) in
  fst (markFailed p db) = Ok tt
  /\ closed_at p db'
  /\ Forall2 (fun e e' =>
                (if (prompt_index e =? p) && is_pending_or_annotating e
                 then e' = set_status failed e else e' = e))
             (entries db) (entries db')
  /\ markFailed p db' = (Ok tt, db')
  /\ entries_fts db' = entries_fts db /\ fts_map db' = fts_map db
  /\ entry_links db' = entry_links db /\ session_state db' = session_state db.
Proof.
  intros db'. split; [reflexivity|].
  assert (Hc : closed_at p db').
  { eapply Forall_impl; [|apply markFailed_closes]. intros e He Hp.
    unfold is_pending_or_annotating. destruct (He Hp) as [-> | ->]; reflexivity. }
  split; [exact Hc|]. split; [|split; [|repeat split]].
  - unfold db'. rewrite markFailed_entries.
    induction (entries db) as [|e es IH]; simpl; constructor; [|exact IH].
    now destruct ((prompt_index e =? p) && is_pending_or_annotating e).
  - unfold markFailed, update_entries, modify. f_equal.
    replace (map _ (entries db')) with (entries db'); [now destruct db'|].
    symmetry. erewrite map_ext_in; [apply map_id|]. intros e He. cbv beta.
    unfold closed_at in Hc. rewrite Forall_forall in Hc. specialize (Hc e He).
    destruct (prompt_index e =? p) eqn:E; [|reflexivity].
    apply Z.eqb_eq in E. now rewrite (Hc E).
Qed.

(** ** Links *)

Lemma link_exists_iff (s t : Z) (ty : jsstring) (ls : list LinkRow) :
  existsb (fun l => (source_id l =? s) && (target_id l =? t)
                    && str_eqb (link_type l) ty) ls = true
  <-> In (s, t, ty) (map link_key ls).
Proof.
  rewrite existsb_exists, in_map_iff. unfold link_key.
  split; intros (l & H1 & H2); exists l.
  - apply andb_true_iff in H2 as [H2 H3]. apply andb_true_iff in H2 as [H2 H4].
    apply Z.eqb_eq in H2, H4. apply str_eqb_eq in H3.
    split; [congruence | exact H1].
  - injection H1 as -> -> ->. split; [exact H2|].
    now rewrite !Z.eqb_refl, str_eqb_refl.
Qed.

(** X11.  [insertLink] of a well-formed link type keeps [entry_links] free
    of duplicate (source, target, type) triples, whatever the ids:
    afterwards the triple is present; a triple that was present already
    adds no row; a new one adds one row, whose id is the new value of the
    counter, greater than every link id in use; and inserting the same
    triple again, at any later time, leaves the rows as they are.  The
    counter of the [AUTOINCREMENT] table advances at every call, for a
    skipped row as well, so the ids of the links can have gaps.  The other
    tables are untouched. *)
Theorem insertLink_unique (s t : Z) (ty : jsstring) (now now' : Z) (db : Db) :
  links_unique db -> well_formed ty = true ->
  let db' := snd (insertLink s t ty now db) in
  fst (insertLink s t ty now db) = Ok tt
  /\ links_unique db'
  /\ In (s, t, ty) (map link_key (entry_links db'))
  /\ (In (s, t, ty) (map link_key (entry_links db)) ->
      entry_links db' = entry_links db)
  /\ (~ In (s, t, ty) (map link_key (entry_links db)) ->
      entry_links db'
      = entry_links db ++ [mkLink (entry_links_seq db') s t ty now])
  /\ entry_links_seq db < entry_links_seq db'
  /\ (forall l, In l (entry_links db) -> link_id l < entry_links_seq db')
  /\ entry_links (snd (insertLink s t ty now' db')) = entry_links db'
  /\ entry_links_seq db' < entry_links_seq (snd (insertLink s t ty now' db'))
  /\ entries db' = entries db /\ entries_fts db' = entries_fts db
  /\ fts_map db' = fts_map db /\ session_state db' = session_state db.
Proof.
  intros Hu _ db'. split; [reflexivity|].
  pose proof (link_exists_iff s t ty (entry_links db)) as Hiff.
  assert (Hseq : entry_links_seq db'
                 = next_auto (entry_links_seq db)
                             (map link_id (entry_links db))).
  { unfold db', insertLink, modify. simpl.
    now destruct (existsb _ (entry_links db)). }
  assert (Hin : In (s, t, ty) (map link_key (entry_links db'))).
  { unfold db', insertLink, modify. simpl.
    destruct (existsb _ (entry_links db)); [now apply Hiff|].
    simpl. rewrite map_app, in_app_iff. right. now left. }
  assert (Hgrow : forall d, entry_links_seq d
                            < next_auto (entry_links_seq d)
                                        (map link_id (entry_links d))).
  { intros d. unfold next_auto. lia. }
  split; [|split; [exact Hin|split; [|split; [|split; [|split; [|split;
    [|split]]]]]]].
  - unfold db', insertLink, modify. simpl.
    destruct (existsb _ (entry_links db)) eqn:E; [exact Hu|].
    unfold links_unique. simpl. rewrite map_app. apply NoDup_snoc; [exact Hu|].
    intros H. apply Hiff in H. congruence.
  - intros H. apply Hiff in H. unfold db', insertLink, modify. simpl.
    now rewrite H.
  - intros H. rewrite Hseq. unfold db', insertLink, modify. simpl.
    destruct (existsb _ (entry_links db)) eqn:E; [exfalso; now apply H, Hiff|].
    reflexivity.
  - rewrite Hseq. apply Hgrow.
  - intros l Hl. rewrite Hseq. apply next_auto_fresh. now apply in_map.
  - apply (link_exists_iff s t ty (entry_links db')) in Hin.
    unfold insertLink at 1, modify. simpl. now rewrite Hin.
  - unfold insertLink at 1, modify. simpl.
    destruct (existsb _ (entry_links db')); simpl; apply Hgrow.
  - unfold db', insertLink, modify. simpl.
    destruct (existsb _ (entry_links db)); repeat split.
Qed.

(** A link is inserted twice and then another one: the second insert adds
    no row and takes id 2, so the other link gets id 3. *)
Lemma insertLink_unique_witness :
  links_unique empty_db
  /\ well_formed (lit "extends") = true
  /\ map link_id
       (entry_links
          (snd (insertLink 1 3 (lit "extends") 30
                  (snd (insertLink 1 2 (lit "extends") 20
                          (snd (insertLink 1 2 (lit "extends") 10
                                  empty_db)))))))
     = [1; 3]
  /\ (let db' := snd (insertLink 1 2 (lit "extends") 10 empty_db) in
      fst (insertLink 1 2 (lit "extends") 10 empty_db) = Ok tt
      /\ links_unique db'
      /\ In (1, 2, lit "extends") (map link_key (entry_links db'))
      /\ (In (1, 2, lit "extends") (map link_key (entry_links empty_db)) ->
          entry_links db' = entry_links empty_db)
      /\ (~ In (1, 2, lit "extends") (map link_key (entry_links empty_db)) ->
          entry_links db'
          = entry_links empty_db
            ++ [mkLink (entry_links_seq db') 1 2 (lit "extends") 10])
      /\ entry_links_seq empty_db < entry_links_seq db'
      /\ (forall l, In l (entry_links empty_db) ->
                    link_id l < entry_links_seq db')
      /\ entry_links (snd (insertLink 1 2 (lit "extends") 20 db'))
         = entry_links db'
      /\ entry_links_seq db'
         < entry_links_seq (snd (insertLink 1 2 (lit "extends") 20 db'))
      /\ entries db' = entries empty_db
      /\ entries_fts db' = entries_fts empty_db
      /\ fts_map db' = fts_map empty_db
      /\ session_state db' = session_state empty_db).
Proof.
  assert (H : links_unique empty_db) by constructor.
  assert (Hw : well_formed (lit "extends") = true) by reflexivity.
  split; [exact H|]. split; [exact Hw|]. split; [reflexivity|].
  exact (insertLink_unique 1 2 (lit "extends") 10 20 empty_db H Hw).
Defined.

(** ** The status report *)

Lemma sql_sum_some (l : list Z) :
  l <> [] -> Status.sql_sum l = Some (fold_right Z.add 0 l).
Proof. destruct l; [congruence | reflexivity]. Qed.

Lemma case_status_total (rows : list EntryRow) :
  fold_right Z.add 0 (map (Status.case_status annotated) rows)
  + fold_right Z.add 0 (map (Status.case_status pending) rows)
  + fold_right Z.add 0 (map (Status.case_status failed) rows)
  + Z.of_nat (List.length
                (filter (fun e => status_eqb (annotation_status e) annotating)
                        rows))
  = Z.of_nat (List.length rows).
Proof.
  induction rows as [|e rows IH]; [reflexivity|].
  cbn [map fold_right filter List.length]. unfold Status.case_status at 1 3 5.
  destruct (annotation_status e); cbn [status_eqb List.length]; lia.
Qed.

(** X12.  The counts of [getEntryCount] are over the entries that are not
    summaries.  With no such entry the total is 0 and the three sums are
    NULL, not 0.  Otherwise the three sums are numbers, and together with
    the number of entries in status annotating, which the report leaves
    out, they add up to the total. *)
Theorem getEntryCount_total (db : Db) :
  let rows := filter (fun e => negb (entry_type_eqb (entry_type e) summary))
                     (entries db) in
  let c := Status.getEntryCount db in
  Status.count_total c = Z.of_nat (List.length rows)
  /\ (rows = [] ->
      Status.count_annotated c = None /\ Status.count_pending c = None
      /\ Status.count_failed c = None)
  /\ (rows <> [] ->
      exists a p f,
        Status.count_annotated c = Some a /\ Status.count_pending c = Some p
        /\ Status.count_failed c = Some f
        /\ 0 <= a /\ 0 <= p /\ 0 <= f
        /\ a + p + f
           + Z.of_nat (List.length
                         (filter (fun e => status_eqb (annotation_status e)
                                                      annotating) rows))
           = Status.count_total c).
Proof.
  intros rows c. unfold c, Status.getEntryCount. fold rows. simpl.
  split; [reflexivity|]. split.
  - intros ->. now repeat split.
  - intros Hne.
    assert (Hm : forall s, map (Status.case_status s) rows <> []).
    { intros s E. apply map_eq_nil in E. contradiction. }
    assert (Hpos : forall s,
               0 <= fold_right Z.add 0 (map (Status.case_status s) rows)).
    { intros s. induction rows as [|e r IH]; simpl; [lia|].
      assert (0 <= fold_right Z.add 0 (map (Status.case_status s) r)).
      { destruct r; [simpl; lia | apply IH; discriminate]. }
      unfold Status.case_status at 1.
      destruct (status_eqb (annotation_status e) s); lia. }
    eexists. eexists. eexists.
    rewrite !sql_sum_some by apply Hm.
    repeat split; try apply Hpos. apply case_status_total.
Qed.

(** ** The FTS query *)

Lemma split_ws_from_chars (in_run : bool) (s t : jsstring) :
  In t (split_ws_from in_run s) ->
  Forall (fun c => In c s /\ is_space c = false) t.
Proof.
  revert in_run t. induction s as [|x r IH]; intros in_run t Ht; simpl in Ht.
  - destruct Ht as [<- | []]. constructor.
  - destruct (is_space x) eqn:Ex.
    + assert (Hin : t = [] \/ In t (split_ws_from true r)).
      { destruct in_run; [now right|]. destruct Ht as [<- | Ht]; auto. }
      destruct Hin as [-> | Hin]; [constructor|].
      eapply Forall_impl; [|exact (IH true t Hin)].
      intros c [Hc Hs]. split; [now right | exact Hs].
    + pose proof (IH false) as IHf.
      destruct (split_ws_from false r) as [|h tl].
      * destruct Ht as [<- | []].
        constructor; [split; [now left | exact Ex] | constructor].
      * destruct Ht as [<- | Ht].
        -- constructor; [split; [now left | exact Ex]|].
           eapply Forall_impl; [|exact (IHf h (or_introl eq_refl))].
           intros c [Hc Hs]. split; [now right | exact Hs].
        -- eapply Forall_impl; [|exact (IHf t (or_intror Ht))].
           intros c [Hc Hs]. split; [now right | exact Hs].
Qed.

Lemma join_count (sep : jsstring) (l : list jsstring) (x : N) :
  count_occ N.eq_dec sep x = 0%nat ->
  count_occ N.eq_dec (join sep l) x
  = fold_right (fun s acc => (count_occ N.eq_dec s x + acc)%nat) 0%nat l.
Proof.
  intros Hsep. induction l as [|y r IH]; [reflexivity|].
  destruct r as [|z r].
  - simpl. lia.
  - change (join sep (y :: z :: r)) with (y ++ sep ++ join sep (z :: r)).
    rewrite !count_occ_app, IH, Hsep. reflexivity.
Qed.

Section FtsQuery.

Variable toLowerCase : jsstring -> jsstring.

Lemma query_tokens_terms (prompt : jsstring) :
  Forall (fun t => 2 < len t /\ includes STOPWORDS t = false
                   /\ Forall (fun c => term_char c = true) t)
         (Retrieve.query_tokens toLowerCase prompt).
Proof.
  apply Forall_forall. intros t Ht. unfold Retrieve.query_tokens in Ht.
  apply In_firstn, filter_In in Ht as [Ht Hf].
  apply andb_true_iff in Hf as [Hl Hs].
  split; [now apply Z.ltb_lt|]. split; [now apply negb_true_iff|].
  apply split_ws_from_chars in Ht. eapply Forall_impl; [|exact Ht].
  intros c [Hc Hsp]. unfold replace_outside in Hc.
  apply in_map_iff in Hc as (c0 & E & _).
  destruct (is_word c0 || is_space c0 || (c0 =? 47)%N || (c0 =? 46)%N
            || (c0 =? 45)%N) eqn:K.
  - subst c0. unfold term_char. rewrite Hsp in K.
    now rewrite orb_false_r in K.
  - subst c. discriminate Hsp.
Qed.

(** X13.  The terms of the FTS query: at most [FTS_MAX_TERMS] of them, each
    longer than two characters, none a stopword, and made of word
    characters, [/], [.] and [-] only, whatever the prompt holds.  So no
    term holds a double quote or white space, and the query, when there is
    one, holds exactly two double quotes per term.  There is no query
    exactly when no term is left. *)
Theorem buildFtsQuery_terms (prompt : jsstring) :
  let terms := Retrieve.query_tokens toLowerCase prompt in
  (List.length terms <= FTS_MAX_TERMS)%nat
  /\ Forall (fun t => 2 < len t /\ includes STOPWORDS t = false
                      /\ Forall (fun c => term_char c = true) t) terms
  /\ (Retrieve.buildFtsQuery toLowerCase prompt = None <-> terms = [])
  /\ (forall q, Retrieve.buildFtsQuery toLowerCase prompt = Some q ->
                count_occ N.eq_dec q 34%N = (2 * List.length terms)%nat).
Proof.
  intros terms. pose proof (query_tokens_terms prompt) as Hterms.
  fold terms in Hterms.
  split; [unfold terms, Retrieve.query_tokens; rewrite length_firstn;
          apply Nat.le_min_l|].
  split; [exact Hterms|].
  unfold Retrieve.buildFtsQuery. fold terms. split.
  - destruct terms; split; congruence.
  - intros q Hq.
    assert (E : q = join (lit " OR ") (map (fun t => dquote ++ t ++ dquote) terms))
      by (destruct terms; [discriminate | congruence]).
    rewrite E, join_count by reflexivity. clear E Hq.
    induction Hterms as [|t ts (_ & _ & Ht) _ IH]; [reflexivity|].
    cbn [map fold_right List.length]. rewrite IH.
    rewrite !count_occ_app.
    assert (Hz : count_occ N.eq_dec t 34%N = 0%nat).
    { apply count_occ_not_In. intros Hin. rewrite Forall_forall in Ht.
      specialize (Ht _ Hin). discriminate Ht. }
    rewrite Hz. simpl. lia.
Qed.

End FtsQuery.

(** ** A completed run of the background annotator *)

Lemma applyAnnotations_entries (anns : list (option Annotate.Annotation)) :
  forall (s ids : list Z) (db db' : Db),
    foldM anns s (fun annotatedIds ann =>
      match ann with
      | None => throw TypeError
      | Some a =>
          bind (annotateEntry (Annotate.ann_entry_id a)
                  (Annotate.ann_description a) (Annotate.ann_tags a)
                  (Annotate.ann_group a) (Annotate.ann_files a)
                  (Annotate.ann_conf a) (Annotate.ann_low a))
               (fun _ => ret (Annotate.id_add (Annotate.ann_entry_id a)
                                annotatedIds))
      end) db = (Ok ids, db') ->
    exists l,
      anns = map Some l
      /\ entries db' = map (ann_row l) (entries db)
      /\ ids = fold_left (fun s a => Annotate.id_add (Annotate.ann_entry_id a) s)
                         l s.
Proof.
  induction anns as [|[a|] anns IH]; intros s ids db db' H; simpl in H.
  - injection H as <- <-. exists []. simpl. now rewrite map_id.
  - unfold bind at 1 2 in H.
    pose proof (annotateEntry_entries (Annotate.ann_entry_id a)
                  (Annotate.ann_description a) (Annotate.ann_tags a)
                  (Annotate.ann_group a) (Annotate.ann_files a)
                  (Annotate.ann_conf a) (Annotate.ann_low a) db) as He.
    destruct (annotateEntry _ _ _ _ _ _ _ db) as [[[]|ex] db1];
      [|discriminate H].
    simpl in He. unfold ret at 1 in H.
    destruct (IH _ _ _ _ H) as (l & -> & He' & ->).
    exists (a :: l). split; [reflexivity|]. split; [|reflexivity].
    rewrite He', He, map_map. reflexivity.
  - discriminate H.
Qed.

Lemma id_add_fold_In (l : list Annotate.Annotation) (s : list Z) (i : Z) :
  In i (fold_left (fun s a => Annotate.id_add (Annotate.ann_entry_id a) s) l s)
  <-> In i s \/ In i (annotated_ids l).
Proof.
  revert s. induction l as [|a l IH]; intros s; simpl; [tauto|].
  rewrite IH. unfold Annotate.id_add.
  destruct (existsb (Z.eqb (Annotate.ann_entry_id a)) s) eqn:E.
  - apply existsb_exists in E as (x & Hx & E). apply Z.eqb_eq in E. subst x.
    split; [tauto|]. intros [H | [<- | H]]; auto.
  - rewrite in_app_iff. simpl. tauto.
Qed.

Lemma ann_upd_id (a : Annotate.Annotation) (e : EntryRow) :
  id (ann_upd a e) = id e.
Proof. unfold ann_upd. now destruct (id e =? Annotate.ann_entry_id a). Qed.

Lemma ann_row_id (l : list Annotate.Annotation) (e : EntryRow) :
  id (ann_row l e) = id e.
Proof.
  revert e. induction l as [|a l IH]; intros e; [reflexivity|].
  unfold ann_row in *. simpl. now rewrite IH, ann_upd_id.
Qed.

Lemma ann_row_keeps_annotated (l : list Annotate.Annotation) (e : EntryRow) :
  annotation_status e = annotated ->
  annotation_status (ann_row l e) = annotated.
Proof.
  revert e. induction l as [|a l IH]; intros e He; [exact He|].
  unfold ann_row in *. simpl. apply IH. unfold ann_upd.
  now destruct (id e =? Annotate.ann_entry_id a).
Qed.

Lemma ann_row_annotated (l : list Annotate.Annotation) (e : EntryRow) :
  In (id e) (annotated_ids l) ->
  annotation_status (ann_row l e) = annotated.
Proof.
  revert e. induction l as [|a l IH]; intros e He; [destruct He|].
  change (ann_row (a :: l) e) with (ann_row l (ann_upd a e)).
  destruct (Z.eq_dec (Annotate.ann_entry_id a) (id e)) as [E | Hne].
  - apply ann_row_keeps_annotated. unfold ann_upd.
    rewrite <- E, Z.eqb_refl. reflexivity.
  - apply IH. rewrite ann_upd_id. destruct He as [He | He]; [contradiction|].
    exact He.
Qed.

Lemma failUnannotated_run (allEntries : list EntryRow) (ids : list Z) (db : Db) :
  exists db',
    Annotate.failUnannotated allEntries ids db = (Ok tt, db')
    /\ entries db' = map (fail_row allEntries ids) (entries db).
Proof.
  unfold Annotate.failUnannotated, forEach. revert db.
  induction allEntries as [|x l IH]; intros db; simpl.
  - exists db. split; [reflexivity|]. unfold fail_row. simpl.
    now rewrite map_id.
  - unfold bind at 1.
    destruct (existsb (Z.eqb (id x)) ids) eqn:E.
    + unfold ret at 1. destruct (IH db) as (db' & -> & He).
      exists db'. split; [reflexivity|]. rewrite He. apply map_ext.
      intros e. unfold fail_row. simpl. now rewrite E.
    + set (db1 := snd (update_entries (fun e => id e =? id x)
                                      (set_status failed) db)).
      change (update_entries (fun e => id e =? id x) (set_status failed) db)
        with (Ok tt, db1).
      destruct (IH db1) as (db' & -> & He).
      exists db'. split; [reflexivity|]. rewrite He. unfold db1. simpl.
      rewrite map_map. apply map_ext. intros e. unfold fail_row. simpl.
      now rewrite E.
Qed.

Lemma fail_row_id (l : list EntryRow) (ids : list Z) (e : EntryRow) :
  id (fail_row l ids e) = id e.
Proof.
  revert e. induction l as [|x l IH]; intros e; [reflexivity|].
  unfold fail_row in *. simpl. rewrite IH.
  destruct (existsb (Z.eqb (id x)) ids); [reflexivity|].
  now destruct (id e =? id x).
Qed.

Lemma fail_row_named (l : list EntryRow) (ids : list Z) (e : EntryRow) :
  existsb (Z.eqb (id e)) ids = true -> fail_row l ids e = e.
Proof.
  intros He. revert e He. induction l as [|x l IH]; intros e He; [reflexivity|].
  unfold fail_row in *. simpl.
  destruct (existsb (Z.eqb (id x)) ids) eqn:E; [now apply IH|].
  destruct (id e =? id x) eqn:Ex; [|now apply IH].
  apply Z.eqb_eq in Ex. rewrite Ex in He. congruence.
Qed.

Lemma fail_row_keeps_failed (l : list EntryRow) (ids : list Z) (e : EntryRow) :
  annotation_status e = failed ->
  annotation_status (fail_row l ids e) = failed.
Proof.
  revert e. induction l as [|x l IH]; intros e He; [exact He|].
  unfold fail_row in *. simpl. apply IH.
  destruct (existsb (Z.eqb (id x)) ids); [exact He|].
  now destruct (id e =? id x).
Qed.

Lemma fail_row_unnamed (l : list EntryRow) (ids : list Z) (e : EntryRow) :
  In (id e) (map id l) -> existsb (Z.eqb (id e)) ids = false ->
  annotation_status (fail_row l ids e) = failed.
Proof.
  revert e. induction l as [|x l IH]; intros e Hin He; [destruct Hin|].
  change (fail_row (x :: l) ids e)
    with (fail_row l ids
            (if existsb (Z.eqb (id x)) ids then e
             else if id e =? id x then set_status failed e else e)).
  destruct (Z.eq_dec (id x) (id e)) as [E | Hne].
  - rewrite E, He, Z.eqb_refl. now apply fail_row_keeps_failed.
  - destruct Hin as [Hin | Hin]; [contradiction|].
    destruct (existsb (Z.eqb (id x)) ids); [now apply IH|].
    destruct (id e =? id x) eqn:Ex; [apply Z.eqb_eq in Ex; congruence|].
    now apply IH.
Qed.

(** *** A run that raises *)

Lemma applyAnnotations_started (anns : list (option Annotate.Annotation)) :
  forall (s : list Z) (db : Db),
    entries (snd (foldM anns s (fun annotatedIds ann =>
      match ann with
      | None => throw TypeError
      | Some a =>
          bind (annotateEntry (Annotate.ann_entry_id a)
                  (Annotate.ann_description a) (Annotate.ann_tags a)
                  (Annotate.ann_group a) (Annotate.ann_files a)
                  (Annotate.ann_conf a) (Annotate.ann_low a))
               (fun _ => ret (Annotate.id_add (Annotate.ann_entry_id a)
                                annotatedIds))
      end) db))
    = map (ann_row (started anns db)) (entries db).
Proof.
  induction anns as [|[a|] anns IH]; intros s db; simpl.
  - now rewrite map_id.
  - unfold bind at 1 2.
    pose proof (annotateEntry_entries (Annotate.ann_entry_id a)
                  (Annotate.ann_description a) (Annotate.ann_tags a)
                  (Annotate.ann_group a) (Annotate.ann_files a)
                  (Annotate.ann_conf a) (Annotate.ann_low a) db) as He.
    destruct (annotateEntry _ _ _ _ _ _ _ db) as [[[]|ex] db1];
      cbn [snd] in He.
    + unfold ret at 1. rewrite IH, He, map_map. reflexivity.
    + cbn [snd]. rewrite He. reflexivity.
  - now rewrite map_id.
Qed.

(** The rows of [entries] after the application of a response, whether it
    completes or raises: the annotations that were started have been
    written, and the summary row is there if its [INSERT] has run. *)
Lemma apply_response_entries (p : Z) (r : Annotate.AnnotationResult) (now : Z)
    (db : Db) :
  exists extra,
    entries (snd (Annotate.apply_response p r now db))
    = map (ann_row (started (Annotate.opt_list (Annotate.annotations r)) db))
          (entries db) ++ extra
    /\ Forall (fun x => entry_type x = summary
                        /\ annotation_status x = annotated) extra.
Proof.
  unfold Annotate.apply_response, Annotate.applyAnnotations.
  pose proof (applyAnnotations_started
                (Annotate.opt_list (Annotate.annotations r)) [] db) as Ha.
  unfold bind at 1.
  match type of Ha with
  | context [foldM ?anns [] ?body db] =>
      destruct (foldM anns [] body db) as [[ids|ex] db1]
  end; cbn [snd] in Ha.
  2:{ exists []. rewrite app_nil_r. split; [exact Ha | constructor]. }
  unfold bind at 1.
  pose proof (applyLinks_frame (Annotate.opt_list (Annotate.links r)) now db1)
    as (Hl & _).
  destruct (Annotate.applyLinks _ now db1) as [[[]|ex] db2]; cbn [snd] in Hl.
  2:{ exists []. cbn [snd]. rewrite app_nil_r.
      split; [congruence | constructor]. }
  unfold bind at 1, Annotate.applySummary.
  destruct (Annotate.prompt_summary r) as [ps|].
  - unfold bind at 1.
    pose proof (insertSummaryEntry_entries p (Annotate.summary_text ps)
                  (Annotate.summary_tags ps) now db2) as Hs.
    destruct (insertSummaryEntry _ _ _ _ db2) as [[i|ex] db3];
      cbn [snd] in Hs; eexists; cbn [ret snd];
      (split; [rewrite Hs, Hl, Ha; reflexivity|]);
      (constructor; [split; reflexivity | constructor]).
  - exists []. cbn [ret snd]. rewrite app_nil_r.
    split; [congruence | constructor].
Qed.

Lemma annotate_try_thrown (p : Z) (outcome : Annotate.LlmOutcome)
    (allEntries : list EntryRow) (now : Z) (db : Db) (ex : exn) :
  fst (Annotate.annotate_try p outcome allEntries now db) = Throw ex ->
  exists extra,
    entries (snd (Annotate.annotate_try p outcome allEntries now db))
    = map (ann_row match outcome with
                   | Annotate.Parsed r =>
                       started (Annotate.opt_list (Annotate.annotations r)) db
                   | _ => []
                   end)
          (entries db) ++ extra
    /\ Forall (fun x => entry_type x = summary
                        /\ annotation_status x = annotated) extra.
Proof.
  intros Ht. destruct outcome as [| |r]; simpl.
  - exists []. rewrite app_nil_r, map_id. split; [reflexivity | constructor].
  - exists []. rewrite app_nil_r, map_id. split; [reflexivity | constructor].
  - simpl in Ht. unfold bind in *.
    destruct (apply_response_entries p r now db) as (extra & He & Hx).
    destruct (Annotate.apply_response p r now db) as [[ids|ex1] db1];
      cbn [snd] in *.
    + destruct (failUnannotated_run allEntries ids db1) as (db2 & Hrun & _).
      rewrite Hrun in Ht. discriminate Ht.
    + now exists extra.
Qed.

Lemma ann_row_unnamed (l : list Annotate.Annotation) (e : EntryRow) :
  existsb (Z.eqb (id e)) (map Annotate.ann_entry_id l) = false ->
  ann_row l e = e.
Proof.
  revert e. induction l as [|a l IH]; intros e H; [reflexivity|].
  simpl in H. apply orb_false_iff in H as [Ha Hl].
  change (ann_row (a :: l) e) with (ann_row l (ann_upd a e)).
  unfold ann_upd. rewrite Ha. now apply IH.
Qed.

Lemma Forall2_map_self {A} (R : A -> A -> Prop) (f : A -> A) (l : list A) :
  (forall x, In x l -> R x (f x)) -> Forall2 R l (map f l).
Proof.
  induction l as [|x l IH]; intros H; simpl; constructor.
  - apply H. now left.
  - apply IH. intros y Hy. apply H. now right.
Qed.

Lemma set_status_base (s : AnnotationStatus) (e : EntryRow) :
  same_base e (set_status s e).
Proof. unfold same_base. repeat split; reflexivity. Qed.

(** C4, amended.  When [annotatePrompt] raises an exception in the provider
    call, the parse of the response or the application of the result, every
    entry of the annotated prompt index is afterwards [failed] or
    [annotated], and which of the two is determined.  The rows of the table
    keep their place and every column that no [UPDATE] assigns; a row of the
    annotated prompt index is [annotated] when the [UPDATE] of an annotation
    for its id has run before the exception ([applied_ids]), [failed] when
    no such [UPDATE] has run and its id is in the input set, and as it was
    in every other case.  The only rows added are summary rows whose
    [INSERT] has run before the exception.  When the exception comes from
    the provider call or the parse, no annotation has been applied, so
    every entry of the input set that belongs to the annotated prompt index
    is [failed]. *)
Theorem C4_failure_marks_current_prompt (p : Z) (outcome : LlmOutcome)
    (now : Z) (db : Db) :
  raised p outcome now db = true ->
  let db' := snd (annotatePrompt p outcome now db) in
  let applied := applied_ids p outcome db in
  Forall (fun r => prompt_index r = p ->
                   annotation_status r = failed \/ annotation_status r = annotated)
         (entries db')
  /\ (exists rows extra,
        entries db' = rows ++ extra
        /\ Forall (fun x => entry_type x = summary
                            /\ annotation_status x = annotated) extra
        /\ Forall2 (fun e e' =>
                      same_base e e'
                      /\ (prompt_index e = p ->
                          if existsb (Z.eqb (id e)) applied
                          then annotation_status e' = annotated
                          else if existsb (Z.eqb (id e))
                                          (map id (input_set db p))
                               then annotation_status e' = failed
                               else e' = e))
                   (entries db) rows)
  /\ ((outcome = CallRejected \/ outcome = ParseFailed) ->
      applied = []
      /\ Forall (fun r => prompt_index r = p ->
                          In (id r) (map id (input_set db p)) ->
                          annotation_status r = failed)
                (entries db')).
Proof.
  intros Hr db' applied. unfold db'.
  rewrite (annotatePrompt_raised p outcome now db Hr).
  assert (Hne : map id (input_set db p) <> []).
  { unfold raised in Hr. destruct (input_set db p); [discriminate | discriminate]. }
  split; [apply markFailed_closes|]. split.
  - set (ids := map id (input_set db p)) in *.
    set (dbA := snd (markAnnotating ids db)).
    assert (Ht : exists ex, fst (annotate_try p outcome (input_set db p) now dbA)
                            = Throw ex).
    { unfold raised, try_result in Hr. fold ids dbA in Hr.
      destruct (input_set db p); [discriminate|].
      destruct (fst (annotate_try p outcome _ now dbA)) as [[]|ex];
        [discriminate | now exists ex]. }
    destruct Ht as (ex & Ht).
    destruct (annotate_try_thrown p outcome _ now dbA ex Ht)
      as (extra & He & Hx).
    set (st := match outcome with
               | Parsed r => started (opt_list (annotations r)) dbA
               | _ => []
               end) in *.
    assert (Happ : applied = map ann_entry_id st).
    { unfold applied, applied_ids, st. fold ids dbA. now destruct outcome. }
    rewrite markFailed_entries, He, map_app.
    unfold dbA. rewrite markAnnotating_entries by exact Hne. fold dbA.
    rewrite !map_map.
    eexists. eexists. split; [reflexivity|]. split.
    + apply Forall_map. eapply Forall_impl; [|exact Hx].
      intros x [Hty Hs]. unfold is_pending_or_annotating.
      rewrite Hs. simpl. rewrite andb_false_r. now split.
    + apply Forall2_map_self. intros e Hin.
      set (ma := if existsb (Z.eqb (id e)) ids then set_status annotating e
                 else e).
      assert (Hma : same_base e ma /\ id ma = id e)
        by (unfold ma; destruct (existsb _ ids);
            split; [apply set_status_base | | apply same_base_refl |];
            reflexivity).
      destruct Hma as [Hbase Hid]. split.
      * eapply same_base_trans; [exact Hbase|].
        eapply same_base_trans;
          [|destruct ((prompt_index (ann_row st ma) =? p)
                      && is_pending_or_annotating (ann_row st ma));
            [apply set_status_base | apply same_base_refl]].
        pose proof (ann_row_base st ma) as (B1 & B2 & B3 & B4 & B5 & B6).
        unfold same_base. repeat split; congruence.
      * intros Hp. rewrite Happ.
        destruct (existsb (Z.eqb (id e)) (map ann_entry_id st)) eqn:En.
        -- assert (Hs : annotation_status (ann_row st ma) = annotated).
           { apply ann_row_annotated. rewrite Hid.
             apply existsb_exists in En as (x & Hx' & E).
             apply Z.eqb_eq in E. now subst x. }
           unfold is_pending_or_annotating. rewrite Hs. simpl.
           rewrite andb_false_r. exact Hs.
        -- rewrite (ann_row_unnamed st ma) by (now rewrite Hid).
           unfold ma. destruct (existsb (Z.eqb (id e)) ids) eqn:Ei.
           ++ cbn [set_status prompt_index annotation_status
                   is_pending_or_annotating status_eqb orb].
              rewrite Hp, Z.eqb_refl. reflexivity.
           ++ destruct ((prompt_index e =? p) && is_pending_or_annotating e)
                eqn:Ec; [|reflexivity].
              exfalso.
              assert (Hi : In (id e) ids).
              { unfold ids, input_set. rewrite map_app, in_app_iff. left.
                apply in_map. unfold getPendingEntries.
                apply filter_In. now split. }
              apply existsb_In_ids in Hi. congruence.
  - intros Ho.
    assert (Hbody : snd (annotate_try p outcome (input_set db p) now
                           (snd (markAnnotating (map id (input_set db p)) db)))
                    = snd (markAnnotating (map id (input_set db p)) db)).
    { destruct Ho as [-> | ->]; reflexivity. }
    split; [destruct Ho as [-> | ->]; reflexivity|].
    rewrite Hbody, markFailed_entries, markAnnotating_entries by exact Hne.
    rewrite map_map. apply Forall_map, Forall_forall. intros e _.
    destruct (existsb (Z.eqb (id e)) (map id (input_set db p))) eqn:E.
    + simpl. destruct (prompt_index e =? p) eqn:Ep; simpl; [reflexivity|].
      intros Hp. apply Z.eqb_neq in Ep. contradiction.
    + destruct (_ && _); simpl; intros _ Hin;
        apply existsb_In_ids in Hin; congruence.
Qed.

(** The second annotation of the response is [null]: the run of the second
    turn raises after the annotation of entry 2 has been applied. *)
Lemma C4_failure_marks_current_prompt_witness :
  raised 2 (Parsed Samples.partial_response) 300 Samples.retry_db = true
  /\ applied_ids 2 (Parsed Samples.partial_response) Samples.retry_db = [2]
  /\ (let db' := snd (annotatePrompt 2 (Parsed Samples.partial_response) 300
                        Samples.retry_db) in
      let applied :=
        applied_ids 2 (Parsed Samples.partial_response) Samples.retry_db in
      Forall (fun r => prompt_index r = 2 ->
                       annotation_status r = failed
                       \/ annotation_status r = annotated)
             (entries db')
      /\ (exists rows extra,
            entries db' = rows ++ extra
            /\ Forall (fun x => entry_type x = summary
                                /\ annotation_status x = annotated) extra
            /\ Forall2 (fun e e' =>
                          same_base e e'
                          /\ (prompt_index e = 2 ->
                              if existsb (Z.eqb (id e)) applied
                              then annotation_status e' = annotated
                              else if existsb (Z.eqb (id e))
                                              (map id (input_set
                                                         Samples.retry_db 2))
                                   then annotation_status e' = failed
                                   else e' = e))
                       (entries Samples.retry_db) rows)
      /\ ((Parsed Samples.partial_response = CallRejected
           \/ Parsed Samples.partial_response = ParseFailed) ->
          applied = []
          /\ Forall (fun r => prompt_index r = 2 ->
                              In (id r) (map id (input_set Samples.retry_db 2)) ->
                              annotation_status r = failed)
                    (entries db'))).
Proof.
  split; [vm_compute; reflexivity|]. split; [vm_compute; reflexivity|].
  apply (C4_failure_marks_current_prompt 2 (Parsed Samples.partial_response)
           300 Samples.retry_db).
  vm_compute. reflexivity.
Defined.

(** X14.  A run of [annotatePrompt] whose [try] block completes leaves no
    entry of its input set waiting: every row with the id of an input entry
    ends annotated if the response has an annotation for that id, and
    failed otherwise.  The input set holds the pending entries of the
    prompt and the retried failed entries of any prompt. *)
Theorem annotatePrompt_completed (p : Z) (r : Annotate.AnnotationResult)
    (now : Z) (db : Db) :
  Annotate.input_set db p <> [] ->
  Annotate.try_result p (Annotate.Parsed r) now db = Ok tt ->
  exists l,
    Annotate.opt_list (Annotate.annotations r) = map Some l
    /\ fst (Annotate.annotatePrompt p (Annotate.Parsed r) now db) = Ok tt
    /\ Forall (fun e =>
                 In (id e) (map id (Annotate.input_set db p)) ->
                 annotation_status e
                 = if existsb (Z.eqb (id e)) (annotated_ids l)
                   then annotated else failed)
              (entries (snd (Annotate.annotatePrompt p (Annotate.Parsed r)
                               now db))).
Proof.
  intros Hne Htry. unfold Annotate.try_result in Htry.
  destruct (Annotate.input_set db p) as [|e0 rest] eqn:Ei; [congruence|].
  clear Hne.
  destruct (markAnnotating (map id (e0 :: rest)) db) as [[[]|ex] dbA] eqn:Em;
    [|discriminate Em].
  cbn [snd] in Htry.
  destruct (Annotate.annotate_try p (Annotate.Parsed r) (e0 :: rest) now dbA)
    as [[[]|ex] db'] eqn:Et; [|discriminate Htry].
  clear Htry.
  assert (Hrun0 : Annotate.annotatePrompt p (Annotate.Parsed r) now db
                  = (Ok tt, db')).
  { unfold Annotate.annotatePrompt, bind, gets, try_catch. cbv beta.
    rewrite Ei. cbv beta iota. rewrite Em. now rewrite Et. }
  rewrite Hrun0. cbn [fst snd]. clear Hrun0.
  unfold Annotate.annotate_try, Annotate.apply_response in Et.
  unfold bind at 1 2 in Et. unfold Annotate.applyAnnotations in Et.
  match type of Et with
  | context [foldM ?anns [] ?body dbA] =>
      destruct (foldM anns [] body dbA) as [[ids|ex] db1] eqn:E1;
        [|discriminate Et]
  end.
  destruct (applyAnnotations_entries _ _ _ _ _ E1) as (l & Hl & He1 & Hids).
  exists l. split; [exact Hl|]. split; [reflexivity|].
  unfold bind at 1 in Et.
  pose proof (applyLinks_frame (Annotate.opt_list (Annotate.links r)) now db1)
    as (He2 & _).
  destruct (Annotate.applyLinks _ now db1) as [[[]|ex] db2];
    [|discriminate Et].
  cbn [snd] in He2. unfold bind at 1 in Et.
  assert (He3 : exists extra,
             match Annotate.applySummary p (Annotate.prompt_summary r) now db2
             with
             | (_, db3) => entries db3 = entries db2 ++ extra
                           /\ Forall (fun e => annotation_status e = annotated)
                                     extra
             end).
  { unfold Annotate.applySummary.
    destruct (Annotate.prompt_summary r) as [s|].
    - unfold bind.
      pose proof (insertSummaryEntry_entries p (Annotate.summary_text s)
                    (Annotate.summary_tags s) now db2) as Hs.
      destruct (insertSummaryEntry _ _ _ _ db2) as [[i|ex] db3];
        cbn [snd] in Hs; eexists; (split; [exact Hs|]);
        constructor; [reflexivity | constructor | reflexivity | constructor].
    - exists []. unfold ret. rewrite app_nil_r. split; [reflexivity | constructor]. }
  destruct He3 as (extra & He3).
  destruct (Annotate.applySummary p (Annotate.prompt_summary r) now db2)
    as [[[]|ex] db3]; [|discriminate Et].
  destruct He3 as [He3 Hextra]. unfold ret at 1 in Et.
  destruct (failUnannotated_run (e0 :: rest) ids db3) as (db4 & Hrun & He4).
  rewrite Hrun in Et. injection Et as Edb. rewrite <- Edb.
  rewrite He4, He3, He2, He1.
  assert (Hnamed : forall e, existsb (Z.eqb (id e)) ids
                             = existsb (Z.eqb (id e)) (annotated_ids l)).
  { intros e. apply eq_true_iff_eq. rewrite !existsb_exists.
    split; intros (x & Hx & E); apply Z.eqb_eq in E; subst x.
    - rewrite Hids in Hx. apply id_add_fold_In in Hx as [[] | Hx].
      exists (id e). split; [exact Hx | apply Z.eqb_refl].
    - exists (id e). split; [|apply Z.eqb_refl].
      rewrite Hids. apply id_add_fold_In. now right. }
  apply Forall_map, Forall_forall. intros e He Hin.
  rewrite fail_row_id in *. rewrite <- Hnamed.
  destruct (existsb (Z.eqb (id e)) ids) eqn:En.
  - rewrite (fail_row_named (e0 :: rest) ids e En).
    apply in_app_or in He as [He | He].
    + apply in_map_iff in He as (e1 & <- & _).
      rewrite ann_row_id in En. rewrite Hnamed in En.
      apply existsb_exists in En as (x & Hx & E). apply Z.eqb_eq in E. subst x.
      now apply ann_row_annotated.
    + rewrite Forall_forall in Hextra. now apply Hextra.
  - now apply fail_row_unnamed.
Qed.

Lemma annotatePrompt_completed_witness :
  Annotate.input_set Samples.retry_db 2 <> []
  /\ Annotate.try_result 2 (Annotate.Parsed MoreSamples.one_annotation) 300
       Samples.retry_db = Ok tt
  /\ exists l,
       Annotate.opt_list (Annotate.annotations MoreSamples.one_annotation)
       = map Some l
       /\ fst (Annotate.annotatePrompt 2
                 (Annotate.Parsed MoreSamples.one_annotation) 300
                 Samples.retry_db) = Ok tt
       /\ Forall (fun e =>
                    In (id e) (map id (Annotate.input_set Samples.retry_db 2)) ->
                    annotation_status e
                    = if existsb (Z.eqb (id e)) (annotated_ids l)
                      then annotated else failed)
                 (entries (snd (Annotate.annotatePrompt 2
                                  (Annotate.Parsed MoreSamples.one_annotation)
                                  300 Samples.retry_db))).
Proof.
  assert (H1 : Annotate.input_set Samples.retry_db 2 <> [])
    by (vm_compute; discriminate).
  assert (H2 : Annotate.try_result 2 (Annotate.Parsed MoreSamples.one_annotation)
                 300 Samples.retry_db = Ok tt)
    by (vm_compute; reflexivity).
  split; [exact H1|]. split; [exact H2|].
  exact (annotatePrompt_completed 2 MoreSamples.one_annotation 300
           Samples.retry_db H1 H2).
Defined.

(** ** Group expansion and the selection loops *)


Section Selection.

Variable charBudget : Z.

Ltac selection_step IH e l st Ed :=
  let Eb := fresh "Eb" in
  destruct (Retrieve.usedChars st + len (Retrieve.formatEntry e) >? charBudget)
    eqn:Eb;
  [ exists [], (e :: l); simpl; rewrite app_nil_r;
    split; [reflexivity|]; split; [reflexivity|]; split; [exact Ed|];
    destruct (Z.gtb_spec (Retrieve.usedChars st
                          + len (Retrieve.formatEntry e)) charBudget);
    [lia | discriminate]
  | match goal with
    | |- stops_at_overflow _ _ _ (Retrieve.contextLines (_ _ _ ?s1)) =>
        destruct (IH s1) as (taken & rest & -> & H1 & Hr);
        exists (e :: taken), rest; cbn [filter app map];
        change (described e) with (truthy_opt (Retrieve.fe_description e));
        rewrite !Ed; cbn [map];
        split; [reflexivity|]; split;
        [ rewrite H1; cbn [Retrieve.contextLines];
          now rewrite <- app_assoc
        | destruct rest as [|e' rest']; [exact Logic.I|];
          destruct Hr as [Hd Hr]; split; [exact Hd|];
          cbn [Retrieve.usedChars] in Hr; cbn [sum_len fold_right] in *;
          fold (sum_len (map Retrieve.formatEntry (filter described taken)));
          lia ]
    end ].

Lemma select_results_stops (results : list Retrieve.FtsEntry) :
  forall st,
    stops_at_overflow charBudget results st
      (Retrieve.contextLines (Retrieve.select_results charBudget results st)).
Proof.
  induction results as [|e l IH]; intros st.
  - exists [], []. simpl. now rewrite app_nil_r.
  - cbn [Retrieve.select_results].
    destruct (truthy_opt (Retrieve.fe_description e)) eqn:Ed; cbn [negb].
    + selection_step IH e l st Ed.
    + destruct (IH st) as (taken & rest & -> & H1 & Hr).
      exists (e :: taken), rest. cbn [filter app].
      change (described e) with (truthy_opt (Retrieve.fe_description e)).
      rewrite !Ed. now repeat split.
Qed.

Lemma select_expanded_stops (results : list Retrieve.FtsEntry) :
  forall st,
    stops_at_overflow charBudget results st
      (Retrieve.contextLines (Retrieve.select_expanded charBudget results st)).
Proof.
  induction results as [|e l IH]; intros st.
  - exists [], []. simpl. now rewrite app_nil_r.
  - cbn [Retrieve.select_expanded].
    destruct (truthy_opt (Retrieve.fe_description e)) eqn:Ed; cbn [negb].
    + selection_step IH e l st Ed.
    + destruct (IH st) as (taken & rest & -> & H1 & Hr).
      exists (e :: taken), rest. cbn [filter app].
      change (described e) with (truthy_opt (Retrieve.fe_description e)).
      rewrite !Ed. now repeat split.
Qed.

(** X16.  Each selection loop of [retrieveContext] stops at the first line
    that does not fit and looks no further: the lines it adds are those of
    the described entries of a prefix of its input, in order, and what
    follows that prefix, if anything, starts with a described entry whose
    line would have taken [usedChars] over the budget.  Entries without
    description are passed over and do not end the loop. *)
Theorem selection_stops_at_overflow (results : list Retrieve.FtsEntry)
    (st : Retrieve.Sel) :
  stops_at_overflow charBudget results st
    (Retrieve.contextLines (Retrieve.select_results charBudget results st))
  /\ stops_at_overflow charBudget results st
       (Retrieve.contextLines (Retrieve.select_expanded charBudget results st)).
Proof. split; [apply select_results_stops | apply select_expanded_stops]. Qed.

End Selection.

(** ** The rule-based annotator *)

Lemma isLowRelevance_false (e : EntryRow) (calls : list jsobj) :
  SelfAnnotate.isLowRelevance e calls = false.
Proof.
  unfold SelfAnnotate.isLowRelevance.
  destruct (_ && _); [destruct (_ || _)|]; reflexivity.
Qed.

(** Well-formed strings are closed under the operations that build the
    summary of a turn. *)
Lemma well_formed_app (a b : jsstring) :
  well_formed a = true -> well_formed b = true -> well_formed (a ++ b) = true.
Proof.
  intros Ha Hb.
  assert (H : forall n a, (List.length a <= n)%nat -> well_formed a = true ->
                          well_formed (a ++ b) = true).
  { clear a Ha. induction n as [|n IH]; intros a Hl Ha.
    - destruct a; [exact Hb | simpl in Hl; lia].
    - destruct a as [|c r]; [exact Hb|]. cbn [app well_formed] in *.
      destruct (is_high_surrogate c).
      + destruct r as [|d r']; [discriminate|]. cbn [app].
        apply andb_true_iff in Ha as [Hd Hr]. rewrite Hd. simpl.
        apply IH; [simpl in Hl; lia | exact Hr].
      + apply andb_true_iff in Ha as [Hc Hr]. rewrite Hc. simpl.
        apply IH; [simpl in Hl; lia | exact Hr]. }
  now apply (H (List.length a)).
Qed.

Lemma well_formed_lit (s : string) : well_formed (lit s) = true.
Proof.
  induction s as [|c s IH]; [reflexivity|]. rewrite lit_cons.
  pose proof (N_ascii_bounded c) as Hc. cbn [well_formed].
  unfold is_high_surrogate, is_low_surrogate.
  replace (55296 <=? N_of_ascii c)%N with false
    by (symmetry; apply N.leb_gt; lia).
  replace (56320 <=? N_of_ascii c)%N with false
    by (symmetry; apply N.leb_gt; lia).
  exact IH.
Qed.

Lemma well_formed_join (sep : jsstring) (l : list jsstring) :
  well_formed sep = true -> Forall (fun x => well_formed x = true) l ->
  well_formed (join sep l) = true.
Proof.
  intros Hs. induction 1 as [|x l Hx Hl IH]; [reflexivity|].
  destruct l as [|y l]; [exact Hx|].
  change (join sep (x :: y :: l)) with (x ++ sep ++ join sep (y :: l)).
  now repeat apply well_formed_app.
Qed.

Lemma summary_of_well_formed (parts : list jsstring) :
  Forall (fun x => well_formed x = true) parts ->
  well_formed (SelfAnnotate.summary_of parts) = true.
Proof.
  intros H. unfold SelfAnnotate.summary_of.
  assert (Hlong : well_formed
                    (num_str (Z.of_nat (List.length parts))
                     ++ lit " activities: "
                     ++ join (lit "; ") (firstn 3 parts)
                     ++ (if (3 <? List.length parts)%nat then lit "..."
                         else [])) = true).
  { repeat apply well_formed_app; try apply well_formed_lit.
    - apply well_formed_join; [apply well_formed_lit|].
      apply Forall_forall. intros x Hx. rewrite Forall_forall in H.
      eapply H, In_firstn, Hx.
    - destruct (3 <? List.length parts)%nat;
        [apply well_formed_lit | reflexivity]. }
  destruct parts as [|d [|d' parts]]; [exact Hlong | | exact Hlong].
  now inversion H.
Qed.

Section SelfRows.

Variable toLowerCase : jsstring -> jsstring.
Variable userPrompt : jsstring.
Variable E0 : list EntryRow.
Hypothesis E0_ids : NoDup (map id E0).

Let upd (done : list EntryRow) (x : EntryRow) : EntryRow :=
  if existsb (fun e => id e =? id x) done
  then self_annotated toLowerCase userPrompt x else x.

Lemma upd_id (done : list EntryRow) (x : EntryRow) : id (upd done x) = id x.
Proof. unfold upd. now destruct (existsb _ done). Qed.

Lemma self_loop (body : list jsstring -> EntryRow -> M (list jsstring)) :
  (forall parts e,
     body parts e
     = bind (annotateEntry (id e)
               (SelfAnnotate.buildDescription e (tool_calls e))
               (SelfAnnotate.buildTags toLowerCase e (tool_calls e) userPrompt)
               (SelfAnnotate.buildGroup e) [] (3 # 10)
               (SelfAnnotate.isLowRelevance e (tool_calls e)))
            (fun _ => ret (parts ++ [SelfAnnotate.buildDescription e
                                       (tool_calls e)]))) ->
  forall (l done : list EntryRow) (parts : list jsstring) (db : Db),
    bijective db -> entries db = map (upd done) E0 ->
    (forall e, In e l -> In e E0) ->
    exists db',
      foldM l parts body db
      = (Ok (parts ++ map (fun e => SelfAnnotate.buildDescription e
                                      (tool_calls e)) l), db')
      /\ bijective db'
      /\ entries db' = map (upd (done ++ l)) E0.
Proof.
  intros Hbody. induction l as [|e l IH]; intros done parts db Hb He Hin.
  - exists db. simpl. rewrite !app_nil_r. auto.
  - simpl. unfold bind at 1. rewrite Hbody. unfold bind at 1.
    assert (Hid : In (id e) (map id (entries db))).
    { rewrite He, map_map. rewrite (map_ext _ id) by apply upd_id.
      apply in_map, Hin. now left. }
    pose proof (annotateEntry_entries (id e)
                  (SelfAnnotate.buildDescription e (tool_calls e))
                  (SelfAnnotate.buildTags toLowerCase e (tool_calls e)
                     userPrompt)
                  (SelfAnnotate.buildGroup e) [] (3 # 10)
                  (SelfAnnotate.isLowRelevance e (tool_calls e)) db) as He1.
    destruct (annotateEntry_bijective (map id (entries db)) (id e)
                (SelfAnnotate.buildDescription e (tool_calls e))
                (SelfAnnotate.buildTags toLowerCase e (tool_calls e) userPrompt)
                (SelfAnnotate.buildGroup e) [] (3 # 10)
                (SelfAnnotate.isLowRelevance e (tool_calls e)) Hid db
                (conj Hb eq_refl)) as ([] & db1 & Hrun & Hb1 & _).
    rewrite Hrun in *. cbn [snd] in He1. unfold ret at 1.
    assert (He1' : entries db1 = map (upd (done ++ [e])) E0).
    { rewrite He1, He, map_map. apply map_ext_in. intros x Hx.
      rewrite upd_id.
      change (upd (done ++ [e]) x)
        with (if existsb (fun e1 => id e1 =? id x) (done ++ [e])
              then self_annotated toLowerCase userPrompt x else x).
      rewrite existsb_app. cbn [existsb].
      rewrite orb_false_r, (Z.eqb_sym (id e) (id x)).
      destruct (id x =? id e) eqn:Ex.
      - apply Z.eqb_eq in Ex.
        assert (x = e)
          by (apply (NoDup_map_inj id E0 E0_ids); auto; apply Hin; now left).
        subst x. rewrite orb_true_r, isLowRelevance_false.
        unfold upd. now destruct (existsb _ done).
      - now rewrite orb_false_r. }
    destruct (IH (done ++ [e])
                 (parts ++ [SelfAnnotate.buildDescription e (tool_calls e)])
                 db1 Hb1 He1' (fun x Hx => Hin x (or_intror Hx)))
      as (db' & Hloop & Hb' & He').
    rewrite <- app_assoc in He'. exists db'. rewrite Hloop, <- app_assoc.
    split; [reflexivity|]. split; [exact Hb' | exact He'].
Qed.

End SelfRows.

Section SelfAnnotation.

Variable toLowerCase : jsstring -> jsstring.

(** The rows that [selfAnnotatePrompt] writes. *)
Lemma selfAnnotatePrompt_run (p now : Z) (db : Db) :
  bijective db -> getPendingEntries db (Some p) <> [] ->
  let waiting := getPendingEntries db (Some p) in
  let userPrompt := nullish (getState db (lit "prompt_" ++ num_str p)) [] in
  exists db' i tags,
    SelfAnnotate.selfAnnotatePrompt toLowerCase (Some p) now db = (Ok tt, db')
    /\ bijective db'
    /\ entries db'
       = map (fun e => if (prompt_index e =? p) && is_pending_or_annotating e
                       then self_annotated toLowerCase userPrompt e else e)
             (entries db)
         ++ [mkEntry i p None summary []
               (Some (SelfAnnotate.summary_of
                        (map (fun e => SelfAnnotate.buildDescription e
                                         (tool_calls e)) waiting)))
               (Some tags) [] None None 0 annotated now].
Proof.
  intros Hb Hne. cbv zeta. pose proof Hb as (Ni & _).
  unfold SelfAnnotate.selfAnnotatePrompt, bind at 1, gets.
  destruct (getPendingEntries db (Some p)) as [|e0 rest] eqn:Ew; [congruence|].
  clear Hne. unfold bind at 1. cbn [num_str_opt].
  set (userPrompt := nullish (getState db (lit "prompt_" ++ num_str p)) []).
  unfold bind at 1.
  assert (Hw : forall e, In e (e0 :: rest) <->
                         In e (entries db)
                         /\ (prompt_index e =? p) && is_pending_or_annotating e
                            = true).
  { intros e. rewrite <- Ew. unfold getPendingEntries. apply filter_In. }
  match goal with
  | |- context [foldM (e0 :: rest) [] ?body db] =>
      destruct (self_loop toLowerCase userPrompt (entries db) Ni body
                  (fun _ _ => eq_refl) (e0 :: rest) [] [] db Hb)
        as (db1 & -> & Hb1 & He1)
  end.
  { symmetry. erewrite map_ext; [apply map_id | reflexivity]. }
  { intros e He. now apply Hw in He. }
  cbn [app] in *. unfold bind at 1.
  match goal with
  | |- context [insertSummaryEntry (Some p) ?s ?t now db1] =>
      pose proof (insertSummaryEntry_entries p s t now db1) as He2;
      destruct (insertSummaryEntry_bijective p s t now db1 Hb1)
        as (i & db2 & Hrun & Hb2);
      rewrite Hrun in *; exists db2, (next_auto (entries_seq db1)
                                        (map id (entries db1))), t
  end.
  split; [reflexivity|]. split; [exact Hb2|].
  cbn [snd] in He2. rewrite He2, He1. f_equal.
  apply map_ext_in. intros x Hx.
  assert (E : existsb (fun e => id e =? id x) (e0 :: rest)
              = (prompt_index x =? p) && is_pending_or_annotating x).
  { apply eq_true_iff_eq. rewrite existsb_exists. split.
    - intros (e & He & Ee). apply Z.eqb_eq in Ee. apply Hw in He as [He Hc].
      assert (e = x) by (apply (NoDup_map_inj id (entries db) Ni); auto).
      now subst.
    - intros Hc. exists x. split; [|apply Z.eqb_refl]. now apply Hw. }
  now rewrite E.
Qed.

(** X17.  What [selfAnnotatePrompt] writes when entries of the prompt are
    waiting, on a store in bijection and when the description, tags and
    group built for each of them are well-formed strings (which the store
    keeps as they are): it completes and keeps the bijection; every row
    that was pending or annotating for the prompt becomes annotated with
    the description, tags and group built from its own file path and
    calls, no related files, confidence 0.3 and never low relevance; every
    other row is as it was; and one summary row is appended, whose text,
    well-formed as well, is built from the descriptions of those rows in
    table order. *)
Theorem selfAnnotatePrompt_rows (p now : Z) (db : Db) :
  let waiting := getPendingEntries db (Some p) in
  let userPrompt := nullish (getState db (lit "prompt_" ++ num_str p)) [] in
  bijective db -> waiting <> [] ->
  Forall (fun e =>
            well_formed (SelfAnnotate.buildDescription e (tool_calls e)) = true
            /\ well_formed (SelfAnnotate.buildTags toLowerCase e (tool_calls e)
                              userPrompt) = true
            /\ well_formed (SelfAnnotate.buildGroup e) = true)
         waiting ->
  exists db' i tags,
    SelfAnnotate.selfAnnotatePrompt toLowerCase (Some p) now db = (Ok tt, db')
    /\ bijective db'
    /\ entries db'
       = map (fun e => if (prompt_index e =? p) && is_pending_or_annotating e
                       then self_annotated toLowerCase userPrompt e else e)
             (entries db)
         ++ [mkEntry i p None summary []
               (Some (SelfAnnotate.summary_of
                        (map (fun e => SelfAnnotate.buildDescription e
                                         (tool_calls e)) waiting)))
               (Some tags) [] None None 0 annotated now]
    /\ well_formed (SelfAnnotate.summary_of
                      (map (fun e => SelfAnnotate.buildDescription e
                                       (tool_calls e)) waiting)) = true.
Proof.
  intros waiting userPrompt Hb Hne Hwf.
  destruct (selfAnnotatePrompt_run p now db Hb Hne)
    as (db' & i & tags & Hrun & Hb' & He).
  exists db', i, tags. split; [exact Hrun|]. split; [exact Hb'|].
  split; [exact He|]. apply summary_of_well_formed.
  apply Forall_map. eapply Forall_impl; [|exact Hwf]. now intros e [H _].
Qed.

End SelfAnnotation.

(** The two pending entries of the second turn of a session. *)
Lemma selfAnnotatePrompt_rows_witness :
  let waiting := getPendingEntries Samples.retry_db (Some 2) in
  let userPrompt :=
    nullish (getState Samples.retry_db (lit "prompt_" ++ num_str 2)) [] in
  bijective Samples.retry_db
  /\ waiting <> []
  /\ Forall (fun e =>
               well_formed (SelfAnnotate.buildDescription e (tool_calls e))
               = true
               /\ well_formed (SelfAnnotate.buildTags ascii_toLowerCase e
                                 (tool_calls e) userPrompt) = true
               /\ well_formed (SelfAnnotate.buildGroup e) = true)
            waiting
  /\ exists db' i tags,
       SelfAnnotate.selfAnnotatePrompt ascii_toLowerCase (Some 2) 50
         Samples.retry_db = (Ok tt, db')
       /\ bijective db'
       /\ entries db'
          = map (fun e =>
                   if (prompt_index e =? 2) && is_pending_or_annotating e
                   then self_annotated ascii_toLowerCase userPrompt e
                   else e)
                (entries Samples.retry_db)
            ++ [mkEntry i 2 None summary []
                  (Some (SelfAnnotate.summary_of
                           (map (fun e => SelfAnnotate.buildDescription e
                                            (tool_calls e)) waiting)))
                  (Some tags) [] None None 0 annotated 50]
       /\ well_formed (SelfAnnotate.summary_of
                         (map (fun e => SelfAnnotate.buildDescription e
                                          (tool_calls e)) waiting)) = true.
Proof.
  assert (H : bijective Samples.retry_db)
    by (apply fts_bijection_bijective; vm_compute; reflexivity).
  assert (Hne : getPendingEntries Samples.retry_db (Some 2) <> [])
    by (vm_compute; discriminate).
  assert (Hwf : Forall (fun e =>
                  well_formed (SelfAnnotate.buildDescription e (tool_calls e))
                  = true
                  /\ well_formed (SelfAnnotate.buildTags ascii_toLowerCase e
                                    (tool_calls e)
                                    (nullish (getState Samples.retry_db
                                                (lit "prompt_" ++ num_str 2))
                                             [])) = true
                  /\ well_formed (SelfAnnotate.buildGroup e) = true)
                (getPendingEntries Samples.retry_db (Some 2)))
    by (vm_compute; repeat constructor).
  split; [exact H|]. split; [exact Hne|]. split; [exact Hwf|].
  exact (selfAnnotatePrompt_rows ascii_toLowerCase 2 50 Samples.retry_db H Hne
           Hwf).
Defined.

Lemma lit_app_truthy (a : ascii) (s : string) (r : jsstring) :
  truthy (lit (String a s) ++ r) = true.
Proof. rewrite lit_cons. reflexivity. Qed.

Lemma entry_type_str_truthy (t : EntryType) : truthy (entry_type_str t) = true.
Proof. now destruct t. Qed.

Lemma path_parts_truthy (p part : jsstring) :
  In part (SelfAnnotate.path_parts p) -> truthy part = true.
Proof. unfold SelfAnnotate.path_parts. intros H. now apply filter_In in H. Qed.

Lemma buildDescription_truthy (e : EntryRow) (calls : list jsobj) :
  truthy (SelfAnnotate.buildDescription e calls) = true.
Proof.
  unfold SelfAnnotate.buildDescription.
  destruct (entry_type e);
    repeat match goal with
           | |- truthy (if ?b then _ else _) = true => destruct b
           | |- truthy (match ?o with Some _ => _ | None => _ end) = true =>
               destruct o
           end;
    try apply lit_app_truthy; reflexivity.
Qed.

Lemma buildGroup_truthy (e : EntryRow) :
  truthy (SelfAnnotate.buildGroup e) = true.
Proof.
  unfold SelfAnnotate.buildGroup.
  destruct (negb (truthy_opt (file_path e))); [apply entry_type_str_truthy|].
  pose proof (path_parts_truthy (nullish (file_path e) [])) as Hp.
  destruct (2 <=? List.length (SelfAnnotate.path_parts _))%nat eqn:E.
  - apply Hp, nth_In. apply Nat.leb_le in E. lia.
  - destruct (SelfAnnotate.path_parts _) as [|q parts];
      [apply entry_type_str_truthy | apply Hp; now left].
Qed.

(** A set of tags whose first element is not empty. *)
Lemma set_add_head (x : jsstring) (s : list jsstring) :
  truthy x = true ->
  (s = [] \/ truthy (hd [] s) = true) ->
  truthy (hd [] (set_add x s)) = true /\ set_add x s <> [].
Proof.
  intros Hx Hs. unfold set_add. destruct (includes s x) eqn:E.
  - destruct s as [|h s]; [discriminate E|].
    destruct Hs as [Hs | Hs]; [discriminate Hs|]. split; [exact Hs | discriminate].
  - destruct s as [|h s]; simpl; [split; [exact Hx | discriminate]|].
    destruct Hs as [Hs | Hs]; [discriminate Hs|]. split; [exact Hs | discriminate].
Qed.

Lemma set_add_keeps_head (x : jsstring) (s : list jsstring) :
  s <> [] -> hd [] (set_add x s) = hd [] s /\ set_add x s <> [].
Proof.
  intros Hs. unfold set_add. destruct (includes s x); [auto|].
  destruct s; [contradiction|]. split; [reflexivity | discriminate].
Qed.

Lemma fold_set_add_head {A} (f : list jsstring -> A -> list jsstring)
    (l : list A) (s : list jsstring) :
  (forall s a, s <> [] -> hd [] (f s a) = hd [] s /\ f s a <> []) ->
  s <> [] ->
  hd [] (fold_left f l s) = hd [] s /\ fold_left f l s <> [].
Proof.
  intros Hf. revert s. induction l as [|a l IH]; intros s Hs; [auto|].
  simpl. destruct (Hf s a Hs) as [Hh Hn].
  destruct (IH (f s a) Hn) as [Hh' Hn']. split; [congruence | exact Hn'].
Qed.

Lemma join_truthy (sep : jsstring) (l : list jsstring) :
  truthy (hd [] l) = true -> truthy (join sep l) = true.
Proof.
  destruct l as [|x l]; [discriminate|]. simpl. intros Hx.
  destruct l; [exact Hx|]. now destruct x.
Qed.

Section Tags.

Variable toLowerCase : jsstring -> jsstring.

Lemma buildTags_truthy (e : EntryRow) (calls : list jsobj)
    (userPrompt : jsstring) :
  truthy (SelfAnnotate.buildTags toLowerCase e calls userPrompt) = true.
Proof.
  unfold SelfAnnotate.buildTags. apply join_truthy.
  match goal with
  | |- context [set_add (entry_type_str (entry_type e)) ?t0] =>
      assert (H0 : t0 = [] \/ truthy (hd [] t0) = true);
      [|destruct (set_add_head (entry_type_str (entry_type e)) t0
                    (entry_type_str_truthy _) H0) as [Hh Hn];
        set (tags1 := set_add (entry_type_str (entry_type e)) t0) in *]
  end.
  { destruct (truthy_opt (file_path e)); [|now left].
    pose proof (path_parts_truthy (nullish (file_path e) [])) as Hp.
    set (parts := SelfAnnotate.path_parts (nullish (file_path e) [])) in *.
    set (filename := last parts []).
    assert (H1 : forall s, s = [] \/ truthy (hd [] s) = true ->
                 let s1 := if truthy filename then set_add filename s else s in
                 s1 = [] \/ truthy (hd [] s1) = true).
    { intros s Hs. simpl. destruct (truthy filename) eqn:Ef; [|exact Hs].
      right. now apply set_add_head. }
    specialize (H1 [] (or_introl eq_refl)). simpl in H1.
    set (tagsA := if truthy filename then set_add filename [] else []) in *.
    set (ext := last (split_on 46 filename) []).
    assert (H2 : let s2 := if truthy filename && truthy ext
                              && negb (str_eqb ext filename)
                           then set_add ext tagsA else tagsA in
                 s2 = [] \/ truthy (hd [] s2) = true).
    { simpl. destruct (truthy filename && truthy ext
                       && negb (str_eqb ext filename)) eqn:Ex; [|exact H1].
      right. apply set_add_head; [|exact H1].
      apply andb_true_iff in Ex as [Ex _].
      now apply andb_true_iff in Ex as [_ Ex]. }
    simpl in H2.
    destruct (2 <=? List.length parts)%nat eqn:E2; [|exact H2].
    right. apply set_add_head; [|exact H2].
    apply Hp, nth_In. apply Nat.leb_le in E2. lia. }
  assert (Hstep : forall (f : list jsstring -> jsobj -> list jsstring) l s,
             (forall s a, s <> [] -> hd [] (f s a) = hd [] s /\ f s a <> []) ->
             s <> [] -> truthy (hd [] s) = true ->
             fold_left f l s <> [] /\ truthy (hd [] (fold_left f l s)) = true).
  { intros f l s Hf Hs Ht. destruct (fold_set_add_head f l s Hf Hs) as [E N].
    split; [exact N | now rewrite E]. }
  assert (Hkw : forall l s, s <> [] ->
             hd [] (fold_left (fun tags k => set_add k tags) l s) = hd [] s
             /\ fold_left (fun tags k => set_add k tags) l s <> []).
  { intros l s Hs. apply fold_set_add_head; [|exact Hs].
    intros s' a Hs'. now apply set_add_keeps_head. }
  match goal with
  | |- truthy (hd [] (fold_left ?f3 ?l3 (fold_left ?f2 ?l2
                                           (fold_left ?f1 ?l1 tags1)))) = true =>
      assert (HF1 : forall s a, s <> [] ->
                                hd [] (f1 s a) = hd [] s /\ f1 s a <> []);
      [|assert (HF2 : forall s a, s <> [] ->
                                  hd [] (f2 s a) = hd [] s /\ f2 s a <> []);
        [|destruct (Hstep f1 l1 tags1 HF1 Hn Hh) as [N1 T1];
          destruct (Hstep f2 l2 _ HF2 N1 T1) as [N2 T2];
          destruct (Hkw l3 _ N2) as [E3 _]; now rewrite E3]]
  end.
  - intros s a Hs. destruct (get_prop a "tool") as [t|]; [|auto].
    destruct (truthy t); [now apply set_add_keeps_head | auto].
  - intros s a Hs. destruct (get_prop a "description") as [d|]; [|auto].
    destruct (truthy d); [now apply Hkw | auto].
Qed.

(** X18.  The rule-based annotation is never empty: for every entry and
    every list of calls, [buildDescription], [buildGroup] and [buildTags]
    return a non-empty string, and [isLowRelevance] is false.  So an entry
    annotated by [selfAnnotatePrompt] always has a description to show and
    a group to expand, and is never hidden from retrieval as of low
    relevance. *)
Theorem self_annotation_never_empty (e : EntryRow) (calls : list jsobj)
    (userPrompt : jsstring) :
  truthy (SelfAnnotate.buildDescription e calls) = true
  /\ truthy (SelfAnnotate.buildGroup e) = true
  /\ truthy (SelfAnnotate.buildTags toLowerCase e calls userPrompt) = true
  /\ SelfAnnotate.isLowRelevance e calls = false.
Proof.
  split; [apply buildDescription_truthy|].
  split; [apply buildGroup_truthy|].
  split; [apply buildTags_truthy | apply isLowRelevance_false].
Qed.

End Tags.

(** ** Call summaries *)

Lemma truncate_len (s : jsstring) (max : nat) :
  len (truncate s max) <= Z.of_nat max + 3.
Proof.
  unfold truncate, slice0, len.
  destruct (Z.gtb_spec (Z.of_nat (List.length s)) (Z.of_nat max)); [|lia].
  rewrite length_app, length_firstn. simpl. lia.
Qed.

(** X19.  [truncate(s, max)] returns [s] itself when it has at most [max]
    characters; otherwise it returns the first [max] characters followed by
    three dots, so the result has [max + 3] characters, which is longer
    than [s] when [s] has [max + 1] or [max + 2] characters.  In both
    cases the result has at most [max + 3] characters and starts with the
    first [max] characters of [s]. *)
Theorem truncate_bound (s : jsstring) (max : nat) :
  len (truncate s max) <= Z.of_nat max + 3
  /\ firstn max (truncate s max) = firstn max s
  /\ (len s <= Z.of_nat max -> truncate s max = s)
  /\ (Z.of_nat max < len s ->
      truncate s max = firstn max s ++ lit "..."
      /\ len (truncate s max) = Z.of_nat max + 3).
Proof.
  unfold truncate, slice0, len.
  destruct (Z.gtb_spec (Z.of_nat (List.length s)) (Z.of_nat max)) as [Hgt | Hle].
  - assert (Hl : List.length (firstn max s) = max)
      by (rewrite length_firstn; lia).
    repeat split; try lia.
    + rewrite length_app, Hl. simpl. lia.
    + rewrite firstn_app, Hl, Nat.sub_diag. simpl.
      rewrite app_nil_r, firstn_firstn. f_equal. lia.
    + rewrite length_app, Hl. simpl. lia.
  - repeat split; try lia; reflexivity.
Qed.


Lemma set_prop_keys (o : jsobj) (k : string) (v : jsstring) :
  map fst (set_prop o k v)
  = if existsb (String.eqb k) (map fst o) then map fst o else map fst o ++ [k].
Proof.
  induction o as [|[k' v'] o IH]; simpl; [reflexivity|].
  rewrite (String.eqb_sym k k').
  destruct (String.eqb k' k); simpl; [reflexivity|].
  rewrite IH. now destruct (existsb _ (map fst o)).
Qed.

Lemma set_prop_ok (tool : jsstring) (o : jsobj) (k : string) (v : jsstring) :
  summary_ok tool o -> k <> "tool"%string -> In k summary_keys ->
  (k = "glob"%string \/ k = "path"%string \/ len v <= 303) ->
  summary_ok tool (set_prop o k v).
Proof.
  intros (Ht & Hn & Hf) Hk Hin Hv. split; [|split].
  - clear Hn Hf. induction o as [|[k' v'] o IH]; simpl in *; [discriminate|].
    destruct (String.eqb k' k) eqn:E; simpl.
    + apply String.eqb_eq in E. subst k'.
      destruct (String.eqb k "tool") eqn:E'; [|exact Ht].
      apply String.eqb_eq in E'. contradiction.
    + destruct (String.eqb k' "tool"); [exact Ht | now apply IH].
  - rewrite set_prop_keys. destruct (existsb _ (map fst o)) eqn:E; [exact Hn|].
    apply NoDup_snoc; [exact Hn|]. intros Hi.
    assert (existsb (String.eqb k) (map fst o) = true)
      by (apply existsb_exists; exists k; split;
          [exact Hi | apply String.eqb_refl]).
    congruence.
  - clear Ht Hn. induction Hf as [|[k' v'] o Hkv Hf IH]; simpl.
    + constructor; [|constructor]. simpl. tauto.
    + destruct (String.eqb k' k) eqn:E.
      * apply String.eqb_eq in E. subst k'. constructor; [|exact Hf].
        simpl. tauto.
      * constructor; assumption.
Qed.

Lemma set_if_truthy_ok (tool : jsstring) (input o : jsobj) (k : string)
    (max : option nat) :
  summary_ok tool o -> k <> "tool"%string -> In k summary_keys ->
  (k = "glob"%string \/ k = "path"%string
   \/ exists n, max = Some n /\ (n <= 300)%nat) ->
  summary_ok tool (set_if_truthy input k max o).
Proof.
  intros Ho Hk Hin Hm. unfold set_if_truthy.
  destruct (get_prop input k) as [v|]; [|exact Ho].
  destruct (truthy v); [|exact Ho].
  apply set_prop_ok; auto.
  destruct Hm as [Hm | [Hm | (n & -> & Hn)]]; auto.
  right. right. pose proof (truncate_len v n). lia.
Qed.

Lemma key_field_keys (tool : jsstring) (k : string) :
  key_field tool = Some k -> k <> "tool"%string /\ In k summary_keys.
Proof.
  unfold key_field. intros H.
  destruct (find _ TOOL_KEY_FIELDS) as [[t k']|] eqn:E; [|discriminate].
  injection H as <-. apply find_some in E as [E _].
  unfold TOOL_KEY_FIELDS in E. simpl in E.
  repeat (destruct E as [E | E];
          [injection E as _ <-; split; [discriminate | simpl; tauto]|]).
  destruct E.
Qed.

(** X20.  The summary of a call that [flushToEntries] stores: its [tool]
    property is the tool name; no key occurs twice; its keys are among
    [tool], the key fields of the tools, [old_string], [new_string],
    [glob], [path] and [description]; and every value other than the tool
    name and the [glob] and [path] of a Grep, which are stored whole, has
    at most 303 characters. *)
Theorem summarizeCall_bounded (call : BufferedCall) :
  get_prop (summarizeCall call) "tool" = Some (tool_name call)
  /\ NoDup (map fst (summarizeCall call))
  /\ Forall (fun kv => In (fst kv) summary_keys
                       /\ (fst kv = "tool"%string \/ fst kv = "glob"%string
                           \/ fst kv = "path"%string \/ len (snd kv) <= 303))
            (summarizeCall call).
Proof.
  change (summary_ok (tool_name call) (summarizeCall call)).
  unfold summarizeCall.
  assert (H0 : summary_ok (tool_name call) [("tool"%string, tool_name call)]).
  { split; [reflexivity|]. split.
    - constructor; [intros [] | constructor].
    - constructor; [|constructor]. simpl. tauto. }
  match goal with
  | |- summary_ok _ (if _ then _ (_ _ _ _ ?s1) else _) =>
      assert (H1 : summary_ok (tool_name call) s1)
  end.
  { destruct (key_field (tool_name call)) as [k|] eqn:Ek; [|exact H0].
    destruct (get_prop (tool_input call) k) as [v|]; [|exact H0].
    destruct (key_field_keys _ _ Ek) as [Hk Hin].
    apply set_prop_ok; auto. right. right. apply truncate_len. }
  assert (Hin : forall k, In k ["old_string"; "new_string"; "glob"; "path";
                                "description"]%string ->
                          k <> "tool"%string /\ In k summary_keys).
  { intros k Hk. simpl in Hk.
    repeat (destruct Hk as [<- | Hk];
            [split; [discriminate | simpl; tauto]|]).
    destruct Hk. }
  repeat match goal with
         | |- summary_ok _ (if ?b then _ else _) => destruct b
         | |- summary_ok _ (set_if_truthy _ ?k _ _) =>
             apply set_if_truthy_ok;
             [|apply (Hin k); simpl; tauto|apply (Hin k); simpl; tauto
              |first [ left; reflexivity | right; left; reflexivity
                     | right; right; eexists; split; [reflexivity | lia] ]]
         end;
    exact H1.
Qed.

(** ** From the Stop hook to the next prompt *)

Lemma no_summary_rows (p : Z) (db : Db) :
  count_summaries p db = 0%nat ->
  forall e, In e (entries db) ->
            (prompt_index e =? p) && entry_type_eqb (entry_type e) summary
            = false.
Proof.
  unfold count_summaries. intros H e He.
  apply length_zero_iff_nil in H.
  destruct ((prompt_index e =? p) && entry_type_eqb (entry_type e) summary)
    eqn:E; [|reflexivity].
  exfalso. apply andb_true_iff in E as [E1 E2].
  assert (Hin : In (prompt_index e, entry_type e)
                   (filter (fun k => entry_type_eqb (snd k) summary
                                     && (fst k =? p))
                           (map (fun e => (prompt_index e, entry_type e))
                                (entries db)))).
  { apply filter_In. split; [|simpl; now rewrite E1, E2].
    apply in_map_iff. now exists e. }
  rewrite H in Hin. destruct Hin.
Qed.

Lemma summary_of_truthy (parts : list jsstring) :
  Forall (fun d => truthy d = true) parts -> parts <> [] ->
  truthy (SelfAnnotate.summary_of parts) = true.
Proof.
  intros Hf Hne. unfold SelfAnnotate.summary_of.
  assert (Hn : forall n r, truthy (num_str n ++ r) = true).
  { intros n r. destruct (num_str_head n) as (c & q & -> & _). reflexivity. }
  destruct parts as [|d [|d' parts]]; [congruence | | apply Hn].
  now inversion Hf.
Qed.

Lemma session_state_frame (db : Db) (s : list (jsstring * jsstring)) :
  session_state db = s ->
  (forall p fp t calls now,
     session_state (snd (insertEntry (Some p) fp t calls now db)) = s)
  /\ (forall p d t now,
        session_state (snd (insertSummaryEntry (Some p) d t now db)) = s)
  /\ (forall i d t g rf c lr,
        session_state (snd (annotateEntry i d t g rf c lr db)) = s).
Proof.
  intros H. split; [|split]; intros.
  - unfold insertEntry, bind, insert_entries, insert_fts, insert_fts_map, ret.
    simpl. now destruct (existsb _ (fts_map db)).
  - unfold insertSummaryEntry, bind, insert_entries, insert_fts,
      insert_fts_map, ret.
    simpl. now destruct (existsb _ (fts_map db)).
  - unfold annotateEntry, bind, update_entries, modify, gets, delete_fts,
      delete_fts_map, insert_fts, insert_fts_map, ret.
    simpl. destruct (mapping_of _ i); simpl;
      now destruct (existsb _ _).
Qed.

Section Continuity.

Variable toLowerCase : jsstring -> jsstring.
Variable fts_match : jsstring -> FtsRow -> bool.
Variable fts_rank : list FtsRow -> jsstring -> FtsRow -> Q.

Lemma selfAnnotatePrompt_session_state (pi : option Z) (now : Z) :
  forall s, keeps (fun db => session_state db = s)
                  (SelfAnnotate.selfAnnotatePrompt toLowerCase pi now).
Proof.
  intros s. unfold SelfAnnotate.selfAnnotatePrompt.
  apply keeps_bind; [apply keeps_gets|]. intros [|e0 rest]; [apply keeps_ret|].
  apply keeps_bind; [apply keeps_gets|]. intros userPrompt.
  apply keeps_bind.
  - apply keeps_foldM. intros parts e.
    apply keeps_bind; [|intros; apply keeps_ret].
    intros db H. now apply session_state_frame.
  - intros parts. apply keeps_bind; [|intros; apply keeps_ret].
    intros db H. destruct pi as [p|]; [now apply session_state_frame | exact H].
Qed.

(** X21.  What the Stop hook writes, the next prompt reads.  Take a store
    in bijection at prompt [p >= 1] (a number that JavaScript holds exactly
    together with [p + 1]) that has no summary for [p] yet, and a
    buffer with at least one call of a tool that is not ignored.  After
    [onStop], in either mode, the store holds a summary of prompt [p] with
    a non-empty text, and [onPrompt] for the next prompt, whatever its
    text, returns a context that opens with that summary in a
    [<last_activity>] block. *)
Theorem stop_then_prompt_continuity (mode : Hooks.Annotator)
    (calls : list BufferedCall) (now p : Z) (prompt : jsstring) (db : Db) :
  bijective db -> getPromptIndex db = Some p -> 1 <= p < 2 ^ 53 - 1 ->
  existsb indexed calls = true ->
  count_summaries p db = 0%nat ->
  let db' := snd (Hooks.onStop toLowerCase mode calls now db) in
  exists s rest,
    getPreviousSummary db' (p + 1) = Some s
    /\ truthy s = true
    /\ fst (PromptHook.onPrompt toLowerCase fts_match fts_rank prompt db')
       = Ok (Some (lit "<distilled_session_context>" ++ [10%N]
                   ++ last_activity s ++ rest)).
Proof.
  intros Hb Hp Hp1 Hcalls Hsum db'.
  pose proof (bijective_store_wf db Hb) as Hwf.
  destruct (flushToEntries_rows p calls now db Hwf)
    as (added & db0 & Hflush & He0 & Hperm & Hrows & _ & _ & _ & Hss0).
  destruct (flushToEntries_bijective p calls now db Hb)
    as (ids' & db0' & Hflush' & Hb0).
  rewrite Hflush in Hflush'. injection Hflush' as _ <-.
  assert (Hsum0 : count_summaries p db0 = 0%nat).
  { rewrite <- Hsum. apply count_summaries_extends.
    pose proof (flushToEntries_extends (Some p) calls now db) as H.
    now rewrite Hflush in H. }
  assert (Hadded : added <> []).
  { intros ->. simpl in Hperm. apply Permutation_nil in Hperm.
    apply map_eq_nil in Hperm.
    apply existsb_exists in Hcalls as (c & Hc & Hi).
    assert (Hin : In c (filter indexed calls)) by (apply filter_In; auto).
    rewrite Hperm in Hin. destruct Hin. }
  assert (Hne : getPendingEntries db0 (Some p) <> []).
  { destruct added as [|a added]; [congruence|].
    apply Forall_inv in Hrows as (Ha1 & Ha2 & _).
    assert (Hin : In a (getPendingEntries db0 (Some p))).
    { unfold getPendingEntries. apply filter_In. split.
      - rewrite He0, in_app_iff. right. now left.
      - unfold is_pending_or_annotating. now rewrite Ha1, Ha2, Z.eqb_refl. }
    intros E. rewrite E in Hin. destruct Hin. }
  destruct (selfAnnotatePrompt_run toLowerCase p now db0 Hb0 Hne)
    as (db2 & i & tags & Hself & Hb2 & He2).
  assert (Hss2 : session_state db2 = session_state db).
  { pose proof (selfAnnotatePrompt_session_state (Some p) now
                  (session_state db0) db0 eq_refl) as H.
    rewrite Hself in H. simpl in H. congruence. }
  assert (Hdb' : db' = db2).
  { unfold db', Hooks.onStop. destruct calls as [|c cs]; [discriminate|].
    unfold bind, gets. rewrite Hp, Hflush, Hself. now destruct mode. }
  rewrite Hdb'. clear db' Hdb'.
  set (s := SelfAnnotate.summary_of
              (map (fun e => SelfAnnotate.buildDescription e (tool_calls e))
                   (getPendingEntries db0 (Some p)))) in *.
  assert (Hprev : getPreviousSummary db2 (p + 1) = Some s).
  { unfold getPreviousSummary. rewrite He2, find_app_last.
    replace (p + 1 - 1) with p by lia.
    match goal with
    | |- context [find ?f (map ?g (entries db0))] =>
        assert (Hnone : find f (map g (entries db0)) = None)
    end.
    { apply find_none_iff. intros x Hx. apply in_map_iff in Hx as (e & <- & He).
      pose proof (no_summary_rows p db0 Hsum0 e He) as Hn.
      now destruct ((prompt_index e =? p) && is_pending_or_annotating e). }
    rewrite Hnone. cbn [prompt_index entry_type entry_type_eqb description].
    now rewrite Z.eqb_refl. }
  assert (Hs : truthy s = true).
  { apply summary_of_truthy.
    - apply Forall_map, Forall_forall. intros e _.
      apply buildDescription_truthy.
    - intros E. apply map_eq_nil in E. contradiction. }
  assert (Hidx : getPromptIndex db2 = Some p).
  { unfold getPromptIndex, getState in *. now rewrite Hss2. }
  destruct (onPrompt_run toLowerCase fts_match fts_rank db2 p prompt Hidx)
    as (Hrun & _).
  replace (p + 1 <=? 1) with false in Hrun
    by (symmetry; apply Z.leb_gt; destruct Hp1; lia).
  rewrite (retrieveContext_assemble toLowerCase fts_match fts_rank) in Hrun.
  assert (Hblock : continuity_block db2 (p + 1) = Some (last_activity s)).
  { unfold continuity_block. rewrite Hprev. cbn [truthy_opt nullish].
    now rewrite Hs. }
  rewrite Hblock in Hrun.
  destruct (selected_lines toLowerCase fts_match fts_rank db2 prompt (p + 1)
              TOKEN_BUDGET) as [|l0 ls] eqn:El.
  - exists s, ([10%N] ++ lit "</distilled_session_context>").
    split; [exact Hprev|]. split; [exact Hs|].
    rewrite Hrun. cbn [assemble]. unfold wrapContext. cbn [join].
    now rewrite lit_app_truthy.
  - exists s, ([10%N; 10%N] ++ relevant_context (l0 :: ls) ++ [10%N]
               ++ lit "</distilled_session_context>").
    split; [exact Hprev|]. split; [exact Hs|].
    rewrite Hrun. cbn [assemble]. unfold wrapContext. cbn [join].
    rewrite lit_app_truthy. now rewrite <- !app_assoc.
Qed.

End Continuity.

Lemma stop_then_prompt_continuity_witness :
  bijective Samples.turn1_db
  /\ getPromptIndex Samples.turn1_db = Some 1
  /\ 1 <= 1 < 2 ^ 53 - 1
  /\ existsb indexed Samples.login_batch = true
  /\ count_summaries 1 Samples.turn1_db = 0%nat
  /\ exists s rest,
       getPreviousSummary
         (snd (Hooks.onStop ascii_toLowerCase Hooks.self Samples.login_batch
                 100 Samples.turn1_db)) (1 + 1) = Some s
       /\ truthy s = true
       /\ fst (PromptHook.onPrompt ascii_toLowerCase Samples.match_file_path
                 Samples.rank_zero (lit "what about the login form")
                 (snd (Hooks.onStop ascii_toLowerCase Hooks.self
                         Samples.login_batch 100 Samples.turn1_db)))
          = Ok (Some (lit "<distilled_session_context>" ++ [10%N]
                      ++ last_activity s ++ rest)).
Proof.
  assert (H : bijective Samples.turn1_db)
    by (apply fts_bijection_bijective; vm_compute; reflexivity).
  assert (H1 : 1 <= 1 < 2 ^ 53 - 1) by (split; vm_compute; congruence).
  split; [exact H|]. split; [reflexivity|]. split; [exact H1|].
  split; [reflexivity|]. split; [reflexivity|].
  exact (stop_then_prompt_continuity ascii_toLowerCase Samples.match_file_path
           Samples.rank_zero Hooks.self Samples.login_batch 100 1
           (lit "what about the login form") Samples.turn1_db H eq_refl H1
           eq_refl eq_refl).
Defined.

(** ** Keywords *)

(** X22.  The keywords that [extractKeywords] takes from a text, whatever
    it holds: each is longer than two characters, is not one of
    [KEYWORD_STOPS], and is made of word characters and [-] only; so a
    keyword tag holds no comma, no white space, no [/] and no [.]. *)
Theorem extractKeywords_terms (toLowerCase : jsstring -> jsstring)
    (text : jsstring) :
  Forall (fun w => 2 < len w
                   /\ includes SelfAnnotate.KEYWORD_STOPS w = false
                   /\ Forall (fun c => is_word c = true \/ c = 45%N) w)
         (SelfAnnotate.extractKeywords toLowerCase text).
Proof.
  apply Forall_forall. intros w Hw. unfold SelfAnnotate.extractKeywords in Hw.
  apply filter_In in Hw as [Hw Hf]. apply andb_true_iff in Hf as [Hl Hs].
  split; [now apply Z.ltb_lt|]. split; [now apply negb_true_iff|].
  apply split_ws_from_chars in Hw. eapply Forall_impl; [|exact Hw].
  intros c [Hc Hsp]. unfold replace_outside in Hc.
  apply in_map_iff in Hc as (c0 & E & _).
  destruct (is_word c0 || is_space c0 || (c0 =? 45)%N) eqn:K.
  - subst c0. rewrite Hsp, orb_false_r in K.
    apply orb_true_iff in K as [K | K]; [now left|].
    right. now apply N.eqb_eq.
  - subst c. discriminate Hsp.
Qed.

(** ** No entry is listed twice *)

Lemma NoDup_app_intro {A} (l1 l2 : list A) :
  NoDup l1 -> NoDup l2 -> (forall x, In x l1 -> In x l2 -> False) ->
  NoDup (l1 ++ l2).
Proof.
  induction 1 as [|x l1 Hx Hl IH]; intros H2 Hd; simpl; [exact H2|].
  constructor.
  - rewrite in_app_iff. intros [H | H]; [contradiction|].
    apply (Hd x); [now left | exact H].
  - apply IH; [exact H2|]. intros y Hy. apply Hd. now right.
Qed.

Lemma NoDup_flat_map_key {A B} (f : A -> list B) (l : list A) :
  NoDup l -> (forall x, In x l -> NoDup (f x)) ->
  (forall x y b, In x l -> In y l -> In b (f x) -> In b (f y) -> x = y) ->
  NoDup (flat_map f l).
Proof.
  induction 1 as [|x l Hx Hl IH]; intros Hf Hd; simpl; [constructor|].
  apply NoDup_app_intro.
  - apply Hf. now left.
  - apply IH.
    + intros y Hy. apply Hf. now right.
    + intros y z b Hy Hz. apply Hd; now right.
  - intros b Hb Hb'. apply in_flat_map in Hb' as (y & Hy & Hb').
    assert (x = y) by (apply (Hd x y b); simpl; auto).
    subst y. contradiction.
Qed.

Lemma NoDup_firstn {A} (n : nat) (l : list A) : NoDup l -> NoDup (firstn n l).
Proof.
  intros H. rewrite <- (firstn_skipn n l) in H.
  now apply NoDup_app_remove_r in H.
Qed.

Lemma map_flat_map_comm {A B C} (g : B -> C) (f : A -> list B) (l : list A) :
  map g (flat_map f l) = flat_map (fun x => map g (f x)) l.
Proof.
  induction l as [|x l IH]; simpl; [reflexivity|]. now rewrite map_app, IH.
Qed.

Lemma most_recent_ids (n : nat) (p : EntryRow -> bool) (l : list EntryRow) :
  NoDup (map id l) ->
  NoDup (map id (firstn n (sort_by by_prompt_desc (filter p l)))).
Proof.
  intros H. rewrite <- firstn_map. apply NoDup_firstn.
  eapply Permutation_NoDup;
    [apply Permutation_map; symmetry; apply sort_by_perm|].
  now apply NoDup_map_filter.
Qed.

Lemma set_add_NoDup (x : jsstring) (s : list jsstring) :
  NoDup s -> NoDup (set_add x s).
Proof.
  intros H. unfold set_add, includes. destruct (existsb (str_eqb x) s) eqn:E;
    [exact H|].
  apply NoDup_snoc; [exact H|]. intros Hin.
  pose proof (proj1 (existsb_false _ _) E x Hin) as Hx.
  now rewrite str_eqb_refl in Hx.
Qed.

Lemma id_add_new (i : Z) (s : list Z) :
  ~ In i s -> Retrieve.id_add i s = s ++ [i].
Proof.
  intros H. unfold Retrieve.id_add.
  destruct (existsb (Z.eqb i) s) eqn:E; [|reflexivity].
  apply existsb_exists in E as (x & Hx & E). apply Z.eqb_eq in E. now subst.
Qed.

Section Distinct.

Variable fts_match : jsstring -> FtsRow -> bool.
Variable fts_rank : list FtsRow -> jsstring -> FtsRow -> Q.
Variable charBudget : Z.

Lemma searchFts_ids (db : Db) (q : jsstring) (C : Z) (limit : nat) :
  bijective db ->
  NoDup (map fe_id (searchFts fts_match fts_rank db q C limit)).
Proof.
  intros (Ni & Nr & Nm & Ne & Hid & Hrw). unfold searchFts.
  rewrite <- firstn_map. apply NoDup_firstn.
  eapply Permutation_NoDup;
    [apply Permutation_map; symmetry; apply sort_by_perm|].
  rewrite map_flat_map_comm.
  assert (Hrow : forall (doc : FtsRow) (fm : FtsMapRow) (b : Z),
             In b (map fe_id
                     (if fts_rowid fm =? rowid doc
                      then map (of_row (fts_rank (entries_fts db) q doc))
                             (filter (fun ce => (id ce =? entry_id fm)
                                                && retrievable C ce)
                                     (entries db))
                      else [])) ->
             fts_rowid fm = rowid doc /\ b = entry_id fm).
  { intros doc fm b Hb.
    destruct (fts_rowid fm =? rowid doc) eqn:E; [|destruct Hb].
    apply Z.eqb_eq in E. split; [exact E|].
    rewrite map_map in Hb. apply in_map_iff in Hb as (ce & <- & Hce).
    apply filter_In in Hce as [_ Hc]. apply andb_true_iff in Hc as [Hc _].
    now apply Z.eqb_eq in Hc. }
  assert (Hdoc : forall (doc : FtsRow) (b : Z),
             In b (map fe_id
                     (if fts_match q doc
                      then flat_map (fun fm =>
                             if fts_rowid fm =? rowid doc
                             then map (of_row (fts_rank (entries_fts db) q doc))
                                    (filter (fun ce => (id ce =? entry_id fm)
                                                       && retrievable C ce)
                                            (entries db))
                             else []) (fts_map db)
                      else [])) ->
             exists fm, In fm (fts_map db) /\ fts_rowid fm = rowid doc
                        /\ b = entry_id fm).
  { intros doc b Hb. destruct (fts_match q doc); [|destruct Hb].
    rewrite map_flat_map_comm in Hb. apply in_flat_map in Hb as (fm & Hfm & Hb).
    exists fm. split; [exact Hfm|]. now apply Hrow. }
  apply NoDup_flat_map_key.
  - now apply NoDup_map_inv in Nr.
  - intros doc _. destruct (fts_match q doc); [|constructor].
    rewrite map_flat_map_comm. apply NoDup_flat_map_key.
    + now apply NoDup_map_inv in Nm.
    + intros fm _. destruct (fts_rowid fm =? rowid doc); [|constructor].
      rewrite map_map. change (fun x => fe_id (of_row _ x)) with id.
      now apply NoDup_map_filter.
    + intros fm1 fm2 b H1 H2 Hb1 Hb2.
      apply Hrow in Hb1 as [_ E1]. apply Hrow in Hb2 as [_ E2].
      apply (NoDup_map_inj entry_id (fts_map db) Ne); congruence.
  - intros d1 d2 b H1 H2 Hb1 Hb2.
    apply Hdoc in Hb1 as (fm1 & Hf1 & R1 & E1).
    apply Hdoc in Hb2 as (fm2 & Hf2 & R2 & E2).
    assert (fm1 = fm2)
      by (apply (NoDup_map_inj entry_id (fts_map db) Ne); congruence).
    subst fm2. apply (NoDup_map_inj rowid (entries_fts db) Nr); congruence.
Qed.

Lemma expandGroups_ids (db : Db) (groups : list jsstring) (excl : list Z)
    (C : Z) :
  NoDup (map id (entries db)) -> NoDup groups ->
  NoDup (map fe_id (expandGroups db groups excl C)).
Proof.
  intros Ni Ng. unfold expandGroups. rewrite map_flat_map_comm.
  apply NoDup_flat_map_key; [exact Ng| |].
  - intros g _. rewrite map_map. change (fun x => fe_id (of_row 0 x)) with id.
    now apply most_recent_ids.
  - assert (Hg : forall g b,
               In b (map fe_id
                       (map (of_row 0)
                          (firstn GROUP_EXPANSION_LIMIT
                             (sort_by by_prompt_desc
                                (filter (fun e =>
                                   match semantic_group e with
                                   | Some g' => str_eqb g' g
                                   | None => false
                                   end && retrievable C e
                                   && negb (existsb (Z.eqb (id e)) excl))
                                   (entries db)))))) ->
               exists e, In e (entries db) /\ id e = b
                         /\ semantic_group e = Some g).
    { intros g b Hb. rewrite map_map in Hb.
      apply in_map_iff in Hb as (e & <- & He).
      apply In_firstn, sort_by_In, filter_In in He as [He Hc].
      apply andb_true_iff in Hc as [Hc _]. apply andb_true_iff in Hc as [Hc _].
      exists e. split; [exact He|]. split; [reflexivity|].
      destruct (semantic_group e) as [g'|]; [|discriminate].
      apply str_eqb_eq in Hc. now subst. }
    intros g1 g2 b _ _ H1 H2.
    apply Hg in H1 as (e1 & He1 & <- & G1).
    apply Hg in H2 as (e2 & He2 & E & G2).
    assert (e2 = e1) by (apply (NoDup_map_inj id (entries db) Ni); auto).
    subst e2. congruence.
Qed.

Lemma expandGroups_excludes (db : Db) (groups : list jsstring) (excl : list Z)
    (C : Z) (fe : FtsEntry) :
  In fe (expandGroups db groups excl C) -> ~ In (fe_id fe) excl.
Proof.
  unfold expandGroups. intros H. apply in_flat_map in H as (g & _ & H).
  apply in_map_iff in H as (row & <- & H).
  apply In_firstn, sort_by_In, filter_In in H as [_ Hc].
  apply andb_true_iff in Hc as [_ Hx]. apply negb_true_iff in Hx.
  simpl. intros Hi. now rewrite (existsb_In_ids _ _ Hi) in Hx.
Qed.

Lemma select_results_distinct (l : list FtsEntry) :
  forall st,
    NoDup (map fe_id l) ->
    (forall e, In e l -> ~ In (fe_id e) (selectedIds st)) ->
    List.length (contextLines st) = List.length (selectedIds st) ->
    NoDup (seenGroups st) ->
    List.length (contextLines (select_results charBudget l st))
    = List.length (selectedIds (select_results charBudget l st))
    /\ NoDup (seenGroups (select_results charBudget l st)).
Proof.
  induction l as [|e l IH]; intros st Hn Hd Hl Hg; [auto|].
  cbn [select_results]. inversion Hn as [|? ? He Hn']; subst.
  destruct (negb (truthy_opt (fe_description e))).
  - apply IH; auto. intros e' He'. apply Hd. now right.
  - destruct (usedChars st + len (formatEntry e) >? charBudget); [auto|].
    assert (Hnew : ~ In (fe_id e) (selectedIds st)) by (apply Hd; now left).
    apply IH; cbn [contextLines selectedIds seenGroups]; auto.
    + intros e' He'. rewrite (id_add_new _ _ Hnew), in_app_iff.
      intros [H | [H | []]]; [apply (Hd e'); [now right | exact H]|].
      apply He. rewrite H. now apply in_map.
    + rewrite (id_add_new _ _ Hnew), !length_app. simpl. lia.
    + destruct (truthy_opt (fe_semantic_group e)); [|exact Hg].
      now apply set_add_NoDup.
Qed.

Lemma select_expanded_distinct (l : list FtsEntry) :
  forall st,
    NoDup (map fe_id l) ->
    (forall e, In e l -> ~ In (fe_id e) (selectedIds st)) ->
    List.length (contextLines st) = List.length (selectedIds st) ->
    List.length (contextLines (select_expanded charBudget l st))
    = List.length (selectedIds (select_expanded charBudget l st)).
Proof.
  induction l as [|e l IH]; intros st Hn Hd Hl; [auto|].
  cbn [select_expanded]. inversion Hn as [|? ? He Hn']; subst.
  destruct (negb (truthy_opt (fe_description e))).
  - apply IH; auto. intros e' He'. apply Hd. now right.
  - destruct (usedChars st + len (formatEntry e) >? charBudget); [auto|].
    assert (Hnew : ~ In (fe_id e) (selectedIds st)) by (apply Hd; now left).
    apply IH; cbn [contextLines selectedIds]; auto.
    + intros e' He'. rewrite (id_add_new _ _ Hnew), in_app_iff.
      intros [H | [H | []]]; [apply (Hd e'); [now right | exact H]|].
      apply He. rewrite H. now apply in_map.
    + rewrite (id_add_new _ _ Hnew), !length_app. simpl. lia.
Qed.

(** X23.  No entry is listed twice in the retrieved context.  On a store
    in bijection, the lines that the two loops of [retrieveContext] select
    come from entries with pairwise different ids: there are as many lines
    as ids in the set [selectedIds], for every query, prompt index, budget
    and initial [usedChars].  The search returns an entry once, and the
    group expansion leaves out what the search has selected. *)
Theorem context_lines_distinct (db : Db) (q : jsstring) (C used0 : Z) :
  bijective db ->
  let st := select_context fts_match fts_rank db q C charBudget used0 in
  List.length (contextLines st) = List.length (selectedIds st).
Proof.
  intros Hb st. unfold st, select_context.
  pose proof (searchFts_ids db q C FTS_RESULT_LIMIT Hb) as Hs.
  destruct (select_results_distinct _ (mkSel [] used0 [] []) Hs)
    as [Hl Hg]; [intros e _ []|reflexivity|constructor|].
  destruct (seenGroups _) eqn:Eg; [exact Hl|]. rewrite <- Eg in *.
  destruct (usedChars _ <? charBudget); [|exact Hl].
  apply select_expanded_distinct; [|intros e He|exact Hl].
  - apply expandGroups_ids; [apply Hb | exact Hg].
  - now apply expandGroups_excludes in He.
Qed.

End Distinct.

(** The query for [src/login.ts] in the second turn of the indexed session:
    the search selects entry 1, and the expansion of its group [src] adds
    entry 2. *)
Lemma context_lines_distinct_witness :
  let q := dquote ++ lit "src/login.ts" ++ dquote in
  let st := select_context Samples.match_file_path Samples.rank_zero
              Samples.indexed_db q 2 16000 0 in
  bijective Samples.indexed_db
  /\ selectedIds st = [1; 2]
  /\ contextLines st
     = [formatEntry (of_row 0 (mkEntry 1 1 (Some (lit "src/login.ts"))
                                 file_change []
                                 (Some (lit "Modified src/login.ts (1 edit)"))
                                 (Some (lit "login.ts,ts,src")) []
                                 (Some (lit "src")) (Some (3 # 10)) 0
                                 annotated 0));
        formatEntry (of_row 0 (mkEntry 2 1 (Some (lit "src/auth.ts")) research
                                 [] (Some (lit "Read src/auth.ts"))
                                 (Some (lit "auth.ts,ts,src")) []
                                 (Some (lit "src")) (Some (3 # 10)) 0
                                 annotated 0))]
  /\ List.length (contextLines st) = List.length (selectedIds st).
Proof.
  assert (H : bijective Samples.indexed_db)
    by (apply fts_bijection_bijective; vm_compute; reflexivity).
  split; [exact H|]. split; [vm_compute; reflexivity|].
  split; [vm_compute; reflexivity|].
  exact (context_lines_distinct Samples.match_file_path Samples.rank_zero 16000
           Samples.indexed_db (dquote ++ lit "src/login.ts" ++ dquote) 2 0 H).
Defined.
